(** * treeboost (NeuralDoc): ingestion-to-retrieval pipeline

    A shallow embedding of the TypeScript sources
      - [server/services/embeddingService.ts] (EmbeddingService, DocumentProcessor.chunkText),
      - [server/storage.ts]                   (MemStorage),
      - [server/routes.ts]                    (chat handler, processDocumentAsync, processUrlAsync),
    and the properties of the specification checked against it.

    Conventions.
      - A JS string is the list of its UTF-16 code units ([jsstring]); [.length] is [length].
      - A JS number that the code keeps integral is a [Z]; the 32-bit wrap of the bit
        operators is written out ([toInt32]).
      - A JS number used as a real quantity is an IEEE-754 binary64 value, Rocq's
        primitive [float], whose [+ - * / sqrt] round to nearest-even exactly as
        ECMAScript's do.  The similarity ranker is written once over a record of
        arithmetic operations ([Arith]) and read at binary64 (what the code runs) and
        at the real numbers (what the formula means).
      - A thrown exception is the [Throw] case of [result]. *)

From Stdlib Require Import String Ascii.
From Stdlib Require Import ZArith List Bool Lia Sorted Permutation.
From Stdlib Require Import Floats Uint63 Reals Lra.
Import ListNotations.

Set Implicit Arguments.

(* ================================================================== *)
(** * JavaScript values used by the sources                            *)
(* ================================================================== *)

Module JS.

(** A value or a thrown [Error(message)]. *)
Inductive result (A : Type) : Type :=
| OK (a : A)
| Throw (message : string).
Arguments OK {A} a.
Arguments Throw {A} message.

Definition is_throw {A} (r : result A) : bool :=
  match r with OK _ => false | Throw _ => true end.

(** Strings: UTF-16 code units. *)
Definition jsstring := list Z.

Definition str (s : string) : jsstring :=
  map (fun a => Z.of_nat (nat_of_ascii a)) (list_ascii_of_string s).

Definition len (s : jsstring) : Z := Z.of_nat (length s).

Fixpoint streq (a b : jsstring) : bool :=
  match a, b with
  | [], [] => true
  | x :: a', y :: b' => (x =? y)%Z && streq a' b'
  | _, _ => false
  end.

(** [ToInt32]: the signed 32-bit reading every bit operator applies. *)
Definition toInt32 (z : Z) : Z := ((z + 2 ^ 31) mod 2 ^ 32 - 2 ^ 31)%Z.

(** [x << n] on a number holding the integer [x]. *)
Definition shl (x n : Z) : Z := toInt32 (toInt32 x * 2 ^ n)%Z.

(** [x & y]. *)
Definition band (x y : Z) : Z := Z.land (toInt32 x) (toInt32 y).

(** [Number.prototype.toString()] of a non-negative integer: its decimal digits. *)
Fixpoint digits (fuel : nat) (n : Z) (acc : jsstring) : jsstring :=
  let acc' := (48 + n mod 10)%Z :: acc in
  match fuel with
  | O => acc'
  | S fuel' => if (n / 10 =? 0)%Z then acc' else digits fuel' (n / 10) acc'
  end.

Definition toString (n : nat) : jsstring := digits n (Z.of_nat n) [].

(** [String.prototype.trim]: WhiteSpace and LineTerminator code units. *)
Definition isWhite (c : Z) : bool :=
  ((c =? 9) || (c =? 10) || (c =? 11) || (c =? 12) || (c =? 13) || (c =? 32)
   || (c =? 160) || (c =? 5760) || ((8192 <=? c) && (c <=? 8202))
   || (c =? 8232) || (c =? 8233) || (c =? 8239) || (c =? 8287)
   || (c =? 12288) || (c =? 65279))%Z.

Fixpoint trimStart (s : jsstring) : jsstring :=
  match s with
  | c :: s' => if isWhite c then trimStart s' else s
  | [] => []
  end.

Definition trimEnd (s : jsstring) : jsstring := rev (trimStart (rev s)).

Definition trim (s : jsstring) : jsstring := trimEnd (trimStart s).

(** [s.substring(0, n)] for an integral [n]: a negative [n] counts as 0. *)
Definition substring0 (s : jsstring) (n : Z) : jsstring := firstn (Z.to_nat n) s.

(** [Array.prototype.slice(0, n)] for an integral [n]: a negative [n] counts
    from the end. *)
Definition slice0 {A} (l : list A) (n : Z) : list A :=
  if (n <? 0)%Z then firstn (length l - Z.to_nat (- n)) l
  else firstn (Z.to_nat n) l.

(** [Array.prototype.slice(-n)] for a positive literal [n]: the last [n]. *)
Definition sliceLast {A} (l : list A) (n : nat) : list A :=
  skipn (length l - n) l.

(** [Array.prototype.sort(cmp)]: stable (ES2019).  [after a b] reads
    "cmp(a, b) > 0", that is [a] has to come after [b].  For a comparator that
    is consistent on the array the standard fixes the result: the stable
    sorted arrangement, computed here by insertion.  For a comparator that
    is not (a NaN difference) the order is left to the engine, and nothing
    is proved of it. *)
Section Sort.
Context {A : Type} (after : A -> A -> bool).

Fixpoint insert (x : A) (l : list A) : list A :=
  match l with
  | [] => [x]
  | y :: l' => if after x y then y :: insert x l' else x :: l
  end.

Definition sort (l : list A) : list A := fold_right insert [] l.
End Sort.

End JS.
Import JS.

(* ================================================================== *)
(** * EmbeddingService.generateEmbedding                               *)
(* ================================================================== *)

Module Vectorizer.

Definition dimension : nat := 1536.

(** One round of the inner loop:
    [hash = ((hash << 5) - hash) + str.charCodeAt(j); hash = hash & hash]. *)
Definition hashStep (hash c : Z) : Z :=
  let hash := (shl hash 5 - hash + c)%Z in
  band hash hash.

Definition hashOf (s : jsstring) : Z := fold_left hashStep s 0%Z.

(** A non-negative integer below 2^53 as the binary64 that holds it. *)
Definition ofNonNeg (k : Z) : float := PrimFloat.of_uint63 (Uint63.of_Z k).

(** [hash % 1000]: the remainder takes the sign of [hash] (so [-0] for a
    negative multiple of 1000). *)
Definition remainder (hash : Z) : float :=
  if (hash <? 0)%Z then PrimFloat.opp (ofNonNeg (- Z.rem hash 1000))
  else ofNonNeg (Z.rem hash 1000).

(** [(hash % 1000) / 1000] for the hash of [text + i.toString()]. *)
Definition component (text : jsstring) (i : nat) : float :=
  PrimFloat.div (remainder (hashOf (text ++ toString i))) 1000%float.

Definition generateEmbedding (text : jsstring) : list float :=
  map (component text) (seq 0 dimension).

End Vectorizer.

(* ================================================================== *)
(** * EmbeddingService.cosineSimilarity and findSimilarChunks          *)
(* ================================================================== *)

Module Ranker.

(** The operations of JS numbers the ranker uses. *)
Record Arith (num : Type) : Type := {
  zero : num;
  one : num;
  add : num -> num -> num;
  sub : num -> num -> num;
  mul : num -> num -> num;
  div : num -> num -> num;
  sqrt : num -> num;
  isZero : num -> bool;          (* x === 0.0 *)
  isPositive : num -> bool;      (* x > 0 *)
  max : num -> num -> num;       (* Math.max(x, y) *)
  min : num -> num -> num        (* Math.min(x, y) *)
}.

(** [Math.max] and [Math.min] on binary64: NaN if an argument is NaN, and
    [-0] below [+0]. *)
Definition mathMax (x y : float) : float :=
  if PrimFloat.is_nan x || PrimFloat.is_nan y then nan
  else if PrimFloat.ltb x y then y
  else if PrimFloat.ltb y x then x
  else match PrimFloat.classify x with NZero => y | _ => x end.

Definition mathMin (x y : float) : float :=
  if PrimFloat.is_nan x || PrimFloat.is_nan y then nan
  else if PrimFloat.ltb x y then x
  else if PrimFloat.ltb y x then y
  else match PrimFloat.classify x with PZero => y | _ => x end.

(** The arithmetic the code runs on. *)
Definition binary64 : Arith float := {|
  zero := 0%float;
  one := 1%float;
  add := PrimFloat.add;
  sub := PrimFloat.sub;
  mul := PrimFloat.mul;
  div := PrimFloat.div;
  sqrt := PrimFloat.sqrt;
  isZero := fun x => PrimFloat.eqb x 0%float;
  isPositive := fun x => PrimFloat.ltb 0%float x;
  max := mathMax;
  min := mathMin
|}.

(** The same operations without rounding. *)
Definition exact : Arith R := {|
  zero := 0%R;
  one := 1%R;
  add := Rplus;
  sub := Rminus;
  mul := Rmult;
  div := Rdiv;
  sqrt := R_sqrt.sqrt;
  isZero := fun x => if Req_EM_T x 0%R then true else false;
  isPositive := fun x => if Rlt_dec 0%R x then true else false;
  max := Rmax;
  min := Rmin
|}.

Record Metadata : Type := {
  chunkIndex : nat;
  totalChunks : nat;
  source : option jsstring;
  originalUrl : option jsstring
}.

(** An element of [documentChunks]. *)
Record Chunk (num : Type) : Type := {
  id : nat;
  embedding : list num;
  content : jsstring;
  documentId : nat;
  metadata : option Metadata
}.

(** [{ ...chunk, similarity }] *)
Record Scored (num : Type) : Type := {
  chunk : Chunk num;
  similarity : num
}.

(** An element of the result: the chunk without its embedding, with its
    similarity. *)
Record Match (num : Type) : Type := {
  matchId : nat;
  matchContent : jsstring;
  matchSimilarity : num;
  matchDocumentId : nat;
  matchMetadata : option Metadata
}.

Section Generic.
Context {num : Type} (A : Arith num).

(** The three accumulators of the loop of [cosineSimilarity]. *)
Definition accumulate (acc : num * num * num) (ab : num * num) : num * num * num :=
  let '(dotProduct, magnitudeA, magnitudeB) := acc in
  let '(componentA, componentB) := ab in
  (add A dotProduct (mul A componentA componentB),
   add A magnitudeA (mul A componentA componentA),
   add A magnitudeB (mul A componentB componentB)).

Definition cosineSimilarity (vectorA vectorB : list num) : result num :=
  if negb (length vectorA =? length vectorB)%nat then
    Throw "Vector dimensionality mismatch"
  else
    let '(dotProduct, magnitudeA, magnitudeB) :=
      fold_left accumulate (combine vectorA vectorB) (zero A, zero A, zero A) in
    let normA := sqrt A magnitudeA in
    let normB := sqrt A magnitudeB in
    if isZero A normA || isZero A normB then OK (zero A)
    else
      let similarity := div A dotProduct (mul A normA normB) in
      OK (max A (zero A) (min A (one A) similarity)).

(** [({ embedding, ...result }) => result] *)
Definition dropEmbedding (s : Scored num) : Match num := {|
  matchId := id (chunk s);
  matchContent := content (chunk s);
  matchSimilarity := similarity s;
  matchDocumentId := documentId (chunk s);
  matchMetadata := metadata (chunk s)
|}.

(** [documentChunks.map(chunk => ...)]: the first comparison that throws
    ends the whole map. *)
Fixpoint scoreAll (queryEmbedding : list num) (documentChunks : list (Chunk num))
  : result (list (Scored num)) :=
  match documentChunks with
  | [] => OK []
  | c :: rest =>
      match cosineSimilarity queryEmbedding (embedding c) with
      | Throw m => Throw m
      | OK s =>
          match scoreAll queryEmbedding rest with
          | Throw m => Throw m
          | OK scored => OK ({| chunk := c; similarity := s |} :: scored)
          end
      end
  end.

(** [x] is strictly above [y] for the comparator: [x - y > 0]. *)
Definition outranks (x y : num) : bool := isPositive A (sub A x y).

(** The comparator [(a, b) => b.similarity - a.similarity] is positive. *)
Definition comesAfter (a b : Scored num) : bool := outranks (similarity b) (similarity a).

Definition findSimilarChunks (queryEmbedding : list num) (documentChunks : list (Chunk num))
  (topK : Z) : result (list (Match num)) :=
  match scoreAll queryEmbedding documentChunks with
  | Throw m => Throw m
  | OK semanticResults =>
      let rankedResults := slice0 (sort comesAfter semanticResults) topK in
      OK (map dropEmbedding rankedResults)
  end.

End Generic.

End Ranker.

(* ================================================================== *)
(** * DocumentProcessor.chunkText                                       *)
(* ================================================================== *)

Module DocumentProcessor.

(** The class [[.!?]]. *)
Definition isTerminator (c : Z) : bool := ((c =? 46) || (c =? 33) || (c =? 63))%Z.

(** [text.split(/[.!?]+/)]: the pieces between the maximal runs of
    terminators; [piece] holds the current piece backwards and [inRun] says
    that the previous code unit was a terminator. *)
Fixpoint splitFrom (inRun : bool) (piece : jsstring) (text : jsstring) : list jsstring :=
  match text with
  | [] => [rev piece]
  | c :: rest =>
      if isTerminator c then
        if inRun then splitFrom true [] rest
        else rev piece :: splitFrom true [] rest
      else splitFrom false (c :: piece) rest
  end.

Definition split (text : jsstring) : list jsstring := splitFrom false [] text.

(** [.filter(s => s.trim().length > 0)] *)
Definition sentencesOf (text : jsstring) : list jsstring :=
  filter (fun s => (0 <? len (trim s))%Z) (split text).

(** One round of the loop over the sentences, on [(chunks, currentChunk)]. *)
Definition step (maxChunkSize : Z) (st : list jsstring * jsstring) (sentence : jsstring)
  : list jsstring * jsstring :=
  let '(chunks, currentChunk) := st in
  let potentialChunk := currentChunk ++ sentence ++ str ". " in
  if (len potentialChunk >? maxChunkSize)%Z && (len currentChunk >? 0)%Z then
    (chunks ++ [trim currentChunk], sentence ++ str ". ")
  else
    (chunks, potentialChunk).

(** The chunks after the loop and the final push. *)
Definition collected (sentences : list jsstring) (maxChunkSize : Z) : list jsstring :=
  let '(chunks, currentChunk) := fold_left (step maxChunkSize) sentences ([], []) in
  if (len (trim currentChunk) >? 0)%Z then chunks ++ [trim currentChunk] else chunks.

Definition chunkText (text : jsstring) (maxChunkSize : Z) : list jsstring :=
  let chunks := collected (sentencesOf text) maxChunkSize in
  if (0 <? Z.of_nat (length chunks))%Z then chunks
  else [substring0 text maxChunkSize].

Definition defaultMaxChunkSize : Z := 6000.

End DocumentProcessor.

(* ================================================================== *)
(** * MemStorage                                                        *)
(* ================================================================== *)

Module Storage.

Import Ranker.

(** The status literals the routes write. *)
Inductive Status : Type := processing | completed | failed | error.

Inductive Role : Type := user | assistant.

Record InsertDocument : Type := {
  newFilename : jsstring;
  newOriginalName : jsstring;
  newMimeType : jsstring;
  newSize : Z
}.

Record Document : Type := {
  docId : nat;
  filename : jsstring;
  originalName : jsstring;
  mimeType : jsstring;
  size : Z;
  docContent : option jsstring;
  status : Status;
  uploadedAt : Z;
  processedAt : option Z
}.

Record InsertEmbedding : Type := {
  newDocumentId : nat;
  newContent : jsstring;
  newEmbedding : list float;
  newMetadata : option Metadata;
  newOriginalIndex : option nat
}.

Record Embedding : Type := {
  embId : nat;
  embDocumentId : nat;
  embContent : jsstring;
  embVector : list float;
  embMetadata : option Metadata;
  embOriginalIndex : option nat;
  embCreatedAt : Z
}.

(** An entry of [sources]: [{ id, name, similarity }]. *)
Record Source : Type := {
  sourceId : nat;
  sourceName : jsstring;
  sourceSimilarity : float
}.

Record InsertChatMessage : Type := {
  newMessageContent : jsstring;
  newRole : Role;
  newSources : option (list Source)
}.

Record ChatMessage : Type := {
  msgId : nat;
  msgContent : jsstring;
  role : Role;
  sources : option (list Source);
  msgCreatedAt : Z
}.

(** A JS [Map] keyed by UUIDs: entries in insertion order, [set] on a key
    that is present replaces the value where it stands. *)
Section JSMap.
Context {V : Type}.

Fixpoint mapGet (k : nat) (m : list (nat * V)) : option V :=
  match m with
  | [] => None
  | (k', v) :: m' => if (k =? k')%nat then Some v else mapGet k m'
  end.

Fixpoint mapSet (k : nat) (v : V) (m : list (nat * V)) : list (nat * V) :=
  match m with
  | [] => [(k, v)]
  | (k', v') :: m' =>
      if (k =? k')%nat then (k, v) :: m' else (k', v') :: mapSet k v m'
  end.

Definition mapDelete (k : nat) (m : list (nat * V)) : list (nat * V) :=
  filter (fun kv => negb (k =? fst kv)%nat) m.

Definition mapValues (m : list (nat * V)) : list V := map snd m.
End JSMap.

Record MemStorage : Type := {
  documents : list (nat * Document);
  embeddings : list (nat * Embedding);
  chatMessages : list (nat * ChatMessage)
}.

(** A write of a document's status: the document, the status it had and
    the status written.  The journal is ghost state: the program does not
    read it. *)
Record StatusWrite : Type := {
  written : nat;
  before : Status;
  after : Status
}.

(** The storage singleton and what the process reads besides:
    [randomUUID()] (the n-th UUID drawn is [n]: UUIDs do not repeat) and
    [new Date()] (the n-th reading of the clock is [wallClock n]). *)
Record World : Type := {
  store : MemStorage;
  uuids : nat;
  dates : nat;
  wallClock : nat -> Z;
  journal : list StatusWrite
}.

(** Computations on the world that may throw. *)
Definition M (A : Type) : Type := World -> result A * World.

Definition ret {A} (a : A) : M A := fun w => (OK a, w).

Definition bind {A B} (m : M A) (k : A -> M B) : M B :=
  fun w => match m w with
           | (OK a, w') => k a w'
           | (Throw e, w') => (Throw e, w')
           end.

Definition throw {A} (e : string) : M A := fun w => (Throw e, w).

(** [try { body } catch (error) { handler }] *)
Definition tryCatch {A} (body : M A) (handler : string -> M A) : M A :=
  fun w => match body w with
           | (OK a, w') => (OK a, w')
           | (Throw e, w') => handler e w'
           end.

(** The value of an awaited call that may reject. *)
Definition await {A} (r : result A) : M A := fun w => (r, w).

End Storage.

Declare Scope monad_scope.
Delimit Scope monad_scope with monad.
Notation "x <- m ;; k" := (Storage.bind m (fun x => k))
  (at level 61, m at next level, right associativity) : monad_scope.
Notation "m ;;; k" := (Storage.bind m (fun _ => k))
  (at level 61, right associativity) : monad_scope.

Module MemStorage.

Import Ranker Storage.
Local Open Scope monad_scope.

Definition getStore : M Storage.MemStorage := fun w => (OK (store w), w).

Definition putStore (s : Storage.MemStorage) : M unit :=
  fun w => (OK tt, {| store := s; uuids := uuids w; dates := dates w;
                      wallClock := wallClock w; journal := journal w |}).

Definition randomUUID : M nat :=
  fun w => (OK (uuids w), {| store := store w; uuids := S (uuids w); dates := dates w;
                             wallClock := wallClock w; journal := journal w |}).

Definition newDate : M Z :=
  fun w => (OK (wallClock w (dates w)),
            {| store := store w; uuids := uuids w; dates := S (dates w);
               wallClock := wallClock w; journal := journal w |}).

Definition record (e : StatusWrite) : M unit :=
  fun w => (OK tt, {| store := store w; uuids := uuids w; dates := dates w;
                      wallClock := wallClock w; journal := journal w ++ [e] |}).

Definition setDocuments (d : list (nat * Document)) : M unit :=
  s <- getStore ;;
  putStore {| documents := d; embeddings := embeddings s; chatMessages := chatMessages s |}.

Definition setEmbeddings (e : list (nat * Embedding)) : M unit :=
  s <- getStore ;;
  putStore {| documents := documents s; embeddings := e; chatMessages := chatMessages s |}.

Definition setChatMessages (c : list (nat * ChatMessage)) : M unit :=
  s <- getStore ;;
  putStore {| documents := documents s; embeddings := embeddings s; chatMessages := c |}.

Definition createDocument (insertDocument : InsertDocument) : M Document :=
  id <- randomUUID ;;
  now <- newDate ;;
  let document := {|
    docId := id;
    filename := newFilename insertDocument;
    originalName := newOriginalName insertDocument;
    mimeType := newMimeType insertDocument;
    size := newSize insertDocument;
    docContent := None;
    status := processing;
    uploadedAt := now;
    processedAt := None |} in
  s <- getStore ;;
  setDocuments (mapSet id document (documents s)) ;;;
  ret document.

Definition getDocument (id : nat) : M (option Document) :=
  s <- getStore ;; ret (mapGet id (documents s)).

Definition getAllDocuments : M (list Document) :=
  s <- getStore ;;
  ret (sort (fun a b => (uploadedAt b - uploadedAt a >? 0)%Z) (mapValues (documents s))).

Definition statusEqb (a b : Status) : bool :=
  match a, b with
  | processing, processing | completed, completed | failed, failed | error, error => true
  | _, _ => false
  end.

Definition updateDocumentStatus (id : nat) (newStatus : Status) (content : option jsstring)
  : M unit :=
  s <- getStore ;;
  match mapGet id (documents s) with
  | None => ret tt
  | Some document =>
      record {| written := id; before := status document; after := newStatus |} ;;;
      let content' := match content with Some c => Some c | None => docContent document end in
      processedAt' <- (if statusEqb newStatus completed
                       then now <- newDate ;; ret (Some now)
                       else ret (processedAt document)) ;;
      let document' := {|
        docId := docId document;
        filename := filename document;
        originalName := originalName document;
        mimeType := mimeType document;
        size := size document;
        docContent := content';
        status := newStatus;
        uploadedAt := uploadedAt document;
        processedAt := processedAt' |} in
      setDocuments (mapSet id document' (documents s))
  end.

Definition deleteEmbeddingsByDocument (documentId : nat) : M unit :=
  s <- getStore ;;
  let toDelete :=
    map fst (filter (fun kv => (embDocumentId (snd kv) =? documentId)%nat) (embeddings s)) in
  setEmbeddings (fold_left (fun m id => mapDelete id m) toDelete (embeddings s)).

Definition deleteDocument (id : nat) : M unit :=
  s <- getStore ;;
  match mapGet id (documents s) with
  | None => ret tt
  | Some _ =>
      setDocuments (mapDelete id (documents s)) ;;;
      deleteEmbeddingsByDocument id
  end.

Definition createEmbedding (insertEmbedding : InsertEmbedding) : M Embedding :=
  id <- randomUUID ;;
  now <- newDate ;;
  let embedding := {|
    embId := id;
    embDocumentId := newDocumentId insertEmbedding;
    embContent := newContent insertEmbedding;
    embVector := newEmbedding insertEmbedding;
    embMetadata := newMetadata insertEmbedding;
    embOriginalIndex := newOriginalIndex insertEmbedding;
    embCreatedAt := now |} in
  s <- getStore ;;
  setEmbeddings (mapSet id embedding (embeddings s)) ;;;
  ret embedding.

Fixpoint createEmbeddingsBatch (insertEmbeddings : list InsertEmbedding) : M (list Embedding) :=
  match insertEmbeddings with
  | [] => ret []
  | insertEmbedding :: rest =>
      embedding <- createEmbedding insertEmbedding ;;
      others <- createEmbeddingsBatch rest ;;
      ret (embedding :: others)
  end.

Definition getEmbeddingsByDocument (documentId : nat) : M (list Embedding) :=
  s <- getStore ;;
  ret (filter (fun e => (embDocumentId e =? documentId)%nat) (mapValues (embeddings s))).

Definition getAllEmbeddings : M (list Embedding) :=
  s <- getStore ;; ret (mapValues (embeddings s)).

Definition createChatMessage (insertMessage : InsertChatMessage) : M ChatMessage :=
  id <- randomUUID ;;
  now <- newDate ;;
  let message := {|
    msgId := id;
    msgContent := newMessageContent insertMessage;
    role := newRole insertMessage;
    sources := newSources insertMessage;
    msgCreatedAt := now |} in
  s <- getStore ;;
  setChatMessages (mapSet id message (chatMessages s)) ;;;
  ret message.

Definition getAllChatMessages : M (list ChatMessage) :=
  s <- getStore ;;
  if (length (documents s) =? 0)%nat then
    setChatMessages [] ;;; ret []
  else
    let allMessages :=
      sort (fun a b => (msgCreatedAt a - msgCreatedAt b >? 0)%Z) (mapValues (chatMessages s)) in
    ret (sliceLast allMessages 12).

Definition clearChatHistory : M unit := setChatMessages [].

End MemStorage.

(* ================================================================== *)
(** * routes.ts: ingestion and chat                                     *)
(* ================================================================== *)

Module Routes.

Import Ranker Storage MemStorage DocumentProcessor.
Local Open Scope monad_scope.

(** [for (const x of xs) { await body(x) }] *)
Fixpoint forEach {A} (xs : list A) (body : A -> M unit) : M unit :=
  match xs with
  | [] => ret tt
  | x :: rest => body x ;;; forEach rest body
  end.

(** [haystack.includes(needle)] *)
Fixpoint startsWith (needle haystack : jsstring) : bool :=
  match needle, haystack with
  | [], _ => true
  | _ :: _, [] => false
  | x :: needle', y :: haystack' => (x =? y)%Z && startsWith needle' haystack'
  end.

Fixpoint includes (haystack needle : jsstring) : bool :=
  startsWith needle haystack
  || match haystack with
     | [] => false
     | _ :: rest => includes rest needle
     end.

(** [pieces.join(separator)] *)
Fixpoint join (separator : jsstring) (pieces : list jsstring) : jsstring :=
  match pieces with
  | [] => []
  | [p] => p
  | p :: rest => p ++ separator ++ join separator rest
  end.

Definition supportedTypes : list jsstring := map str [
  "application/pdf";
  "application/vnd.openxmlformats-officedocument.wordprocessingml.document";
  "text/csv";
  "application/csv";
  "text/comma-separated-values";
  "application/octet-stream";
  "application/vnd.openxmlformats-officedocument.spreadsheetml.sheet";
  "application/vnd.ms-excel";
  "text/plain";
  "image/jpeg";
  "image/jpg";
  "image/png" ]%string.

Definition characterNames : list jsstring := map str
  ["rosemary"; "barr"; "helen"; "reacher"; "vladimir"; "chenko"; "zee"; "yanni";
   "emerson"]%string.
Definition websiteNames : list jsstring := map str
  ["crapharma"; "norbury"; "cingulate"; "mhdeep"; "messi"; "lionel"]%string.
(** The sixth keyword starts with U+0107. *)
Definition translationKeywords : list jsstring :=
  map str ["translate"; "translation"; "prevod"; "prevedi"; "cyrillic"]%string
  ++ [263%Z :: str "irilica"] ++ map str ["latin"; "latinica"]%string.
Definition contextKeywords : list jsstring := map str
  ["this"; "that"; "previous"; "above"; "earlier"; "before"]%string.
Definition allKeywords : list jsstring :=
  characterNames ++ websiteNames ++ translationKeywords ++ contextKeywords.

Definition newlines : jsstring := [10%Z; 10%Z].

(** [EmbeddingService.generateChatResponse]: only [context] is read. *)
Definition generateChatResponse (context : list jsstring) : jsstring :=
  if (length context =? 0)%nat then
    str "I don't have any documents to reference. Please upload documents first to get started with intelligent document analysis."
  else
    let relevantContext := join newlines (firstn 3 context) in
    str "Based on the uploaded documents, here's what I found:" ++ newlines
    ++ relevantContext ++ newlines ++ str "---" ++ newlines
    ++ str "This information is extracted from your documents. For more detailed analysis, the system processes document content using advanced text analysis.".

(** What a route answers: the JSON body, or an error status with its
    message. *)
Inductive Reply (A : Type) : Type :=
| Json (body : A)
| Refusal (code : nat) (message : string).

Arguments Refusal {A} code message.

Section Services.

(** What the routes await from outside the store:
    [DocumentProcessor.extractText(filePath, mimeType, originalName)] (the
    file system and the format parsers), [extractFromDomain(url)] (the
    network), and the vectorizer behind
    [EmbeddingService.generateEmbedding], each of which may reject; and
    [String.prototype.toLowerCase]. *)
Variable extractText : jsstring -> jsstring -> jsstring -> result jsstring.
Variable extractFromDomain : jsstring -> result jsstring.
Variable generateEmbedding : jsstring -> result (list float).
Variable toLowerCase : jsstring -> jsstring.

(** [fs.unlink(path).catch(() => {})]: the store is not touched. *)
Definition unlink (path : jsstring) : M unit := ret tt.

(** The chunks of one batch with their indexes in [chunks]. *)
Definition batchOf (chunks : list jsstring) (batchSize batchIndex : nat)
  : list (nat * jsstring) :=
  let startIdx := batchIndex * batchSize in
  let endIdx := Nat.min (startIdx + batchSize) (length chunks) in
  let batch := firstn (endIdx - startIdx) (skipn startIdx chunks) in
  combine (seq startIdx (length batch)) batch.

(** [Math.ceil(chunks.length / batchSize)] as a loop bound: no round when
    the quotient is 0/0. *)
Definition totalBatchesOf (chunkCount batchSize : nat) : nat :=
  if (batchSize =? 0)%nat then 0 else (chunkCount + batchSize - 1) / batchSize.

(** The promise of one chunk in [processDocumentAsync]: the record to
    store, or [null] when the vectorizer rejects. *)
Definition embedChunk (documentId totalChunks : nat) (ic : nat * jsstring)
  : option InsertEmbedding :=
  let '(chunkIndex, chunk) := ic in
  match generateEmbedding chunk with
  | OK embedding =>
      Some {| newDocumentId := documentId;
              newContent := chunk;
              newEmbedding := embedding;
              newMetadata := Some {| chunkIndex := chunkIndex; totalChunks := totalChunks;
                                     source := None; originalUrl := None |};
              newOriginalIndex := Some chunkIndex |}
  | Throw _ => None
  end.

(** [embeddingResults.filter(r => r !== null)] *)
Fixpoint nonNull {A} (l : list (option A)) : list A :=
  match l with
  | [] => []
  | Some a :: rest => a :: nonNull rest
  | None :: rest => nonNull rest
  end.

(** The loop over the batches in [processDocumentAsync]: each batch is
    vectorized ([Promise.all] keeps the order of the batch), the rejected
    chunks are dropped, and what is left is stored in one write. *)
Definition storeBatches (documentId : nat) (chunks : list jsstring) : M unit :=
  let batchSize := Nat.min 100 (length chunks) in
  let totalBatches := totalBatchesOf (length chunks) batchSize in
  forEach (seq 0 totalBatches) (fun batchIndex =>
    let batch := batchOf chunks batchSize batchIndex in
    let embeddingResults := map (embedChunk documentId (length chunks)) batch in
    let validEmbeddings := nonNull embeddingResults in
    if (0 <? length validEmbeddings)%nat
    then _ <- createEmbeddingsBatch validEmbeddings ;; ret tt
    else ret tt).

(** [lastChunk.substring(...)] on [chunks[chunks.length - 1]]: a TypeError
    when there is no chunk. *)
Definition readLastChunk (chunks : list jsstring) : M unit :=
  match last (map Some chunks) None with
  | None => throw "TypeError: Cannot read properties of undefined"
  | Some _ => ret tt
  end.

Definition processDocumentBody (documentId : nat) (filePath : jsstring) : M unit :=
  document <- getDocument documentId ;;
  match document with
  | None => ret tt
  | Some document =>
      text <- await (extractText filePath (mimeType document) (originalName document)) ;;
      updateDocumentStatus documentId processing (Some text) ;;;
      let chunks := chunkText text defaultMaxChunkSize in
      storeBatches documentId chunks ;;;
      readLastChunk chunks ;;;
      _ <- getEmbeddingsByDocument documentId ;;
      updateDocumentStatus documentId completed None ;;;
      unlink filePath
  end.

Definition processDocumentAsync (documentId : nat) (filePath : jsstring) : M unit :=
  tryCatch (processDocumentBody documentId filePath)
    (fun _ => updateDocumentStatus documentId failed None ;;; unlink filePath).

(** POST /api/documents/upload with a file: the record is created and
    answered, then validated and processed. *)
Definition upload (file : InsertDocument) (filePath : jsstring) : M Document :=
  document <- createDocument file ;;
  (if negb (existsb (streq (newMimeType file)) supportedTypes) then
     updateDocumentStatus (docId document) failed None ;;; unlink filePath
   else processDocumentAsync (docId document) filePath) ;;;
  ret document.

(** The promise of one chunk in [processUrlAsync]. *)
Definition embedUrlChunk (documentId totalChunks : nat) (url : jsstring)
  (ic : nat * jsstring) : M unit :=
  let '(chunkIndex, chunk) := ic in
  tryCatch
    (embedding <- await (generateEmbedding chunk) ;;
     _ <- createEmbedding
            {| newDocumentId := documentId;
               newContent := chunk;
               newEmbedding := embedding;
               newMetadata := Some {| chunkIndex := chunkIndex; totalChunks := totalChunks;
                                      source := Some (str "url"); originalUrl := Some url |};
               newOriginalIndex := None |} ;;
     ret tt)
    (fun _ => ret tt).

(** The loop over the batches in [processUrlAsync]: each chunk is
    vectorized and stored by its own promise.  The promises of a batch are
    started in chunk order and none of the calls they await yields to a
    timer or to I/O, so they also store in chunk order. *)
Definition storeUrlBatches (documentId : nat) (url : jsstring) (chunks : list jsstring)
  : M unit :=
  let batchSize := Nat.min 50 (length chunks) in
  let totalBatches := totalBatchesOf (length chunks) batchSize in
  forEach (seq 0 totalBatches) (fun batchIndex =>
    forEach (batchOf chunks batchSize batchIndex)
            (embedUrlChunk documentId (length chunks) url)).

Definition processUrlBody (documentId : nat) (url : jsstring) : M unit :=
  document <- getDocument documentId ;;
  match document with
  | None => ret tt
  | Some _ =>
      extractedContent <- await (extractFromDomain url) ;;
      updateDocumentStatus documentId completed (Some extractedContent) ;;;
      storeUrlBatches documentId url (chunkText extractedContent defaultMaxChunkSize)
  end.

Definition processUrlAsync (documentId : nat) (url : jsstring) : M unit :=
  tryCatch (processUrlBody documentId url)
    (fun _ => updateDocumentStatus documentId error None).

(** POST /api/documents/extract-url past its validation: with a
    well-formed [url] of host [hostname], at time [Date.now() = stamp].  The
    validation is in [postExtractUrl] below. *)
Definition extractUrl (url hostname : jsstring) (stamp : nat) : M Document :=
  document <- createDocument
                {| newFilename := hostname ++ str "_" ++ toString stamp;
                   newOriginalName := url;
                   newMimeType := str "text/html";
                   newSize := 0 |} ;;
  processUrlAsync (docId document) url ;;;
  ret document.

(** [new URL(url)]: the hostname of the parsed URL, [None] when the
    constructor throws. *)
Variable parseUrl : jsstring -> option jsstring.

(** The whole handler of POST /api/documents/extract-url.  [body] is
    [req.body.url] when it is a string, [None] when it is missing or of
    another type; an empty string is falsy.  The schema accepts the record
    the handler builds and [createDocument] does not throw, so the catch of
    the handler (the 500 answer) is not reached. *)
Definition postExtractUrl (body : option jsstring) (stamp : nat) : M (Reply Document) :=
  match body with
  | None => ret (Refusal 400 "URL is required")
  | Some url =>
      if (length url =? 0)%nat then ret (Refusal 400 "URL is required")
      else
        match parseUrl url with
        | None => ret (Refusal 400 "Invalid URL format")
        | Some hostname =>
            document <- extractUrl url hostname stamp ;;
            ret (Json document)
        end
  end.

(** The chunk a stored embedding is searched as. *)
Definition embeddingData (e : Embedding) : Chunk float := {|
  id := embId e;
  embedding := embVector e;
  content := embContent e;
  documentId := embDocumentId e;
  metadata := embMetadata e
|}.

Definition keywordMatch (c : Chunk float) : Match float := {|
  matchId := id c;
  matchContent := content c;
  matchSimilarity := 0.5%float;
  matchDocumentId := documentId c;
  matchMetadata := metadata c
|}.

(** The keyword branch of the chat handler. *)
Definition withKeywordMatches (queryLower : jsstring) (data : list (Chunk float))
  (similarChunks : list (Match float)) : list (Match float) :=
  match find (fun name => includes queryLower name) allKeywords with
  | None => similarChunks
  | Some relevantKeyword =>
      let keywordMatches :=
        filter (fun c =>
                  includes (toLowerCase (content c)) relevantKeyword
                  || (streq relevantKeyword (str "barr")
                      && includes (toLowerCase (content c)) (str "rosemary"))
                  || (streq relevantKeyword (str "crapharma")
                      && includes (toLowerCase (content c)) (str "cra"))) data in
      let existingIds := map (@matchId float) similarChunks in
      let additionalChunks :=
        map keywordMatch
            (firstn 3 (filter (fun c => negb (existsb (Nat.eqb (id c)) existingIds))
                              keywordMatches)) in
      firstn 8 (similarChunks ++ additionalChunks)
  end.

(** The loop that resolves the top three chunks to their documents. *)
Fixpoint sourcesOf (top : list (Match float)) : M (list Source) :=
  match top with
  | [] => ret []
  | c :: rest =>
      doc <- getDocument (matchDocumentId c) ;;
      others <- sourcesOf rest ;;
      ret (match doc with
           | Some doc => {| sourceId := docId doc; sourceName := originalName doc;
                            sourceSimilarity := matchSimilarity c |} :: others
           | None => others
           end)
  end.

(** POST /api/chat/messages; [body] is [req.body.content] when it is a
    string.  A [Throw] is the handler's catch: the 500 response. *)
Definition postChatMessage (body : option jsstring) : M (ChatMessage * ChatMessage) :=
  content <- match body with
             | Some content => ret content
             | None => throw "ZodError"
             end ;;
  userMessage <- createChatMessage
                   {| newMessageContent := content; newRole := user; newSources := None |} ;;
  allMessages <- getAllChatMessages ;;
  let recentMessages := sliceLast allMessages 16 in
  queryEmbedding <- await (generateEmbedding content) ;;
  allEmbeddings <- getAllEmbeddings ;;
  let data := map embeddingData allEmbeddings in
  let queryLower := toLowerCase content in
  let mentionsKeyword := existsb (fun name => includes queryLower name) allKeywords in
  let isTranslationRequest :=
    existsb (fun keyword => includes queryLower keyword) translationKeywords in
  let needsContext :=
    existsb (fun keyword => includes queryLower keyword) contextKeywords
    || isTranslationRequest in
  similarChunks <- await (findSimilarChunks binary64 queryEmbedding data 5) ;;
  let similarChunks := if needsContext then firstn 3 similarChunks else similarChunks in
  let similarChunks :=
    if mentionsKeyword && negb isTranslationRequest
    then withKeywordMatches queryLower data similarChunks
    else similarChunks in
  let context := map (@matchContent float) similarChunks in
  let response := generateChatResponse context in
  sourceDocuments <- sourcesOf (firstn 3 similarChunks) ;;
  assistantMessage <- createChatMessage
                        {| newMessageContent := response;
                           newRole := assistant;
                           newSources := if (0 <? length sourceDocuments)%nat
                                         then Some sourceDocuments else None |} ;;
  ret (userMessage, assistantMessage).

End Services.

End Routes.

(* ================================================================== *)
(** * The specification's vocabulary                                    *)
(* ================================================================== *)

Module Spec.

Import Ranker.

(** "bounded to a fixed numeric range (reference: [0, 1))" *)
Definition inUnitInterval (c : float) : Prop :=
  PrimFloat.leb 0%float c = true /\ PrimFloat.ltb c 1%float = true.

(** The open interval (-1, 1). *)
Definition inOpenUnitBall (c : float) : Prop :=
  PrimFloat.ltb (-1)%float c = true /\ PrimFloat.ltb c 1%float = true.

Section Cosine.
Context {num : Type} (A : Arith num).

(** "dot product over the product of Euclidean norms", each sum taken
    from the first component on. *)
Definition dot (a b : list num) : num :=
  fold_left (fun acc ab => add A acc (mul A (fst ab) (snd ab))) (combine a b) (zero A).

Definition norm (a : list num) : num :=
  sqrt A (fold_left (fun acc x => add A acc (mul A x x)) a (zero A)).

Definition cosine (a b : list num) : num :=
  div A (dot a b) (mul A (norm a) (norm b)).

(** "clamps the result to [0, 1]" *)
Definition clamp (x : num) : num := max A (zero A) (min A (one A) x).

(** "if either norm is zero, the result is defined as 0" *)
Definition clampedCosine (a b : list num) : num :=
  if isZero A (norm a) || isZero A (norm b) then zero A else clamp (cosine a b).

(** The similarity the ranker gives a candidate. *)
Definition scoreOf (query : list num) (c : Chunk num) : num :=
  match cosineSimilarity A query (embedding c) with
  | OK s => s
  | Throw _ => zero A
  end.

(** The entry a candidate has in a ranking. *)
Definition matchOf (query : list num) (c : Chunk num) : Match num :=
  dropEmbedding {| chunk := c; similarity := scoreOf query c |}.

(** Equal similarity for the comparator: neither is above the other. *)
Definition tied (x y : num) : bool := negb (outranks A x y) && negb (outranks A y x).

(** The comparator is consistent on the scores [l]: "above" is
    asymmetric and what is above [z] is above [y] or [y] is above [z].
    On binary64 this holds of every list without NaN. *)
Definition consistentOn (l : list num) : Prop :=
  forall x y z, In x l -> In y l -> In z l ->
    (outranks A x y = true -> outranks A y x = false) /\
    (outranks A x z = true -> outranks A x y = true \/ outranks A y z = true).

Definition consistentOnb (l : list num) : bool :=
  forallb (fun x => forallb (fun y => forallb (fun z =>
    implb (outranks A x y) (negb (outranks A y x))
    && implb (outranks A x z) (outranks A x y || outranks A y z)) l) l) l.

End Cosine.

(** "status only advances processing -> completed or processing ->
    {failed|error}" *)
Inductive advances : Storage.Status -> Storage.Status -> Prop :=
| advances_completed : advances Storage.processing Storage.completed
| advances_failed : advances Storage.processing Storage.failed
| advances_error : advances Storage.processing Storage.error.

(** The writes [events] of the status of document [documentId], read from
    the status [current] on: each either leaves the status at [processing]
    or advances it, so that nothing is written once the status is
    terminal. *)
Inductive lifecycle (documentId : nat) : Storage.Status -> list Storage.StatusWrite -> Prop :=
| lifecycle_end (current : Storage.Status) : lifecycle documentId current []
| lifecycle_keep (e : Storage.StatusWrite) (events : list Storage.StatusWrite) :
    Storage.written e = documentId ->
    Storage.before e = Storage.processing ->
    Storage.after e = Storage.processing ->
    lifecycle documentId Storage.processing events ->
    lifecycle documentId Storage.processing (e :: events)
| lifecycle_advance (current : Storage.Status) (e : Storage.StatusWrite)
    (events : list Storage.StatusWrite) :
    Storage.written e = documentId ->
    Storage.before e = current ->
    advances current (Storage.after e) ->
    lifecycle documentId (Storage.after e) events ->
    lifecycle documentId current (e :: events).

(** The chunk-vectors persisted for a document. *)
Definition persistedFor (documentId : nat) (w : Storage.World) : list Storage.Embedding :=
  filter (fun e => (Storage.embDocumentId e =? documentId)%nat)
         (Storage.mapValues (Storage.embeddings (Storage.store w))).

(** The status a document has in the store. *)
Definition statusOf (documentId : nat) (w : Storage.World) : option Storage.Status :=
  option_map Storage.status (Storage.mapGet documentId (Storage.documents (Storage.store w))).

(** No stored embedding has a UUID that is still to be drawn. *)
Definition uuidsFresh (w : Storage.World) : Prop :=
  forall k e, In (k, e) (Storage.embeddings (Storage.store w)) -> k < Storage.uuids w.

(** The chat messages of the store that were created from the world [w] on. *)
Definition messagesSince (w w' : Storage.World) : list Storage.ChatMessage :=
  filter (fun m => (Storage.uuids w <=? Storage.msgId m)%nat)
         (Storage.mapValues (Storage.chatMessages (Storage.store w'))).

(** "either both user+assistant messages exist, or neither does" *)
Definition pairOrNothing (w w' : Storage.World) : Prop :=
  messagesSince w w' = []
  \/ exists u a, messagesSince w w' = [u; a]
                 /\ Storage.role u = Storage.user /\ Storage.role a = Storage.assistant.

End Spec.

(* ================================================================== *)
(** * Vocabulary of the proofs                                          *)
(* ================================================================== *)

Import Vectorizer Ranker DocumentProcessor Spec.
Import Storage MemStorage Routes.

(** Every value [k / 1000] and [-k / 1000] with [0 <= k < 1000], computed. *)
Definition thousandthsInBall : bool :=
  forallb (fun n =>
             let c := PrimFloat.div (ofNonNeg (Z.of_nat n)) 1000%float in
             let c' := PrimFloat.div (PrimFloat.opp (ofNonNeg (Z.of_nat n))) 1000%float in
             PrimFloat.ltb (-1)%float c && PrimFloat.ltb c 1%float
             && PrimFloat.ltb (-1)%float c' && PrimFloat.ltb c' 1%float)
          (seq 0 1000).

(** A comparator, read as [after x y] for "x has to come after y", is
    consistent on the elements of [l]. *)
Definition consistentAfter {X} (after : X -> X -> bool) (l : list X) : Prop :=
  forall x y z, In x l -> In y l -> In z l ->
    (after x y = true -> after y x = false) /\
    (after x z = true -> after x y = true \/ after y z = true).

(** [x] may stay before [y]. *)
Definition keeps {X} (after : X -> X -> bool) (x y : X) : Prop := after x y = false.

(** [x] is at the level of [s]: neither has to come after the other. *)
Definition level {X} (after : X -> X -> bool) (s x : X) : bool :=
  negb (after s x) && negb (after x s).

(** A candidate with the similarity the ranker gives it. *)
Definition scored {num} (A : Arith num) (query : list num) (c : Chunk num) : Scored num :=
  {| chunk := c; similarity := scoreOf A query c |}.

(** The invariant of the chunker's loop: a buffer, and a chunk, that
    exceeds the bound is one sentence with its [". "]. *)
Definition bufferOk (sentences : list jsstring) (maxChunkSize : Z) (currentChunk : jsstring)
  : Prop :=
  (len currentChunk <= maxChunkSize)%Z
  \/ exists sentence,
       In sentence sentences
       /\ currentChunk = sentence ++ str ". "
       /\ (len sentence + 2 > maxChunkSize)%Z.

Definition chunkOk (sentences : list jsstring) (maxChunkSize : Z) (c : jsstring) : Prop :=
  (len c <= maxChunkSize)%Z
  \/ exists sentence,
       In sentence sentences
       /\ c = trim (sentence ++ str ". ")
       /\ (len sentence + 2 > maxChunkSize)%Z.

(** A computation that leaves the documents, the journal and the chat
    messages as they are; [quiet] when it moreover does not throw. *)
Definition calm {A} (m : M A) : Prop :=
  forall w, documents (store (snd (m w))) = documents (store w)
            /\ journal (snd (m w)) = journal w
            /\ chatMessages (store (snd (m w))) = chatMessages (store w).

Definition quiet {A} (m : M A) : Prop :=
  forall w, exists a w',
    m w = (OK a, w')
    /\ documents (store w') = documents (store w)
    /\ journal w' = journal w
    /\ chatMessages (store w') = chatMessages (store w).

(** A computation that, when it throws, leaves the chat messages as they
    were; [total] when it does not throw. *)
Definition failsClean {A} (m : M A) : Prop :=
  forall w e w', m w = (Throw e, w') -> chatMessages (store w') = chatMessages (store w).

Definition total {A} (m : M A) : Prop := forall w, exists a w', m w = (OK a, w').

(** The user message a request with the text [content] stores in [w]. *)
Definition userMessageOf (content : jsstring) (w : World) : ChatMessage :=
  {| msgId := uuids w; msgContent := content; role := user; sources := None;
     msgCreatedAt := wallClock w (dates w) |}.

(** Unfolds the store's operations down to the world they return. *)
Ltac run_store :=
  cbv [createDocument createEmbedding createChatMessage getDocument getAllEmbeddings
       getEmbeddingsByDocument clearChatHistory setDocuments setEmbeddings
       setChatMessages getStore putStore randomUUID newDate record bind ret await throw].

(** ** Example data *)

(** A candidate of the examples: the chunk [i], with the vector [v]. *)
Definition candidate (i : nat) (v : list float) : Chunk float :=
  {| id := i; embedding := v; content := []; documentId := 0; metadata := None |}.

(** A world with one chat message and no document. *)
Definition lonelyMessage : World := {|
  store := {| documents := []; embeddings := [];
              chatMessages := [(0, {| msgId := 0; msgContent := str "hi"; role := user;
                                      sources := None; msgCreatedAt := 0 |})] |};
  uuids := 1; dates := 1; wallClock := fun n => Z.of_nat n; journal := []
|}.

(** Ten sentences of three thousand letters each: no two fit in a chunk
    of 6000.  The fourth is made of the letter b. *)
Definition tenSentences : jsstring :=
  concat (map (fun c => repeat c (30 * 100) ++ [46%Z])
              [97; 97; 97; 98; 97; 97; 97; 97; 97; 97]%Z).

(** A vectorizer that rejects the texts that start with b. *)
Definition rejectsB (chunk : jsstring) : result (list float) :=
  match chunk with
  | 98%Z :: _ => Throw "rejected"
  | _ => OK [0.5%float]
  end.

(** The world after the upload of a text file. *)
Definition uploaded : World := {|
  store := {| documents := [(0, {| docId := 0; filename := str "f"; originalName := str "ten.txt";
                                   mimeType := str "text/plain"; size := 30010;
                                   docContent := None; status := processing;
                                   uploadedAt := 0; processedAt := None |})];
              embeddings := [];
              chatMessages := [] |};
  uuids := 1; dates := 1; wallClock := fun n => Z.of_nat n; journal := []
|}.

(** A world with one completed document and one stored vector, of one
    component. *)
Definition shortVector : World := {|
  store := {| documents := [(0, {| docId := 0; filename := str "f"; originalName := str "a.txt";
                                   mimeType := str "text/plain"; size := 2;
                                   docContent := Some (str "Hi"); status := completed;
                                   uploadedAt := 0; processedAt := Some 1%Z |})];
              embeddings := [(1, {| embId := 1; embDocumentId := 0; embContent := str "Hi.";
                                    embVector := [0.5%float]; embMetadata := None;
                                    embOriginalIndex := None; embCreatedAt := 1 |})];
              chatMessages := [] |};
  uuids := 2; dates := 3; wallClock := fun n => Z.of_nat n; journal := []
|}.

(** The vectorizer of the repository, which does not reject. *)
Definition vectorize (text : jsstring) : result (list float) :=
  OK (Vectorizer.generateEmbedding text).

(** ** Vocabulary of the further properties *)

(** A number of [0, 1], or NaN. *)
Definition unitOrNaN (r : float) : Prop :=
  PrimFloat.is_nan r = true
  \/ (PrimFloat.leb 0%float r = true /\ PrimFloat.leb r 1%float = true).

(** The number of elements [xs.slice(0, k)] keeps of [n]. *)
Definition sliceCount (n : nat) (k : Z) : nat :=
  if (k <? 0)%Z then n - Z.to_nat (- k) else Nat.min (Z.to_nat k) n.

(** A sentence as the chunker buffers it, and the chunk a group of
    consecutive sentences makes. *)
Definition withStop (sentence : jsstring) : jsstring := sentence ++ str ". ".

Definition chunkOf (group : list jsstring) : jsstring :=
  trim (concat (map withStop group)).

(** What a stored embedding holds besides its UUID and its date, and the
    same of a record to insert. *)
Definition payload (e : Embedding) : nat * jsstring * list float * option Metadata * option nat :=
  (embDocumentId e, embContent e, embVector e, embMetadata e, embOriginalIndex e).

Definition payloadOf (ins : InsertEmbedding)
  : nat * jsstring * list float * option Metadata * option nat :=
  (newDocumentId ins, newContent ins, newEmbedding ins, newMetadata ins, newOriginalIndex ins).

(** The keys of a [Map] are distinct. *)
Definition distinctKeys {V} (m : list (nat * V)) : Prop := NoDup (map fst m).

(** The document stored under an id. *)
Definition documentAt (id : nat) (w : World) : option Document :=
  mapGet id (documents (store w)).

(** A world with two documents and three stored vectors. *)
Definition twoDocuments : World := {|
  store := {| documents := [(0, {| docId := 0; filename := str "a"; originalName := str "a.txt";
                                   mimeType := str "text/plain"; size := 2;
                                   docContent := Some (str "Hi"); status := completed;
                                   uploadedAt := 5; processedAt := Some 6%Z |});
                            (1, {| docId := 1; filename := str "b"; originalName := str "b.txt";
                                   mimeType := str "text/plain"; size := 2;
                                   docContent := None; status := processing;
                                   uploadedAt := 7; processedAt := None |})];
              embeddings := [(2, {| embId := 2; embDocumentId := 0; embContent := str "Hi.";
                                    embVector := [0.5%float]; embMetadata := None;
                                    embOriginalIndex := None; embCreatedAt := 6 |});
                             (3, {| embId := 3; embDocumentId := 1; embContent := str "Yo.";
                                    embVector := [0.5%float]; embMetadata := None;
                                    embOriginalIndex := None; embCreatedAt := 8 |});
                             (4, {| embId := 4; embDocumentId := 0; embContent := str "Ho.";
                                    embVector := [0.25%float]; embMetadata := None;
                                    embOriginalIndex := None; embCreatedAt := 9 |})];
              chatMessages := [] |};
  uuids := 5; dates := 10; wallClock := fun n => Z.of_nat n; journal := []
|}.

(** The chunks with their indexes, counted from [start]. *)
Definition indexed (start : nat) (chunks : list jsstring) : list (nat * jsstring) :=
  combine (seq start (length chunks)) chunks.

(** The records the file pipeline makes of the chunks the vectorizer
    accepts, in the order of the chunks. *)
Definition acceptedRecords (generateEmbedding : jsstring -> result (list float))
  (documentId : nat) (chunks : list jsstring) : list InsertEmbedding :=
  nonNull (map (embedChunk generateEmbedding documentId (length chunks)) (indexed 0 chunks)).

(** The records the URL pipeline makes of the chunks the vectorizer
    accepts, in the order of the chunks. *)
Definition urlRecords (generateEmbedding : jsstring -> result (list float))
  (documentId totalChunks : nat) (url : jsstring) (batch : list (nat * jsstring))
  : list InsertEmbedding :=
  flat_map (fun ic =>
              match generateEmbedding (snd ic) with
              | OK embedding =>
                  [ {| newDocumentId := documentId;
                       newContent := snd ic;
                       newEmbedding := embedding;
                       newMetadata := Some {| chunkIndex := fst ic; totalChunks := totalChunks;
                                              source := Some (str "url");
                                              originalUrl := Some url |};
                       newOriginalIndex := None |} ]
              | Throw _ => []
              end) batch.

(** An extractor and a fetcher that reject. *)
Definition unreadable (filePath mimeType originalName : jsstring) : result jsstring :=
  Throw "Failed to extract text".

Definition unreachable (url : jsstring) : result jsstring :=
  Throw "Failed to fetch".

(** The chunks the chat handler answers from, given the ranking
    [ranked] of the stored chunks [data]: the first three of the ranking
    when the question refers to the conversation or asks for a translation,
    and the keyword matches added when it names a keyword and asks for no
    translation. *)
Definition chosenChunks (toLowerCase : jsstring -> jsstring) (content : jsstring)
  (data : list (Chunk float)) (ranked : list (Match float)) : list (Match float) :=
  let queryLower := toLowerCase content in
  let mentionsKeyword := existsb (fun name => includes queryLower name) allKeywords in
  let isTranslationRequest :=
    existsb (fun keyword => includes queryLower keyword) translationKeywords in
  let needsContext :=
    existsb (fun keyword => includes queryLower keyword) contextKeywords
    || isTranslationRequest in
  let similarChunks := if needsContext then firstn 3 ranked else ranked in
  if mentionsKeyword && negb isTranslationRequest
  then withKeywordMatches toLowerCase queryLower data similarChunks
  else similarChunks.

(** The assistant message the chat handler stores in answer to a request
    received in [w], from the chunks [chosen] and the sources [srcs]. *)
Definition answerOf (chosen : list (Match float)) (srcs : list Source) (w : World)
  : ChatMessage :=
  {| msgId := S (uuids w);
     msgContent := generateChatResponse (map (@matchContent float) chosen);
     role := assistant;
     sources := if (0 <? length srcs)%nat then Some srcs else None;
     msgCreatedAt := wallClock w (S (dates w)) |}.

(** A source names a document of the store. *)
Definition namesDocument (w : World) (s : Source) : Prop :=
  exists id d, documentAt id w = Some d /\ sourceId s = docId d /\ sourceName s = originalName d.

(** A world with one document and two chat messages, the later one stored
    first. *)
Definition conversation : World := {|
  store := {| documents := documents (store shortVector);
              embeddings := embeddings (store shortVector);
              chatMessages := [(2, {| msgId := 2; msgContent := str "Hello."; role := assistant;
                                      sources := None; msgCreatedAt := 9 |});
                               (3, {| msgId := 3; msgContent := str "hi"; role := user;
                                      sources := None; msgCreatedAt := 4 |})] |};
  uuids := 4; dates := 10; wallClock := fun n => Z.of_nat n; journal := []
|}.

(** A parser of the examples: the URLs that start with https:// parse,
    all with the host a.example. *)
Definition httpsOnly (url : jsstring) : option jsstring :=
  if startsWith (str "https://") url then Some (str "a.example") else None.


(* ================================================================== *)
(** * Properties of the vectorizer                                      *)
(* ================================================================== *)

Lemma generateEmbedding_length (text : jsstring) :
  length (generateEmbedding text) = 1536.
Proof.
  unfold generateEmbedding. rewrite length_map, length_seq. reflexivity.
Qed.

Lemma thousandthsInBall_true : thousandthsInBall = true.
Proof. vm_compute. reflexivity. Qed.

Lemma thousandth_in_ball (k : Z) :
  (0 <= k < 1000)%Z ->
  inOpenUnitBall (PrimFloat.div (ofNonNeg k) 1000%float) /\
  inOpenUnitBall (PrimFloat.div (PrimFloat.opp (ofNonNeg k)) 1000%float).
Proof.
  intros Hk.
  pose proof thousandthsInBall_true as H. unfold thousandthsInBall in H.
  rewrite forallb_forall in H.
  specialize (H (Z.to_nat k)).
  rewrite Z2Nat.id in H by lia.
  assert (Hin : In (Z.to_nat k) (seq 0 1000)) by (apply in_seq; lia).
  apply H in Hin. cbv zeta in Hin.
  repeat rewrite andb_true_iff in Hin.
  unfold inOpenUnitBall. tauto.
Qed.

Lemma remainder_in_ball (hash : Z) :
  inOpenUnitBall (PrimFloat.div (remainder hash) 1000%float).
Proof.
  unfold remainder.
  pose proof (Z.rem_bound_pos hash 1000) as Hpos.
  destruct (hash <? 0)%Z eqn:E.
  - apply Z.ltb_lt in E. apply thousandth_in_ball.
    pose proof (Z.rem_opp_l hash 1000 ltac:(lia)) as Ho.
    pose proof (Z.rem_bound_pos (- hash) 1000 ltac:(lia) ltac:(lia)). lia.
  - apply Z.ltb_ge in E. apply thousandth_in_ball. apply Hpos; lia.
Qed.

(** C4, as the specification states it, fails: the hash of the text
    ["hello world0"] wraps to a negative 32-bit integer, and [%] keeps its
    sign, so the first component of the vector is -188 / 1000. *)
Lemma generateEmbedding_component_below_zero :
  nth 0 (generateEmbedding (str "hello world")) 0%float
  = PrimFloat.div (-188)%float 1000%float /\
  ~ (forall text, length (generateEmbedding text) = 1536
                  /\ Forall inUnitInterval (generateEmbedding text)).
Proof.
  split.
  - vm_compute. reflexivity.
  - intros H. destruct (H (str "hello world")) as [_ HF].
    rewrite Forall_forall in HF.
    assert (Hin : In (PrimFloat.div (-188)%float 1000%float)
                     (generateEmbedding (str "hello world"))).
    { unfold generateEmbedding, dimension. apply in_map_iff. exists 0. split.
      - vm_compute. reflexivity.
      - apply in_seq. lia. }
    apply HF in Hin. destruct Hin as [Hle _]. vm_compute in Hle. discriminate.
Qed.

(** C4 (amended): for every text, the empty string included,
    [generateEmbedding] returns a vector of exactly 1536 components, every
    one of them strictly between -1 and 1; for the empty string they all
    lie in [0, 1). *)
Theorem generateEmbedding_dimension_and_range :
  (forall text,
      length (generateEmbedding text) = 1536
      /\ Forall inOpenUnitBall (generateEmbedding text))
  /\ Forall inUnitInterval (generateEmbedding []).
Proof.
  split.
  - intros text. split.
    + apply generateEmbedding_length.
    + unfold generateEmbedding. apply Forall_forall. intros c Hc.
      apply in_map_iff in Hc. destruct Hc as [i [<- _]].
      unfold component. apply remainder_in_ball.
  - assert (H : forallb (fun c => PrimFloat.leb 0%float c && PrimFloat.ltb c 1%float)
                        (generateEmbedding []) = true) by (vm_compute; reflexivity).
    rewrite forallb_forall in H. apply Forall_forall. intros c Hc.
    apply H in Hc. apply andb_true_iff in Hc. exact Hc.
Qed.

(* ================================================================== *)
(** * Properties of the similarity                                      *)
(* ================================================================== *)

Section CosineGeneric.
Context {num : Type} (A : Arith num).

(** The loop keeps its three sums apart. *)
Lemma accumulate_fold (a b : list num) :
  length a = length b ->
  forall d ma mb,
    fold_left (accumulate A) (combine a b) (d, ma, mb)
    = (fold_left (fun acc ab => add A acc (mul A (fst ab) (snd ab))) (combine a b) d,
       fold_left (fun acc x => add A acc (mul A x x)) a ma,
       fold_left (fun acc x => add A acc (mul A x x)) b mb).
Proof.
  revert b. induction a as [|x a IH]; intros [|y b] Hlen d ma mb;
    simpl in *; try discriminate; try reflexivity.
  apply IH. congruence.
Qed.

Lemma cosineSimilarity_spec (a b : list num) :
  length a = length b ->
  cosineSimilarity A a b = OK (clampedCosine A a b).
Proof.
  intros Hlen. unfold cosineSimilarity.
  rewrite Hlen, Nat.eqb_refl. simpl negb. cbv iota.
  rewrite (accumulate_fold a b Hlen).
  unfold clampedCosine, clamp, cosine, dot, norm.
  destruct (isZero A _ || isZero A _); reflexivity.
Qed.

Lemma cosineSimilarity_mismatch (a b : list num) :
  length a <> length b ->
  cosineSimilarity A a b = Throw "Vector dimensionality mismatch".
Proof.
  intros Hlen. unfold cosineSimilarity.
  apply Nat.eqb_neq in Hlen. rewrite Hlen. reflexivity.
Qed.

End CosineGeneric.

(** Sums of squares and of products over the reals. *)
Lemma sumsq_fold_ge (v : list R) (a : R) :
  (a <= fold_left (fun acc x => acc + x * x) v a)%R.
Proof.
  revert a. induction v as [|x v IH]; intros a; simpl.
  - lra.
  - specialize (IH (a + x * x)%R). pose proof (Rle_0_sqr x) as Hx.
    unfold Rsqr in Hx. lra.
Qed.

Lemma dot_self_fold (v : list R) (a : R) :
  fold_left (fun acc ab => acc + fst ab * snd ab)%R (combine v v) a
  = fold_left (fun acc x => acc + x * x)%R v a.
Proof.
  revert a. induction v as [|x v IH]; intros a; simpl; [reflexivity | apply IH].
Qed.

Lemma clamp_exact_bounds (x : R) : (0 <= clamp exact x <= 1)%R.
Proof.
  unfold clamp; simpl. unfold Rmax, Rmin.
  destruct (Rle_dec 1 x); destruct (Rle_dec 0 _); lra.
Qed.

Lemma clampedCosine_exact_bounds (a b : list R) : (0 <= clampedCosine exact a b <= 1)%R.
Proof.
  unfold clampedCosine.
  destruct (isZero exact _ || isZero exact _).
  - simpl. lra.
  - apply clamp_exact_bounds.
Qed.

Lemma clampedCosine_exact_self (v : list R) :
  norm exact v <> 0%R -> clampedCosine exact v v = 1%R.
Proof.
  intros Hn. unfold clampedCosine.
  assert (Hz : isZero exact (norm exact v) = false).
  { unfold exact at 1. cbn [isZero].
    destruct (Req_EM_T (norm exact v) 0); [contradiction | reflexivity]. }
  rewrite Hz. simpl orb. cbv iota.
  unfold clamp, cosine, dot, norm in *. simpl in *.
  rewrite dot_self_fold.
  set (m := fold_left (fun acc x => acc + x * x)%R v 0%R) in *.
  assert (Hm : (0 <= m)%R) by apply sumsq_fold_ge.
  rewrite sqrt_sqrt by exact Hm.
  assert (Hm0 : m <> 0%R).
  { intros E. apply Hn. rewrite E. apply sqrt_0. }
  replace (m / m)%R with 1%R by (field; exact Hm0).
  unfold Rmin, Rmax.
  destruct (Rle_dec 1 1); destruct (Rle_dec 0 _); lra.
Qed.

(** C5, as the specification states it, fails on the arithmetic the code
    runs: for v = [1, 1] both norms are sqrt(2), whose product rounds to
    2.0000000000000004, and 2 divided by it is 0.9999999999999998, which the
    clamp leaves as it is. *)
Lemma cosineSimilarity_self_below_one :
  (exists s, cosineSimilarity binary64 [1; 1]%float [1; 1]%float = OK s
             /\ PrimFloat.ltb s 1%float = true)
  /\ ~ (forall v : list float,
          (exists c, In c v /\ PrimFloat.eqb c 0%float = false) ->
          cosineSimilarity binary64 v v = OK 1%float).
Proof.
  split.
  - eexists. split; vm_compute; reflexivity.
  - intros H.
    assert (Hv : exists c, In c [1; 1]%float /\ PrimFloat.eqb c 0%float = false).
    { exists 1%float. split; [left; reflexivity | vm_compute; reflexivity]. }
    apply H in Hv.
    assert (E : match cosineSimilarity binary64 [1; 1]%float [1; 1]%float with
                | OK s => PrimFloat.eqb s 1%float
                | Throw _ => false
                end = true) by (rewrite Hv; vm_compute; reflexivity).
    vm_compute in E. discriminate.
Qed.

(** C5 (amended): for all equal-length vectors a and b, in binary64 as in
    exact arithmetic, [cosineSimilarity] returns the dot product divided by
    the product of the Euclidean norms, clamped by max(0, min(1, .)), and 0
    whenever either norm is zero; read over the real numbers this value lies
    in [0, 1] and the similarity of a vector of nonzero norm with itself is
    exactly 1. *)
Theorem cosineSimilarity_clamped_cosine :
  (forall (num : Type) (A : Arith num) (a b : list num),
      length a = length b ->
      cosineSimilarity A a b = OK (clampedCosine A a b)
      /\ (isZero A (norm A a) = true \/ isZero A (norm A b) = true ->
          cosineSimilarity A a b = OK (zero A))
      /\ (isZero A (norm A a) = false -> isZero A (norm A b) = false ->
          cosineSimilarity A a b = OK (clamp A (cosine A a b))))
  /\ (forall a b : list R, (0 <= clampedCosine exact a b <= 1)%R)
  /\ (forall v : list R,
         norm exact v <> 0%R -> cosineSimilarity exact v v = OK 1%R).
Proof.
  split; [| split].
  - intros num A a b Hlen. rewrite (cosineSimilarity_spec A a b Hlen).
    unfold clampedCosine. split; [reflexivity | split].
    + intros [H|H]; rewrite H; [reflexivity | rewrite orb_true_r; reflexivity].
    + intros Ha Hb. rewrite Ha, Hb. reflexivity.
  - apply clampedCosine_exact_bounds.
  - intros v Hn. rewrite cosineSimilarity_spec by reflexivity.
    rewrite clampedCosine_exact_self by exact Hn. reflexivity.
Qed.

Lemma norm_exact_one : norm exact [1%R] <> 0%R.
Proof.
  unfold norm; simpl.
  replace (0 + 1 * 1)%R with 1%R by ring. rewrite sqrt_1. lra.
Qed.

Lemma cosineSimilarity_clamped_cosine_witness :
  cosineSimilarity binary64 [3; 4]%float [4; 3]%float
  = OK (clamp binary64 (cosine binary64 [3; 4]%float [4; 3]%float))
  /\ cosineSimilarity binary64 [0; 0]%float [1; 2]%float = OK 0%float
  /\ cosineSimilarity exact [1%R] [1%R] = OK 1%R.
Proof.
  split; [|split].
  - apply (proj1 cosineSimilarity_clamped_cosine float binary64); reflexivity.
  - apply (proj1 cosineSimilarity_clamped_cosine float binary64); [reflexivity|].
    left. reflexivity.
  - apply (proj2 (proj2 cosineSimilarity_clamped_cosine)). exact norm_exact_one.
Defined.

(* ================================================================== *)
(** * Properties of the ranking                                         *)
(* ================================================================== *)


Section ScoreAll.
Context {num : Type} (A : Arith num).

Lemma scoreAll_matching (query : list num) (chunks : list (Chunk num)) :
  Forall (fun c => length (embedding c) = length query) chunks ->
  scoreAll A query chunks
  = OK (map (fun c => {| chunk := c; similarity := scoreOf A query c |}) chunks).
Proof.
  induction 1 as [|c chunks Hc _ IH]; simpl.
  - reflexivity.
  - unfold scoreOf. rewrite (cosineSimilarity_spec A) by (symmetry; exact Hc).
    rewrite IH. reflexivity.
Qed.

Lemma scoreAll_mismatch (query : list num) (chunks : list (Chunk num)) :
  Exists (fun c => length (embedding c) <> length query) chunks ->
  scoreAll A query chunks = Throw "Vector dimensionality mismatch".
Proof.
  induction chunks as [|c chunks IH]; intros Hex.
  - inversion Hex.
  - simpl. destruct (Nat.eq_dec (length query) (length (embedding c))) as [E|E].
    + rewrite (cosineSimilarity_spec A) by exact E.
      rewrite IH; [reflexivity|].
      inversion Hex; subst; [congruence | assumption].
    + rewrite (cosineSimilarity_mismatch A) by exact E. reflexivity.
Qed.
End ScoreAll.

(** The stable insertion sort, for a comparator that is consistent on the
    elements at hand. *)
Section SortFacts.
Context {X : Type} (after : X -> X -> bool).

Lemma consistentAfter_incl (l l' : list X) :
  incl l' l -> consistentAfter after l -> consistentAfter after l'.
Proof. intros Hi Hc x y z Hx Hy Hz. apply Hc; apply Hi; assumption. Qed.

Lemma insert_In (a : X) (l : list X) (x : X) :
  In x (insert after a l) <-> x = a \/ In x l.
Proof.
  induction l as [|y l IH]; simpl.
  - intuition.
  - destruct (after a y); simpl; rewrite ?IH; intuition.
Qed.

Lemma sort_In (l : list X) (x : X) : In x (sort after l) <-> In x l.
Proof.
  induction l as [|a l IH]; simpl.
  - tauto.
  - rewrite insert_In, IH. intuition.
Qed.

Lemma sort_length (l : list X) : length (sort after l) = length l.
Proof.
  induction l as [|a l IH]; simpl; [reflexivity|].
  rewrite <- IH. generalize (sort after l). intros s.
  induction s as [|y s IHs]; simpl; [reflexivity|].
  destruct (after a y); simpl; [rewrite IHs|]; reflexivity.
Qed.

Lemma insert_sorted (a : X) (l : list X) :
  consistentAfter after (a :: l) ->
  StronglySorted (keeps after) l -> StronglySorted (keeps after) (insert after a l).
Proof.
  intros Hc Hs. induction Hs as [|y l Hs IH Hy]; simpl.
  - constructor; constructor.
  - destruct (after a y) eqn:E.
    + constructor.
      * apply IH. eapply consistentAfter_incl; [|exact Hc].
        intros x [<-|Hx]; simpl; auto.
      * apply Forall_forall. intros z Hz. apply insert_In in Hz.
        destruct Hz as [->|Hz].
        -- apply (Hc a y y); simpl; auto.
        -- rewrite Forall_forall in Hy. apply Hy. exact Hz.
    + constructor.
      * constructor; assumption.
      * constructor; [exact E|].
        apply Forall_forall. intros z Hz. unfold keeps.
        destruct (after a z) eqn:Ez; [|reflexivity].
        destruct (Hc a y z) as [_ Hn]; simpl; auto.
        destruct (Hn Ez) as [H|H]; [congruence|].
        rewrite Forall_forall in Hy. rewrite (Hy z Hz) in H. discriminate.
Qed.

Lemma sort_sorted (l : list X) :
  consistentAfter after l -> StronglySorted (keeps after) (sort after l).
Proof.
  induction l as [|a l IH]; intros Hc; simpl.
  - constructor.
  - apply insert_sorted.
    + eapply consistentAfter_incl; [|exact Hc].
      intros x [<-|Hx]; simpl; auto. right. apply sort_In. exact Hx.
    + apply IH. eapply consistentAfter_incl; [|exact Hc].
      intros x Hx; simpl; auto.
Qed.

Lemma insert_level (s a : X) (l : list X) :
  consistentAfter after (s :: a :: l) ->
  filter (level after s) (insert after a l) = filter (level after s) (a :: l).
Proof.
  intros Hc. induction l as [|y l IH]; [reflexivity|].
  simpl insert. destruct (after a y) eqn:E; [|reflexivity].
  assert (IH' : filter (level after s) (insert after a l) = filter (level after s) (a :: l)).
  { apply IH. eapply consistentAfter_incl; [|exact Hc].
    intros x [<-|[<-|Hx]]; simpl; auto. }
  simpl filter at 1. rewrite IH'. simpl.
  destruct (level after s y) eqn:Ly; destruct (level after s a) eqn:La; try reflexivity.
  exfalso. unfold level in Ly, La.
  apply andb_true_iff in Ly, La. rewrite !negb_true_iff in Ly, La.
  destruct (Hc a s y) as [_ Hn]; simpl; auto.
  destruct (Hn E) as [H|H]; intuition congruence.
Qed.

Lemma sort_level (s : X) (l : list X) :
  consistentAfter after (s :: l) ->
  filter (level after s) (sort after l) = filter (level after s) l.
Proof.
  induction l as [|a l IH]; intros Hc; [reflexivity|].
  simpl sort. rewrite insert_level.
  - simpl. rewrite IH; [reflexivity|].
    eapply consistentAfter_incl; [|exact Hc].
    intros x [<-|Hx]; simpl; auto.
  - eapply consistentAfter_incl; [|exact Hc].
    intros x [<-|[<-|Hx]]; simpl; auto. right. right. apply sort_In. exact Hx.
Qed.
End SortFacts.

Lemma filter_firstn {X} (p : X -> bool) (n : nat) (l : list X) :
  exists m, filter p (firstn n l) = firstn m (filter p l).
Proof.
  revert n. induction l as [|x l IH]; intros [|n]; simpl.
  - exists 0. reflexivity.
  - exists 0. reflexivity.
  - exists 0. reflexivity.
  - destruct (IH n) as [m Hm]. destruct (p x).
    + exists (S m). simpl. rewrite Hm. reflexivity.
    + exists m. exact Hm.
Qed.

Lemma StronglySorted_firstn {X} (R : X -> X -> Prop) (n : nat) (l : list X) :
  StronglySorted R l -> StronglySorted R (firstn n l).
Proof.
  intros Hs. revert n. induction Hs as [|x l Hs IH Hx]; intros [|n]; simpl;
    try constructor.
  - apply IH.
  - rewrite Forall_forall in *. intros y Hy. apply Hx.
    rewrite <- (firstn_skipn n l). apply in_or_app. left. exact Hy.
Qed.

Lemma StronglySorted_map {X Y} (f : X -> Y) (R : Y -> Y -> Prop) (l : list X) :
  StronglySorted (fun x y => R (f x) (f y)) l -> StronglySorted R (map f l).
Proof.
  induction 1 as [|x l Hs IH Hx]; simpl; constructor; [exact IH|].
  rewrite Forall_forall in *. intros y Hy. apply in_map_iff in Hy.
  destruct Hy as [x' [<- Hx']]. apply Hx. exact Hx'.
Qed.

Section Ranking.
Context {num : Type} (A : Arith num).

Lemma consistent_scores (query : list num) (chunks : list (Chunk num)) :
  consistentOn A (map (scoreOf A query) chunks) ->
  consistentAfter (comesAfter A) (map (scored A query) chunks).
Proof.
  intros Hc x y z Hx Hy Hz.
  apply in_map_iff in Hx, Hy, Hz.
  destruct Hx as [cx [<- Hx]], Hy as [cy [<- Hy]], Hz as [cz [<- Hz]].
  unfold comesAfter; simpl.
  assert (Ix : In (scoreOf A query cx) (map (scoreOf A query) chunks))
    by (apply in_map; exact Hx).
  assert (Iy : In (scoreOf A query cy) (map (scoreOf A query) chunks))
    by (apply in_map; exact Hy).
  assert (Iz : In (scoreOf A query cz) (map (scoreOf A query) chunks))
    by (apply in_map; exact Hz).
  split.
  - apply (Hc _ _ _ Iy Ix Ix).
  - intros H. destruct (Hc _ _ _ Iz Iy Ix) as [_ Hn].
    destruct (Hn H); auto.
Qed.

Lemma findSimilarChunks_matching (query : list num) (chunks : list (Chunk num)) (k : Z) :
  Forall (fun c => length (embedding c) = length query) chunks ->
  findSimilarChunks A query chunks k
  = OK (map (@dropEmbedding num)
            (slice0 (sort (comesAfter A) (map (scored A query) chunks)) k)).
Proof.
  intros H. unfold findSimilarChunks. rewrite (scoreAll_matching A query H). reflexivity.
Qed.

Lemma findSimilarChunks_mismatch (query : list num) (chunks : list (Chunk num)) (k : Z) :
  Exists (fun c => length (embedding c) <> length query) chunks ->
  findSimilarChunks A query chunks k = Throw "Vector dimensionality mismatch".
Proof.
  intros H. unfold findSimilarChunks. rewrite (scoreAll_mismatch A query H). reflexivity.
Qed.
End Ranking.

Lemma consistentOnb_sound {num} (A : Arith num) (l : list num) :
  consistentOnb A l = true -> consistentOn A l.
Proof.
  unfold consistentOnb, consistentOn. intros H x y z Hx Hy Hz.
  rewrite forallb_forall in H. specialize (H x Hx).
  rewrite forallb_forall in H. specialize (H y Hy).
  rewrite forallb_forall in H. specialize (H z Hz).
  apply andb_true_iff in H. destruct H as [H1 H2].
  split.
  - intros E. rewrite E in H1. simpl in H1. apply negb_true_iff in H1. exact H1.
  - intros E. rewrite E in H2. simpl in H2. apply orb_true_iff in H2. exact H2.
Qed.

(** C2, as the specification states it, fails: with the query [1] and the
    candidates [1, 2] and [1], the comparison with the first candidate throws
    inside the map, and the call returns no ranking at all: the candidate [1]
    is not ranked either. *)
Lemma findSimilarChunks_aborts_on_mismatch :
  findSimilarChunks binary64 [1%float]
    [candidate 0 [1; 2]%float; candidate 1 [1%float]] 5
  = Throw "Vector dimensionality mismatch"
  /\ ~ (forall query chunks k, exists results,
          findSimilarChunks binary64 query chunks k = OK results).
Proof.
  split.
  - vm_compute. reflexivity.
  - intros H.
    destruct (H [1%float] [candidate 0 [1; 2]%float; candidate 1 [1%float]] 5%Z)
      as [results Hr].
    vm_compute in Hr. discriminate.
Qed.

(** C2 (amended): when the similarity ranker compares the query vector
    against a candidate set, a candidate vector whose length differs from the
    query vector's length makes the whole ranking call fail with "Vector
    dimensionality mismatch": no candidate is ranked and no result is
    returned. *)
Theorem findSimilarChunks_mismatch_fatal :
  forall (num : Type) (A : Arith num) (query : list num) (chunks : list (Chunk num)) (k : Z),
    Exists (fun c => length (embedding c) <> length query) chunks ->
    findSimilarChunks A query chunks k = Throw "Vector dimensionality mismatch".
Proof.
  intros num A query chunks k H. apply findSimilarChunks_mismatch. exact H.
Qed.

Lemma findSimilarChunks_mismatch_fatal_witness :
  findSimilarChunks binary64 [1%float]
    [candidate 0 [1%float]; candidate 1 [1; 2]%float; candidate 2 [1%float]] 5
  = Throw "Vector dimensionality mismatch".
Proof.
  apply (@findSimilarChunks_mismatch_fatal float binary64).
  apply Exists_cons_tl. apply Exists_cons_hd. simpl. lia.
Defined.

(** C8, as the specification states it, fails: "for every query vector,
    candidate list, and k" includes a negative k, for which [slice(0, k)]
    counts from the end, and candidates of another length than the query's,
    on which the call throws.  With k = -2 and four candidates of the query's
    length the ranking returns two results, which is not "at most k"; with a
    candidate of two components and a query of one it returns none at all. *)
Lemma findSimilarChunks_negative_k_and_mismatch :
  (exists results,
      findSimilarChunks binary64 [0; 1]%float
        [candidate 0 [1; 0]%float; candidate 1 [0; 1]%float;
         candidate 2 [1; 1]%float; candidate 3 [0; 2]%float] (-2)
      = OK results
      /\ map (@matchId float) results = [1; 3]
      /\ ~ (Z.of_nat (length results) <= -2)%Z)
  /\ findSimilarChunks binary64 [1%float]
       [candidate 0 [1%float]; candidate 1 [2; 3]%float] 1
     = Throw "Vector dimensionality mismatch"
  /\ ~ (forall query chunks k,
          exists results,
            findSimilarChunks binary64 query chunks k = OK results
            /\ (Z.of_nat (length results) <= k)%Z).
Proof.
  split; [|split].
  - eexists. split; [vm_compute; reflexivity|]. split; [reflexivity|]. cbn. lia.
  - vm_compute. reflexivity.
  - intros H.
    destruct (H [0; 1]%float
                [candidate 0 [1; 0]%float; candidate 1 [0; 1]%float;
                 candidate 2 [1; 1]%float; candidate 3 [0; 2]%float] (-2)%Z)
      as [results [E Hk]].
    vm_compute in E. inversion E; subst results. cbn in Hk. lia.
Qed.

(** C8 (amended): for every query vector, every candidate list of vectors
    of the query's length, and every k >= 0, when the comparator is
    consistent on the similarities (no NaN among them), the ranking returns
    at most k results, no result is outranked by a later one (non-increasing
    similarity), and the results that tie with a candidate's similarity are
    an initial segment of the candidates that tie with it, in candidate-list
    order (stable tie-break). *)
Theorem findSimilarChunks_top_k_sorted_stable :
  forall (num : Type) (A : Arith num) (query : list num) (chunks : list (Chunk num)) (k : Z),
    (0 <= k)%Z ->
    Forall (fun c => length (embedding c) = length query) chunks ->
    consistentOn A (map (scoreOf A query) chunks) ->
    exists results,
      findSimilarChunks A query chunks k = OK results
      /\ (Z.of_nat (length results) <= k)%Z
      /\ StronglySorted
           (fun earlier later =>
              outranks A (matchSimilarity later) (matchSimilarity earlier) = false)
           results
      /\ forall c, In c chunks ->
           exists n,
             filter (fun m => tied A (scoreOf A query c) (matchSimilarity m)) results
             = firstn n (filter (fun m => tied A (scoreOf A query c) (matchSimilarity m))
                                (map (matchOf A query) chunks)).
Proof.
  intros num A query chunks k Hk Hlen Hcons.
  pose proof (@consistent_scores num A query chunks Hcons) as Hafter.
  eexists. split; [apply findSimilarChunks_matching; exact Hlen|].
  unfold slice0. replace (k <? 0)%Z with false by (symmetry; apply Z.ltb_ge; exact Hk).
  split; [|split].
  - rewrite length_map, length_firstn. lia.
  - apply StronglySorted_map. apply StronglySorted_firstn.
    apply sort_sorted. exact Hafter.
  - intros c Hc.
    set (p := fun m : Match num => tied A (scoreOf A query c) (matchSimilarity m)).
    set (q := level (comesAfter A) (scored A query c)).
    assert (Hpq : forall x, p (dropEmbedding x) = q x).
    { intros x. unfold p, q, level, tied, comesAfter; simpl. apply andb_comm. }
    assert (Hfm : forall l, filter p (map (@dropEmbedding num) l)
                            = map (@dropEmbedding num) (filter q l)).
    { induction l as [|x l IH]; simpl; [reflexivity|].
      rewrite Hpq. destruct (q x); simpl; rewrite IH; reflexivity. }
    destruct (filter_firstn q (Z.to_nat k)
                (sort (comesAfter A) (map (scored A query) chunks))) as [n Hn].
    exists n. rewrite Hfm, Hn.
    unfold q. rewrite sort_level.
    + replace (map (matchOf A query) chunks)
        with (map (@dropEmbedding num) (map (scored A query) chunks))
        by (rewrite map_map; reflexivity).
      rewrite Hfm. symmetry. apply firstn_map.
    + eapply consistentAfter_incl; [|exact Hafter].
      intros x [<-|Hx]; [apply in_map; exact Hc | exact Hx].
Qed.

Lemma findSimilarChunks_top_k_sorted_stable_witness :
  exists results,
    findSimilarChunks binary64 [1; 0]%float
      [candidate 0 [0; 1]%float; candidate 1 [1; 0]%float; candidate 2 [1; 0]%float] 2
    = OK results
    /\ (Z.of_nat (length results) <= 2)%Z
    /\ StronglySorted
         (fun earlier later =>
            outranks binary64 (matchSimilarity later) (matchSimilarity earlier) = false)
         results
    /\ forall c,
         In c [candidate 0 [0; 1]%float; candidate 1 [1; 0]%float; candidate 2 [1; 0]%float] ->
         exists n,
           filter (fun m => tied binary64 (scoreOf binary64 [1; 0]%float c) (matchSimilarity m))
                  results
           = firstn n
               (filter (fun m => tied binary64 (scoreOf binary64 [1; 0]%float c)
                                      (matchSimilarity m))
                       (map (matchOf binary64 [1; 0]%float)
                            [candidate 0 [0; 1]%float; candidate 1 [1; 0]%float;
                             candidate 2 [1; 0]%float])).
Proof.
  apply (@findSimilarChunks_top_k_sorted_stable float binary64).
  - lia.
  - repeat constructor.
  - apply consistentOnb_sound. vm_compute. reflexivity.
Defined.

(* ================================================================== *)
(** * Properties of the chunker                                         *)
(* ================================================================== *)

Lemma trimStart_length (s : jsstring) : length (trimStart s) <= length s.
Proof.
  induction s as [|c s IH]; simpl; [lia|].
  destruct (isWhite c); simpl; lia.
Qed.

Lemma trim_length (s : jsstring) : length (trim s) <= length s.
Proof.
  unfold trim, trimEnd. rewrite length_rev.
  pose proof (trimStart_length (rev (trimStart s))) as H1.
  rewrite length_rev in H1.
  pose proof (trimStart_length s). lia.
Qed.

Lemma len_trim (s : jsstring) : (len (trim s) <= len s)%Z.
Proof. unfold len. pose proof (trim_length s). lia. Qed.

Lemma len_app (s t : jsstring) : len (s ++ t) = (len s + len t)%Z.
Proof. unfold len. rewrite length_app. lia. Qed.

Section ChunkBound.
Variable sentences : list jsstring.
Variable maxChunkSize : Z.

Lemma bufferOk_trim (currentChunk : jsstring) :
  bufferOk sentences maxChunkSize currentChunk ->
  chunkOk sentences maxChunkSize (trim currentChunk).
Proof.
  intros [H|[s [Hin [-> Hs]]]].
  - left. pose proof (len_trim currentChunk). lia.
  - right. exists s. auto.
Qed.

Lemma bufferOk_fresh (sentence : jsstring) :
  In sentence sentences -> bufferOk sentences maxChunkSize (sentence ++ str ". ").
Proof.
  intros Hin. destruct (Z_le_gt_dec (len (sentence ++ str ". ")) maxChunkSize) as [H|H].
  - left. exact H.
  - right. exists sentence. repeat split; auto.
    rewrite len_app in H. change (len (str ". ")) with 2%Z in H. lia.
Qed.

Lemma step_ok (chunks : list jsstring) (currentChunk sentence : jsstring) :
  In sentence sentences ->
  Forall (chunkOk sentences maxChunkSize) chunks ->
  bufferOk sentences maxChunkSize currentChunk ->
  Forall (chunkOk sentences maxChunkSize)
         (fst (step maxChunkSize (chunks, currentChunk) sentence))
  /\ bufferOk sentences maxChunkSize
              (snd (step maxChunkSize (chunks, currentChunk) sentence)).
Proof.
  intros Hin Hchunks Hcur. unfold step.
  destruct ((len (currentChunk ++ sentence ++ str ". ") >? maxChunkSize)%Z
            && (len currentChunk >? 0)%Z) eqn:E; simpl.
  - split.
    + apply Forall_app. split; [exact Hchunks|].
      constructor; [|constructor]. apply bufferOk_trim. exact Hcur.
    + apply bufferOk_fresh. exact Hin.
  - split; [exact Hchunks|].
    apply andb_false_iff in E. destruct E as [E|E].
    + left. rewrite Z.gtb_ltb in E. apply Z.ltb_ge in E. exact E.
    + rewrite Z.gtb_ltb in E. apply Z.ltb_ge in E.
      assert (currentChunk = []) as ->.
      { destruct currentChunk; [reflexivity|]. unfold len in E. simpl in E. lia. }
      simpl. apply bufferOk_fresh. exact Hin.
Qed.

Lemma loop_ok (l : list jsstring) :
  (forall s, In s l -> In s sentences) ->
  forall chunks currentChunk,
    Forall (chunkOk sentences maxChunkSize) chunks ->
    bufferOk sentences maxChunkSize currentChunk ->
    Forall (chunkOk sentences maxChunkSize)
           (fst (fold_left (step maxChunkSize) l (chunks, currentChunk)))
    /\ bufferOk sentences maxChunkSize
                (snd (fold_left (step maxChunkSize) l (chunks, currentChunk))).
Proof.
  induction l as [|s l IH]; intros Hl chunks cur Hc Hb; cbn [fold_left].
  - auto.
  - destruct (step maxChunkSize (chunks, cur) s) as [chunks' cur'] eqn:E.
    pose proof (@step_ok chunks cur s (Hl s (or_introl eq_refl)) Hc Hb) as [H1 H2].
    rewrite E in H1, H2. simpl in H1, H2.
    apply IH; auto. intros x Hx. apply Hl. right. exact Hx.
Qed.

Lemma collected_ok :
  (0 <= maxChunkSize)%Z -> Forall (chunkOk sentences maxChunkSize) (collected sentences maxChunkSize).
Proof.
  intros Hmax. unfold collected.
  set (r := fold_left (step maxChunkSize) sentences ([], [])).
  assert (Hr : Forall (chunkOk sentences maxChunkSize) (fst r)
               /\ bufferOk sentences maxChunkSize (snd r)).
  { apply loop_ok; [auto | constructor | left; exact Hmax]. }
  destruct r as [chunks cur]. destruct Hr as [H1 H2]. simpl in H1, H2.
  destruct (len (trim cur) >? 0)%Z; [|exact H1].
  apply Forall_app. split; [exact H1|].
  constructor; [|constructor]. apply bufferOk_trim. exact H2.
Qed.
End ChunkBound.

(** A sentence that is too long for the bound leaves the loop as a chunk
    of its own, whole. *)
Lemma trimStart_app_stop (s : jsstring) :
  trimStart s <> [] -> trimStart (s ++ str ". ") = trimStart s ++ str ". ".
Proof.
  induction s as [|c s IH]; cbn [trimStart app]; [congruence|].
  destruct (isWhite c); [exact IH | reflexivity].
Qed.

Lemma trim_sentence_stop (s : jsstring) :
  trimStart s <> [] -> trim (s ++ str ". ") = trimStart s ++ str ".".
Proof.
  intros H. unfold trim, trimEnd. rewrite (@trimStart_app_stop s H).
  change (str ". ") with ([46; 32]%Z). change (str ".") with ([46]%Z).
  rewrite rev_app_distr. cbn [rev app trimStart].
  change (isWhite 32) with true. change (isWhite 46) with false. cbv iota.
  change (46%Z :: rev (trimStart s)) with (rev [46%Z] ++ rev (trimStart s)).
  rewrite <- rev_app_distr, rev_involutive. reflexivity.
Qed.

Lemma nonblank_trimStart (s : jsstring) :
  (0 <? len (trim s))%Z = true -> trimStart s <> [].
Proof.
  intros H E. unfold trim, trimEnd in H. rewrite E in H. discriminate.
Qed.

Section LongSentence.
Variable maxChunkSize : Z.
Variable sentence : jsstring.
Hypothesis long : (len sentence + 2 > maxChunkSize)%Z.

Lemma loop_long (l : list jsstring) :
  forall chunks currentChunk,
    In (trim (sentence ++ str ". ")) chunks
    \/ currentChunk = sentence ++ str ". "
    \/ In sentence l ->
    In (trim (sentence ++ str ". "))
       (fst (fold_left (step maxChunkSize) l (chunks, currentChunk)))
    \/ snd (fold_left (step maxChunkSize) l (chunks, currentChunk)) = sentence ++ str ". ".
Proof.
  induction l as [|x l IH]; intros chunks cur H; cbn [fold_left].
  - destruct H as [H|[H|[]]]; [left | right]; exact H.
  - assert (Hs : In (trim (sentence ++ str ". ")) (fst (step maxChunkSize (chunks, cur) x))
                 \/ snd (step maxChunkSize (chunks, cur) x) = sentence ++ str ". "
                 \/ In sentence l).
    { unfold step.
      destruct ((len (cur ++ x ++ str ". ") >? maxChunkSize)%Z && (len cur >? 0)%Z) eqn:E;
        cbn [fst snd].
      - destruct H as [H|[H|[H|H]]].
        + left. apply in_or_app. left. exact H.
        + left. apply in_or_app. right. left. rewrite H. reflexivity.
        + right. left. rewrite H. reflexivity.
        + right. right. exact H.
      - destruct H as [H|[H|[H|H]]].
        + left. exact H.
        + exfalso. subst cur. apply andb_false_iff in E.
          rewrite !Z.gtb_ltb, !Z.ltb_ge, !len_app in E.
          change (len (str ". ")) with 2%Z in E. unfold len in *. lia.
        + right. left. subst x. apply andb_false_iff in E.
          rewrite !Z.gtb_ltb, !Z.ltb_ge, !len_app in E.
          change (len (str ". ")) with 2%Z in E.
          assert (cur = []) as ->.
          { destruct cur; [reflexivity|]. unfold len in *. cbn [length] in E. lia. }
          reflexivity.
        + right. right. exact H. }
    destruct (step maxChunkSize (chunks, cur) x) as [chunks' cur']. apply IH. exact Hs.
Qed.

Lemma collected_long (sentences : list jsstring) :
  In sentence sentences ->
  trimStart sentence <> [] ->
  In (trim (sentence ++ str ". ")) (collected sentences maxChunkSize).
Proof.
  intros Hin Hne. unfold collected.
  pose proof (@loop_long sentences [] [] (or_intror (or_intror Hin))) as H.
  destruct (fold_left (step maxChunkSize) sentences ([], [])) as [chunks cur].
  cbn [fst snd] in H. destruct H as [H|H].
  - destruct (len (trim cur) >? 0)%Z; [apply in_or_app; left|]; exact H.
  - subst cur. rewrite (@trim_sentence_stop sentence Hne).
    replace (len (trimStart sentence ++ str ".") >? 0)%Z with true.
    + apply in_or_app. right. left. reflexivity.
    + symmetry. rewrite Z.gtb_ltb. apply Z.ltb_lt. rewrite len_app.
      change (len (str ".")) with 1%Z. unfold len. lia.
Qed.
End LongSentence.

Lemma chunkText_long (text : jsstring) (maxSize : Z) (sentence : jsstring) :
  In sentence (sentencesOf text) ->
  (len sentence + 2 > maxSize)%Z ->
  In (trim (sentence ++ str ". ")) (chunkText text maxSize)
  /\ trim (sentence ++ str ". ") = trimStart sentence ++ str ".".
Proof.
  intros Hin Hlong.
  assert (Hne : trimStart sentence <> []).
  { apply nonblank_trimStart. unfold sentencesOf in Hin. apply filter_In in Hin. apply Hin. }
  split; [|apply trim_sentence_stop; exact Hne].
  pose proof (@collected_long maxSize sentence Hlong (sentencesOf text) Hin Hne) as H.
  unfold chunkText.
  destruct (collected (sentencesOf text) maxSize) as [|c l]; [destruct H | exact H].
Qed.

(** C6, as the specification states it, fails: the text ["abc"] is one
    sentence of three characters, which does not exceed maxSize = 3, and yet
    the only chunk is ["abc."], of four characters: the chunker appends
    [". "] to every sentence before it measures and before it emits. *)
Lemma chunkText_exceeds_without_long_sentence :
  chunkText (str "abc") 3 = [str "abc."]
  /\ (len (str "abc.") > 3)%Z
  /\ sentencesOf (str "abc") = [str "abc"]
  /\ ~ (forall text maxSize chunk,
          In chunk (chunkText text maxSize) ->
          (len chunk <= maxSize)%Z
          \/ exists sentence, In sentence (sentencesOf text) /\ (len sentence > maxSize)%Z).
Proof.
  split; [vm_compute; reflexivity|].
  split; [vm_compute; reflexivity|].
  split; [vm_compute; reflexivity|].
  intros H.
  destruct (H (str "abc") 3%Z (str "abc.")) as [Hle|[s [Hin Hs]]].
  - vm_compute. left. reflexivity.
  - vm_compute in Hle. apply Hle. reflexivity.
  - assert (E : sentencesOf (str "abc") = [str "abc"]) by (vm_compute; reflexivity).
    rewrite E in Hin. destruct Hin as [<-|[]]. vm_compute in Hs. discriminate.
Qed.

(** C6 (amended): for every text and every maxSize >= 0, no chunk returned
    by chunkText is longer than maxSize, except a chunk made of a single
    sentence whose length plus the two appended characters [". "] exceeds
    maxSize; and every such sentence is kept intact as a chunk of its own:
    the chunk is the sentence with [". "] appended, trimmed, which is the
    whole sentence from its first non-blank character on followed by ["."],
    neither split nor cut at the bound. *)
Theorem chunkText_bound :
  forall (text : jsstring) (maxSize : Z),
    (0 <= maxSize)%Z ->
    (forall chunk,
        In chunk (chunkText text maxSize) ->
        (len chunk <= maxSize)%Z
        \/ exists sentence,
             In sentence (sentencesOf text)
             /\ chunk = trim (sentence ++ str ". ")
             /\ (len sentence + 2 > maxSize)%Z)
    /\ (forall sentence,
           In sentence (sentencesOf text) ->
           (len sentence + 2 > maxSize)%Z ->
           In (trim (sentence ++ str ". ")) (chunkText text maxSize)
           /\ trim (sentence ++ str ". ") = trimStart sentence ++ str ".").
Proof.
  intros text maxSize Hmax. split.
  - intros chunk Hin. unfold chunkText in Hin.
    destruct (0 <? Z.of_nat (length (collected (sentencesOf text) maxSize)))%Z.
    + pose proof (collected_ok (sentencesOf text) Hmax) as H.
      rewrite Forall_forall in H. apply (H chunk Hin).
    + destruct Hin as [<-|[]]. left. unfold substring0, len.
      rewrite length_firstn. lia.
  - intros sentence Hin Hlong. apply chunkText_long; assumption.
Qed.

Lemma chunkText_bound_witness :
  ((len (str "abc.") <= 3)%Z
   \/ exists sentence,
        In sentence (sentencesOf (str "abc"))
        /\ str "abc." = trim (sentence ++ str ". ")
        /\ (len sentence + 2 > 3)%Z)
  /\ In (trim (str "abc" ++ str ". ")) (chunkText (str "abc") 3)
  /\ trim (str "abc" ++ str ". ") = trimStart (str "abc") ++ str ".".
Proof.
  destruct (@chunkText_bound (str "abc") 3 ltac:(lia)) as [H1 H2].
  split.
  - apply H1. vm_compute. left. reflexivity.
  - apply H2; [vm_compute; left; reflexivity | vm_compute; reflexivity].
Defined.

(** What is not white space survives [trim]. *)
Lemma trimStart_In (c : Z) (s : jsstring) :
  isWhite c = false -> In c s -> In c (trimStart s).
Proof.
  intros Hc. induction s as [|x s IH]; simpl; [tauto|].
  intros [->|Hin].
  - rewrite Hc. left. reflexivity.
  - destruct (isWhite x); [apply IH; exact Hin | right; exact Hin].
Qed.

Lemma trim_In (c : Z) (s : jsstring) :
  isWhite c = false -> In c s -> In c (trim s).
Proof.
  intros Hc Hin. unfold trim, trimEnd.
  apply -> in_rev. apply trimStart_In; [exact Hc|].
  apply -> in_rev. apply trimStart_In; assumption.
Qed.

(** The loop leaves a buffer that ends with the last sentence and [". "]. *)
Lemma step_buffer (maxSize : Z) (st : list jsstring * jsstring) (sentence : jsstring) :
  exists prefix, snd (step maxSize st sentence) = prefix ++ sentence ++ str ". ".
Proof.
  destruct st as [chunks cur]. unfold step.
  destruct (_ && _); simpl.
  - exists []. reflexivity.
  - exists cur. reflexivity.
Qed.

Lemma collected_nonempty (sentences : list jsstring) (maxSize : Z) :
  sentences <> [] -> collected sentences maxSize <> [].
Proof.
  intros Hne. destruct (exists_last Hne) as [l [s ->]].
  unfold collected. rewrite fold_left_app. cbn [fold_left].
  destruct (step_buffer maxSize (fold_left (step maxSize) l ([], [])) s) as [prefix Hp].
  destruct (step maxSize (fold_left (step maxSize) l ([], [])) s) as [chunks cur].
  simpl in Hp. subst cur.
  assert (Hin : In 46%Z (trim (prefix ++ s ++ str ". "))).
  { apply trim_In; [reflexivity|].
    apply in_or_app. right. apply in_or_app. right. left. reflexivity. }
  destruct (trim (prefix ++ s ++ str ". ")) as [|c t] eqn:E; [destruct Hin|].
  replace (len (c :: t) >? 0)%Z with true
    by (symmetry; rewrite Z.gtb_ltb; apply Z.ltb_lt; unfold len; simpl; lia).
  destruct chunks; discriminate.
Qed.

Lemma chunkText_length_pos (text : jsstring) (maxSize : Z) :
  1 <= length (chunkText text maxSize).
Proof.
  unfold chunkText.
  destruct (0 <? Z.of_nat (length (collected (sentencesOf text) maxSize)))%Z eqn:E.
  - apply Z.ltb_lt in E. lia.
  - simpl. lia.
Qed.

(** C7: for every text, chunkText returns a non-empty sequence; the
    sentence loop collects no chunk exactly when the text has no sentence
    that is not blank (empty or degenerate input), and then the result is
    exactly one chunk, the text cut to its first maxSize code units; in
    particular the empty text yields exactly one chunk. *)
Theorem chunkText_nonempty :
  forall (text : jsstring) (maxSize : Z),
    1 <= length (chunkText text maxSize)
    /\ (collected (sentencesOf text) maxSize = [] <-> sentencesOf text = [])
    /\ (sentencesOf text = [] ->
        chunkText text maxSize = [firstn (Z.to_nat maxSize) text])
    /\ length (chunkText [] maxSize) = 1.
Proof.
  intros text maxSize. split; [|split; [|split]].
  - apply chunkText_length_pos.
  - split.
    + intros H. destruct (sentencesOf text) eqn:E; [reflexivity|].
      exfalso. apply (@collected_nonempty (j :: l) maxSize); [discriminate | exact H].
    + intros ->. reflexivity.
  - intros H. unfold chunkText. rewrite H. reflexivity.
  - reflexivity.
Qed.

Lemma chunkText_nonempty_witness :
  chunkText (str " .. ") 3 = [firstn (Z.to_nat 3) (str " .. ")].
Proof.
  apply (proj1 (proj2 (proj2 (chunkText_nonempty (str " .. ") 3)))).
  vm_compute. reflexivity.
Defined.

(* ================================================================== *)
(** * Properties of the store                                           *)
(* ================================================================== *)

Lemma bind_ok {A B} (m : M A) (k : A -> M B) (w w' : World) (a : A) :
  m w = (OK a, w') -> bind m k w = k a w'.
Proof. intros H. unfold bind. rewrite H. reflexivity. Qed.

Lemma bind_throw {A B} (m : M A) (k : A -> M B) (w w' : World) (e : string) :
  m w = (Throw e, w') -> bind m k w = (Throw e, w').
Proof. intros H. unfold bind. rewrite H. reflexivity. Qed.

Lemma mapGet_mapSet {V} (k : nat) (v : V) (m : list (nat * V)) :
  mapGet k (mapSet k v m) = Some v.
Proof.
  induction m as [|[k' v'] m IH]; simpl.
  - rewrite Nat.eqb_refl. reflexivity.
  - destruct (k =? k')%nat eqn:E; simpl; rewrite ?Nat.eqb_refl, ?E; auto.
Qed.

Lemma mapSet_nonempty {V} (k : nat) (v : V) (m : list (nat * V)) : mapSet k v m <> [].
Proof. destruct m as [|[k' v'] m]; simpl; [|destruct (k =? k')%nat]; discriminate. Qed.

(** C10: listing the chat messages is not read-only.  When the document
    store is empty, [getAllChatMessages] returns the empty list and leaves no
    chat message in the store, so that the list stays empty after a document
    is created again; when there is a document, the world is left as it
    was. *)
Theorem getAllChatMessages_clears_without_documents :
  forall w : World,
    (documents (store w) = [] ->
     fst (getAllChatMessages w) = OK []
     /\ chatMessages (store (snd (getAllChatMessages w))) = []
     /\ forall insertDocument,
          fst (getAllChatMessages
                 (snd (createDocument insertDocument (snd (getAllChatMessages w)))))
          = OK [])
    /\ (documents (store w) <> [] -> snd (getAllChatMessages w) = w).
Proof.
  intros w. split.
  - intros Hd.
    assert (E : getAllChatMessages w
                = (OK [], {| store := {| documents := documents (store w);
                                         embeddings := embeddings (store w);
                                         chatMessages := [] |};
                             uuids := uuids w; dates := dates w;
                             wallClock := wallClock w; journal := journal w |})).
    { unfold getAllChatMessages, bind, getStore, setChatMessages, putStore, bind, getStore, ret.
      simpl. rewrite Hd. simpl. rewrite ?Hd. reflexivity. }
    rewrite E. simpl. repeat split.
    intros ins.
    unfold getAllChatMessages, createDocument, bind, getStore, setDocuments, putStore,
      randomUUID, newDate, ret. simpl.
    destruct (mapSet (uuids w) _ (documents (store w))) eqn:Em.
    + exfalso. eapply mapSet_nonempty. exact Em.
    + reflexivity.
  - intros Hd. unfold getAllChatMessages, bind, getStore, ret. simpl.
    destruct (documents (store w)); [contradiction | reflexivity].
Qed.

Lemma getAllChatMessages_clears_without_documents_witness :
  chatMessages (store lonelyMessage) <> []
  /\ fst (getAllChatMessages lonelyMessage) = OK []
  /\ chatMessages (store (snd (getAllChatMessages lonelyMessage))) = [].
Proof.
  split; [discriminate|].
  destruct (getAllChatMessages_clears_without_documents lonelyMessage) as [H _].
  destruct (H eq_refl) as [H1 [H2 _]]. split; assumption.
Defined.

Unset Implicit Arguments.

(* ================================================================== *)
(** * Properties of the ingestion pipeline                              *)
(* ================================================================== *)

Lemma quiet_calm {A} (m : M A) : quiet m -> calm m.
Proof.
  intros H w. destruct (H w) as [a [w' [E [H1 [H2 H3]]]]]. rewrite E. simpl. auto.
Qed.

Lemma quiet_ret {A} (a : A) : quiet (ret a).
Proof. intros w. exists a, w. repeat split. Qed.

Lemma quiet_bind {A B} (m : M A) (k : A -> M B) :
  quiet m -> (forall a, quiet (k a)) -> quiet (bind m k).
Proof.
  intros Hm Hk w. destruct (Hm w) as [a [w1 [E [H1 [H2 H3]]]]].
  destruct (Hk a w1) as [b [w2 [E' [H1' [H2' H3']]]]].
  exists b, w2. rewrite (@bind_ok _ _ m k w w1 a E). repeat split; congruence.
Qed.

Lemma calm_bind {A B} (m : M A) (k : A -> M B) :
  calm m -> (forall a, calm (k a)) -> calm (bind m k).
Proof.
  intros Hm Hk w. unfold bind. specialize (Hm w).
  destruct (m w) as [[a|e] w1]; simpl in *.
  - destruct (Hk a w1) as [H1 [H2 H3]]. repeat split; intuition congruence.
  - exact Hm.
Qed.

Lemma calm_await {A} (r : result A) : calm (await r).
Proof. intros w. repeat split. Qed.

Lemma quiet_tryCatch {A} (body : M A) (handler : string -> M A) :
  calm body -> (forall e, quiet (handler e)) -> quiet (tryCatch body handler).
Proof.
  intros Hb Hh w. unfold tryCatch. specialize (Hb w).
  destruct (body w) as [[a|e] w1]; simpl in *.
  - exists a, w1. repeat split; intuition.
  - destruct (Hh e w1) as [a [w2 [E [H1 [H2 H3]]]]].
    exists a, w2. repeat split; intuition congruence.
Qed.

Lemma quiet_forEach {A} (xs : list A) (body : A -> M unit) :
  (forall x, quiet (body x)) -> quiet (forEach xs body).
Proof.
  intros Hb. induction xs as [|x xs IH]; simpl.
  - apply quiet_ret.
  - apply quiet_bind; [apply Hb | intros _; exact IH].
Qed.

Lemma quiet_getDocument (id : nat) : quiet (getDocument id).
Proof. intros w. run_store. eexists; eexists. split; [reflexivity|]. repeat split. Qed.

Lemma quiet_getEmbeddingsByDocument (id : nat) : quiet (getEmbeddingsByDocument id).
Proof. intros w. run_store. eexists; eexists. split; [reflexivity|]. repeat split. Qed.

Lemma quiet_getAllEmbeddings : quiet getAllEmbeddings.
Proof. intros w. run_store. eexists; eexists. split; [reflexivity|]. repeat split. Qed.

Lemma quiet_createEmbedding (ins : InsertEmbedding) : quiet (createEmbedding ins).
Proof. intros w. run_store. eexists; eexists. split; [reflexivity|]. repeat split. Qed.

Lemma quiet_createEmbeddingsBatch (l : list InsertEmbedding) :
  quiet (createEmbeddingsBatch l).
Proof.
  induction l as [|ins l IH]; simpl.
  - apply quiet_ret.
  - apply quiet_bind; [apply quiet_createEmbedding|]. intros e.
    apply quiet_bind; [exact IH|]. intros es. apply quiet_ret.
Qed.

Lemma updateDocumentStatus_absent (id : nat) (st : Status) (content : option jsstring)
  (w : World) :
  mapGet id (documents (store w)) = None ->
  updateDocumentStatus id st content w = (OK tt, w).
Proof.
  intros H. unfold updateDocumentStatus, bind, getStore, ret. simpl. rewrite H. reflexivity.
Qed.

Lemma updateDocumentStatus_present (id : nat) (st : Status) (content : option jsstring)
  (w : World) (d : Document) :
  mapGet id (documents (store w)) = Some d ->
  exists w' d',
    updateDocumentStatus id st content w = (OK tt, w')
    /\ journal w' = journal w ++ [{| written := id; before := status d; after := st |}]
    /\ mapGet id (documents (store w')) = Some d'
    /\ status d' = st
    /\ embeddings (store w') = embeddings (store w)
    /\ chatMessages (store w') = chatMessages (store w)
    /\ uuids w' = uuids w.
Proof.
  intros H. unfold updateDocumentStatus, bind, getStore. simpl. rewrite H.
  unfold record, setDocuments, bind, getStore, putStore, newDate, ret. simpl.
  destruct (statusEqb st completed); simpl;
    (eexists; eexists; split; [reflexivity|]; simpl;
     split; [reflexivity|]; split; [apply mapGet_mapSet|]; repeat split).
Qed.

Lemma createDocument_run (ins : InsertDocument) (w : World) :
  exists w' d,
    createDocument ins w = (OK d, w')
    /\ docId d = uuids w
    /\ mimeType d = newMimeType ins
    /\ mapGet (uuids w) (documents (store w')) = Some d
    /\ status d = processing
    /\ journal w' = journal w.
Proof.
  unfold createDocument, bind, randomUUID, newDate, getStore, setDocuments, bind, getStore,
    putStore, ret. simpl.
  eexists; eexists. split; [reflexivity|]. simpl.
  repeat split. apply mapGet_mapSet.
Qed.

Section Pipeline.

Variable extractText : jsstring -> jsstring -> jsstring -> result jsstring.
Variable extractFromDomain : jsstring -> result jsstring.
Variable generateEmbedding : jsstring -> result (list float).

Lemma quiet_storeBatches (id : nat) (chunks : list jsstring) :
  quiet (storeBatches generateEmbedding id chunks).
Proof.
  unfold storeBatches. apply quiet_forEach. intros batchIndex.
  cbv zeta. destruct (0 <? _)%nat.
  - apply quiet_bind; [apply quiet_createEmbeddingsBatch | intros; apply quiet_ret].
  - apply quiet_ret.
Qed.

Lemma quiet_embedUrlChunk (id total : nat) (url : jsstring) (ic : nat * jsstring) :
  quiet (embedUrlChunk generateEmbedding id total url ic).
Proof.
  destruct ic as [i c]. unfold embedUrlChunk. apply quiet_tryCatch.
  - apply calm_bind; [apply calm_await|]. intros v.
    apply quiet_calm. apply quiet_bind; [apply quiet_createEmbedding|].
    intros; apply quiet_ret.
  - intros e. apply quiet_ret.
Qed.

Lemma quiet_storeUrlBatches (id : nat) (url : jsstring) (chunks : list jsstring) :
  quiet (storeUrlBatches generateEmbedding id url chunks).
Proof.
  unfold storeUrlBatches. apply quiet_forEach. intros batchIndex.
  apply quiet_forEach. intros ic. apply quiet_embedUrlChunk.
Qed.

Lemma quiet_readLastChunk (text : jsstring) (maxSize : Z) :
  quiet (readLastChunk (chunkText text maxSize)).
Proof.
  unfold readLastChunk.
  pose proof (chunkText_length_pos text maxSize) as H.
  destruct (chunkText text maxSize) as [|c l]; [simpl in H; lia|]. clear H.
  assert (Hl : exists x, last (map Some (c :: l)) None = Some x).
  { generalize c. induction l as [|c' l IH]; intros c0.
    - exists c0. reflexivity.
    - destruct (IH c') as [x Hx]. exists x. exact Hx. }
  destruct Hl as [x ->]. apply quiet_ret.
Qed.

End Pipeline.

Section Ingestion.

Variable extractText : jsstring -> jsstring -> jsstring -> result jsstring.
Variable extractFromDomain : jsstring -> result jsstring.
Variable generateEmbedding : jsstring -> result (list float).

Lemma getDocument_run (id : nat) (w : World) :
  getDocument id w = (OK (mapGet id (documents (store w))), w).
Proof. reflexivity. Qed.

(** The file pipeline when the text is extracted: the content is written
    under [processing], the batches are stored, the status is set to
    [completed]. *)
Lemma processDocumentBody_success (id : nat) (filePath : jsstring) (w : World)
  (d : Document) (text : jsstring) :
  mapGet id (documents (store w)) = Some d ->
  extractText filePath (mimeType d) (originalName d) = OK text ->
  exists w1 w2 w',
    updateDocumentStatus id processing (Some text) w = (OK tt, w1)
    /\ embeddings (store w1) = embeddings (store w)
    /\ uuids w1 = uuids w
    /\ storeBatches generateEmbedding id (chunkText text defaultMaxChunkSize) w1 = (OK tt, w2)
    /\ processDocumentBody extractText generateEmbedding id filePath w = (OK tt, w')
    /\ embeddings (store w') = embeddings (store w2)
    /\ journal w' = journal w ++ [{| written := id; before := status d; after := processing |};
                                  {| written := id; before := processing; after := completed |}]
    /\ statusOf id w' = Some completed.
Proof.
  intros Hd Hx. unfold processDocumentBody.
  rewrite (@bind_ok _ _ _ _ w w _ (getDocument_run id w)). rewrite Hd. rewrite Hx.
  assert (Ea : await (OK text) w = (OK text, w)) by reflexivity.
  rewrite (@bind_ok _ _ _ _ w w _ Ea).
  destruct (updateDocumentStatus_present id processing (Some text) w _ Hd)
    as [w1 [d1 [E1 [J1 [G1 [S1 [M1 [_ U1]]]]]]]].
  rewrite (@bind_ok _ _ _ _ w w1 _ E1).
  destruct (quiet_storeBatches generateEmbedding id (chunkText text defaultMaxChunkSize) w1)
    as [[] [w2 [E2 [D2 [J2 _]]]]].
  rewrite (@bind_ok _ _ _ _ w1 w2 _ E2).
  destruct (quiet_readLastChunk text defaultMaxChunkSize w2) as [[] [w3 [E3 [D3 [J3 _]]]]].
  assert (w3 = w2) as ->.
  { unfold readLastChunk in E3. destruct (last _ _); inversion E3; reflexivity. }
  rewrite (@bind_ok _ _ _ _ w2 w2 _ E3).
  assert (E4 : getEmbeddingsByDocument id w2
               = (OK (filter (fun e => (embDocumentId e =? id)%nat)
                             (mapValues (embeddings (store w2)))), w2)) by reflexivity.
  rewrite (@bind_ok _ _ _ _ w2 w2 _ E4).
  assert (G2 : mapGet id (documents (store w2)) = Some d1) by (rewrite D2; exact G1).
  destruct (updateDocumentStatus_present id completed None w2 _ G2)
    as [w5 [d5 [E5 [J5 [G5 [S5 [M5 _]]]]]]].
  rewrite (@bind_ok _ _ _ _ w2 w5 _ E5).
  exists w1, w2, w5. repeat split; auto.
  - rewrite J5, J2, J1, S1, <- app_assoc. reflexivity.
  - unfold statusOf. rewrite G5. simpl. rewrite S5. reflexivity.
Qed.

Lemma processDocumentBody_failure (id : nat) (filePath : jsstring) (w : World)
  (d : Document) (e : string) :
  mapGet id (documents (store w)) = Some d ->
  extractText filePath (mimeType d) (originalName d) = Throw e ->
  processDocumentBody extractText generateEmbedding id filePath w = (Throw e, w).
Proof.
  intros Hd Hx. unfold processDocumentBody.
  rewrite (@bind_ok _ _ _ _ w w _ (getDocument_run id w)). rewrite Hd. rewrite Hx.
  reflexivity.
Qed.

Lemma processDocumentAsync_lifecycle (id : nat) (filePath : jsstring) (w : World)
  (d : Document) :
  mapGet id (documents (store w)) = Some d ->
  status d = processing ->
  exists events,
    journal (snd (processDocumentAsync extractText generateEmbedding id filePath w))
    = journal w ++ events
    /\ lifecycle id processing events.
Proof.
  intros Hd Hs. unfold processDocumentAsync, tryCatch.
  destruct (extractText filePath (mimeType d) (originalName d)) as [text|e] eqn:Hx.
  - destruct (processDocumentBody_success id filePath w d text Hd Hx)
      as [w1 [w2 [w' [_ [_ [_ [_ [E [_ [J _]]]]]]]]]].
    rewrite E. simpl. rewrite J, Hs. eexists. split; [reflexivity|].
    apply lifecycle_keep; try reflexivity.
    eapply lifecycle_advance; try reflexivity; constructor.
  - rewrite (processDocumentBody_failure id filePath w d e Hd Hx).
    destruct (updateDocumentStatus_present id failed None w _ Hd)
      as [w1 [d1 [E1 [J1 _]]]].
    unfold unlink. rewrite (@bind_ok _ _ _ _ w w1 _ E1). simpl.
    rewrite J1, Hs. eexists. split; [reflexivity|].
    eapply lifecycle_advance; try reflexivity; constructor.
Qed.

Lemma processUrlAsync_lifecycle (id : nat) (url : jsstring) (w : World) (d : Document) :
  mapGet id (documents (store w)) = Some d ->
  status d = processing ->
  exists events,
    journal (snd (processUrlAsync extractFromDomain generateEmbedding id url w))
    = journal w ++ events
    /\ lifecycle id processing events.
Proof.
  intros Hd Hs. unfold processUrlAsync, tryCatch, processUrlBody.
  rewrite (@bind_ok _ _ _ _ w w _ (getDocument_run id w)). rewrite Hd.
  destruct (extractFromDomain url) as [text|e] eqn:Hx.
  - assert (Ea : await (OK text) w = (OK text, w)) by reflexivity.
    rewrite (@bind_ok _ _ _ _ w w _ Ea).
    destruct (updateDocumentStatus_present id completed (Some text) w _ Hd)
      as [w1 [d1 [E1 [J1 _]]]].
    rewrite (@bind_ok _ _ _ _ w w1 _ E1).
    destruct (quiet_storeUrlBatches generateEmbedding id url
                (chunkText text defaultMaxChunkSize) w1) as [[] [w2 [E2 [_ [J2 _]]]]].
    rewrite E2. simpl. rewrite J2, J1, Hs. eexists. split; [reflexivity|].
    eapply lifecycle_advance; try reflexivity; constructor.
  - assert (Ea : await (@Throw jsstring e) w = (Throw e, w)) by reflexivity.
    rewrite (@bind_throw _ _ _ _ w w _ Ea).
    destruct (updateDocumentStatus_present id error None w _ Hd) as [w1 [d1 [E1 [J1 _]]]].
    rewrite E1. simpl. rewrite J1, Hs. eexists. split; [reflexivity|].
    eapply lifecycle_advance; try reflexivity; constructor.
Qed.

End Ingestion.

(** C1: for every document, from its creation (status [processing]) on,
    the writes of its status by the ingestion pipeline, on the local-file
    path and on the URL path, either leave it at [processing] or advance it
    from [processing] to [completed], [failed] or [error]; once a terminal
    status is written the pipeline writes the status no more, and it writes
    the status of no other document. *)
Theorem ingestion_status_lifecycle :
  forall (extractText : jsstring -> jsstring -> jsstring -> result jsstring)
         (extractFromDomain : jsstring -> result jsstring)
         (generateEmbedding : jsstring -> result (list float))
         (w : World),
    (forall file filePath,
        exists events,
          journal (snd (upload extractText generateEmbedding file filePath w))
          = journal w ++ events
          /\ lifecycle (uuids w) processing events)
    /\ (forall url hostname stamp,
           exists events,
             journal (snd (extractUrl extractFromDomain generateEmbedding url hostname stamp w))
             = journal w ++ events
             /\ lifecycle (uuids w) processing events).
Proof.
  intros extractText extractFromDomain generateEmbedding w. split.
  - intros file filePath. unfold upload.
    destruct (createDocument_run file w) as [w1 [d [E [Hid [_ [Hg [Hs Hj]]]]]]].
    rewrite (@bind_ok _ _ _ _ w w1 _ E). rewrite Hid.
    destruct (negb (existsb (streq (newMimeType file)) supportedTypes)).
    + destruct (updateDocumentStatus_present (uuids w) failed None w1 _ Hg)
        as [w2 [d2 [E2 [J2 _]]]].
      unfold unlink.
      rewrite (@bind_ok _ _ _ _ w1 w2 _
                 (@bind_ok _ _ _ (fun _ => ret tt) w1 w2 _ E2)).
      simpl. rewrite J2, Hj, Hs. eexists. split; [reflexivity|].
      eapply lifecycle_advance; try reflexivity; constructor.
    + destruct (processDocumentAsync_lifecycle extractText generateEmbedding
                  (uuids w) filePath w1 d Hg Hs) as [events [J L]].
      exists events. split; [|exact L]. rewrite <- Hj, <- J.
      unfold bind.
      destruct (processDocumentAsync extractText generateEmbedding (uuids w) filePath w1)
        as [[[]|e] w2]; reflexivity.
  - intros url hostname stamp. unfold extractUrl.
    destruct (createDocument_run
                {| newFilename := hostname ++ str "_" ++ toString stamp;
                   newOriginalName := url; newMimeType := str "text/html";
                   newSize := 0 |} w) as [w1 [d [E [Hid [_ [Hg [Hs Hj]]]]]]].
    rewrite (@bind_ok _ _ _ _ w w1 _ E). rewrite Hid.
    destruct (processUrlAsync_lifecycle extractFromDomain generateEmbedding
                (uuids w) url w1 d Hg Hs) as [events [J L]].
    exists events. split; [|exact L]. rewrite <- Hj, <- J.
    unfold bind.
    destruct (processUrlAsync extractFromDomain generateEmbedding (uuids w) url w1)
      as [[[]|e] w2]; reflexivity.
Qed.

(** ** Partial failure of the vectorizer *)

Lemma mapSet_fresh {V} (k : nat) (v : V) (m : list (nat * V)) :
  (forall k' v', In (k', v') m -> k' < k) -> mapSet k v m = m ++ [(k, v)].
Proof.
  induction m as [|[k' v'] m IH]; intros H; simpl; [reflexivity|].
  assert (Hk : k' < k) by (apply (H k' v'); left; reflexivity).
  replace (k =? k')%nat with false by (symmetry; apply Nat.eqb_neq; lia).
  rewrite IH; [reflexivity|]. intros k2 v2 Hin. apply (H k2 v2). right. exact Hin.
Qed.

Lemma createEmbedding_run (ins : InsertEmbedding) (w : World) :
  uuidsFresh w ->
  exists e w',
    createEmbedding ins w = (OK e, w')
    /\ embDocumentId e = newDocumentId ins
    /\ embeddings (store w') = embeddings (store w) ++ [(uuids w, e)]
    /\ uuidsFresh w'.
Proof.
  intros Hf. run_store. eexists; eexists. split; [reflexivity|]. simpl.
  split; [reflexivity|].
  rewrite (mapSet_fresh _ _ _ Hf). split; [reflexivity|].
  intros k e Hin. simpl in *. apply in_app_or in Hin. destruct Hin as [Hin|[Hin|[]]].
  - apply Hf in Hin. lia.
  - inversion Hin. lia.
Qed.

Lemma createEmbeddingsBatch_run (inserts : list InsertEmbedding) (w : World) :
  uuidsFresh w ->
  exists es w' added,
    createEmbeddingsBatch inserts w = (OK es, w')
    /\ embeddings (store w') = embeddings (store w) ++ added
    /\ map (fun kv => embDocumentId (snd kv)) added = map newDocumentId inserts
    /\ uuidsFresh w'.
Proof.
  revert w. induction inserts as [|ins inserts IH]; intros w Hf.
  - exists [], w, []. simpl. rewrite app_nil_r. repeat split. exact Hf.
  - destruct (createEmbedding_run ins w Hf) as [e [w1 [E1 [D1 [M1 F1]]]]].
    destruct (IH w1 F1) as [es [w2 [added [E2 [M2 [D2 F2]]]]]].
    exists (e :: es), w2, ((uuids w, e) :: added).
    split; [|split; [|split]].
    + simpl createEmbeddingsBatch.
      rewrite (@bind_ok _ _ _ _ w w1 _ E1). rewrite (@bind_ok _ _ _ _ w1 w2 _ E2).
      reflexivity.
    + rewrite M2, M1, <- app_assoc. reflexivity.
    + simpl. rewrite D1, D2. reflexivity.
    + exact F2.
Qed.

Section PartialFailure.

Variable generateEmbedding : jsstring -> result (list float).

Lemma embedChunk_documentId (id total : nat) (ic : nat * jsstring) (ins : InsertEmbedding) :
  embedChunk generateEmbedding id total ic = Some ins -> newDocumentId ins = id.
Proof.
  destruct ic as [i c]. unfold embedChunk.
  destruct (generateEmbedding c); intros H; inversion H. reflexivity.
Qed.

Lemma nonNull_documentId (id total : nat) (batch : list (nat * jsstring)) :
  map newDocumentId (nonNull (map (embedChunk generateEmbedding id total) batch))
  = repeat id (length (nonNull (map (embedChunk generateEmbedding id total) batch))).
Proof.
  induction batch as [|ic batch IH]; simpl; [reflexivity|].
  destruct (embedChunk generateEmbedding id total ic) as [ins|] eqn:E; simpl.
  - rewrite (embedChunk_documentId _ _ _ _ E), IH. reflexivity.
  - exact IH.
Qed.

(** The chunks that are stored are those the vectorizer accepts. *)
Lemma nonNull_length (id total start : nat) (chunks : list jsstring) :
  length (nonNull (map (embedChunk generateEmbedding id total)
                       (combine (seq start (length chunks)) chunks)))
  + length (filter (fun c => is_throw (generateEmbedding c)) chunks)
  = length chunks.
Proof.
  revert start. induction chunks as [|c chunks IH]; intros start; simpl; [reflexivity|].
  specialize (IH (S start)).
  destruct (generateEmbedding c); simpl; lia.
Qed.

Lemma filter_repeat_same (id n : nat) (added : list (nat * Embedding)) :
  map (fun kv => embDocumentId (snd kv)) added = repeat id n ->
  length (filter (fun e => (embDocumentId e =? id)%nat) (map snd added)) = n.
Proof.
  revert n. induction added as [|[k e] added IH]; intros [|n] H; simpl in *;
    try discriminate; [reflexivity|].
  injection H as He Hr. rewrite He, Nat.eqb_refl. simpl.
  rewrite (IH n Hr). reflexivity.
Qed.

(** Up to a hundred chunks make one batch. *)
Lemma storeBatches_one_batch (id : nat) (chunks : list jsstring) (w : World) :
  0 < length chunks <= 100 ->
  uuidsFresh w ->
  exists w',
    storeBatches generateEmbedding id chunks w = (OK tt, w')
    /\ length (persistedFor id w') + length (filter (fun c => is_throw (generateEmbedding c)) chunks)
       = length (persistedFor id w) + length chunks.
Proof.
  intros Hn Hf. unfold storeBatches.
  replace (Nat.min 100 (length chunks)) with (length chunks) by lia.
  assert (Ht : totalBatchesOf (length chunks) (length chunks) = 1).
  { unfold totalBatchesOf.
    replace (length chunks =? 0)%nat with false by (symmetry; apply Nat.eqb_neq; lia).
    symmetry. apply (Nat.div_unique _ _ 1 (length chunks - 1)); lia. }
  rewrite Ht. cbn [seq forEach].
  assert (Hb : batchOf chunks (length chunks) 0 = combine (seq 0 (length chunks)) chunks).
  { unfold batchOf. cbn [Nat.mul Nat.add skipn].
    rewrite Nat.min_id, Nat.sub_0_r, firstn_all. reflexivity. }
  rewrite Hb.
  pose proof (nonNull_length id (length chunks) 0 chunks) as Hcount.
  pose proof (nonNull_documentId id (length chunks) (combine (seq 0 (length chunks)) chunks))
    as Hids.
  set (valid := nonNull (map (embedChunk generateEmbedding id (length chunks))
                             (combine (seq 0 (length chunks)) chunks))) in *.
  destruct (0 <? length valid)%nat eqn:Hv.
  - destruct (createEmbeddingsBatch_run valid w Hf) as [es [w1 [added [E [M [D _]]]]]].
    exists w1. split.
    + rewrite (@bind_ok _ _ _ _ w w1 _
                 (@bind_ok _ _ _ (fun _ => ret tt) w w1 _ E)). reflexivity.
    + unfold persistedFor, mapValues. rewrite M, map_app, filter_app, length_app.
      rewrite Hids in D. rewrite (filter_repeat_same id _ added D). lia.
  - exists w. split; [reflexivity|].
    apply Nat.ltb_ge in Hv. lia.
Qed.

End PartialFailure.

(** C9: during the ingestion of a file whose text makes ten chunks, when
    the vectorizer rejects exactly one of them, the pipeline does not abort:
    it ends without error, the document reaches the status [completed], and
    exactly nine chunk-vectors are persisted for it. *)
Theorem processDocumentAsync_partial_failure :
  forall (extractText : jsstring -> jsstring -> jsstring -> result jsstring)
         (generateEmbedding : jsstring -> result (list float))
         (w : World) (documentId : nat) (filePath : jsstring)
         (document : Document) (text : jsstring),
    uuidsFresh w ->
    mapGet documentId (documents (store w)) = Some document ->
    extractText filePath (mimeType document) (originalName document) = OK text ->
    length (chunkText text defaultMaxChunkSize) = 10 ->
    length (filter (fun c => is_throw (generateEmbedding c))
                   (chunkText text defaultMaxChunkSize)) = 1 ->
    exists w',
      processDocumentAsync extractText generateEmbedding documentId filePath w = (OK tt, w')
      /\ statusOf documentId w' = Some completed
      /\ length (persistedFor documentId w') = length (persistedFor documentId w) + 9.
Proof.
  intros extractText generateEmbedding w id filePath d text Hf Hd Hx Hn Hfail.
  destruct (processDocumentBody_success extractText generateEmbedding id filePath w d text Hd Hx)
    as [w1 [w2 [w' [_ [M1 [U1 [E2 [E [M' [_ S]]]]]]]]]].
  exists w'. split; [|split].
  - unfold processDocumentAsync, tryCatch. rewrite E. reflexivity.
  - exact S.
  - assert (Hf1 : uuidsFresh w1).
    { intros k e Hin. rewrite M1 in Hin. rewrite U1. apply (Hf k e Hin). }
    destruct (storeBatches_one_batch generateEmbedding id
                (chunkText text defaultMaxChunkSize) w1 ltac:(lia) Hf1) as [w2' [E2' Hc]].
    rewrite E2 in E2'. inversion E2'; subst w2'.
    unfold persistedFor in *. rewrite M'. rewrite M1 in Hc. lia.
Qed.

Lemma tenSentences_chunks :
  chunkText tenSentences defaultMaxChunkSize
  = map (fun c => repeat c (30 * 100) ++ [46%Z]) [97; 97; 97; 98; 97; 97; 97; 97; 97; 97]%Z.
Proof. vm_compute. reflexivity. Qed.

Lemma processDocumentAsync_partial_failure_witness :
  exists w',
    processDocumentAsync (fun _ _ _ => OK tenSentences) rejectsB 0 (str "uploads/f") uploaded
    = (OK tt, w')
    /\ statusOf 0 w' = Some completed
    /\ length (persistedFor 0 w') = length (persistedFor 0 uploaded) + 9.
Proof.
  eapply (processDocumentAsync_partial_failure
            (fun _ _ _ => OK tenSentences) rejectsB uploaded 0 (str "uploads/f")).
  - intros k e [].
  - reflexivity.
  - reflexivity.
  - rewrite tenSentences_chunks. reflexivity.
  - rewrite tenSentences_chunks. reflexivity.
Defined.

(* ================================================================== *)
(** * Properties of the chat handler                                    *)
(* ================================================================== *)

Lemma failsClean_total {A} (m : M A) : total m -> failsClean m.
Proof. intros H w e w' E. destruct (H w) as [a [w1 E1]]. congruence. Qed.

Lemma failsClean_bind {A B} (m : M A) (k : A -> M B) :
  calm m -> (forall a, failsClean (k a)) -> failsClean (bind m k).
Proof.
  intros Hm Hk w e w' E. unfold bind in E. specialize (Hm w).
  destruct (m w) as [[a|e1] w1]; simpl in Hm.
  - rewrite (Hk a w1 e w' E). intuition.
  - inversion E; subst. intuition.
Qed.

Lemma total_bind {A B} (m : M A) (k : A -> M B) :
  total m -> (forall a, total (k a)) -> total (bind m k).
Proof.
  intros Hm Hk w. destruct (Hm w) as [a [w1 E]]. destruct (Hk a w1) as [b [w2 E2]].
  exists b, w2. rewrite (@bind_ok _ _ m k w w1 a E). exact E2.
Qed.

Lemma total_createChatMessage (ins : InsertChatMessage) : total (createChatMessage ins).
Proof. intros w. run_store. eexists; eexists. reflexivity. Qed.

Lemma quiet_sourcesOf (top : list (Match float)) : quiet (sourcesOf top).
Proof.
  induction top as [|c top IH]; simpl.
  - apply quiet_ret.
  - apply quiet_bind; [apply quiet_getDocument|]. intros doc.
    apply quiet_bind; [exact IH|]. intros others. apply quiet_ret.
Qed.

Lemma createChatMessage_run (ins : InsertChatMessage) (w : World) :
  exists w',
    createChatMessage ins w
    = (OK {| msgId := uuids w; msgContent := newMessageContent ins; role := newRole ins;
             sources := newSources ins; msgCreatedAt := wallClock w (dates w) |}, w')
    /\ chatMessages (store w')
       = mapSet (uuids w)
           {| msgId := uuids w; msgContent := newMessageContent ins; role := newRole ins;
              sources := newSources ins; msgCreatedAt := wallClock w (dates w) |}
           (chatMessages (store w))
    /\ documents (store w') = documents (store w).
Proof. run_store. eexists. split; [reflexivity|]. split; reflexivity. Qed.

Lemma getAllChatMessages_run (w : World) :
  exists r w',
    getAllChatMessages w = (OK r, w')
    /\ chatMessages (store w')
       = (if (length (documents (store w)) =? 0)%nat then [] else chatMessages (store w)).
Proof.
  unfold getAllChatMessages, bind, getStore, setChatMessages, putStore, bind, getStore, ret.
  simpl. destruct (length (documents (store w)) =? 0)%nat;
    eexists; eexists; split; reflexivity.
Qed.

(** C3 (amended): when a step of the chat request fails, the assistant
    message is never stored and the user message is not rolled back.  If
    the request is rejected before anything is stored, the world is
    unchanged; otherwise the chat messages of the store are those of before
    with the user message added, without its assistant message, unless the
    document store is empty, in which case listing the history has emptied
    them. *)
Theorem postChatMessage_failure_leaves_user_message :
  forall (generateEmbedding : jsstring -> result (list float))
         (toLowerCase : jsstring -> jsstring)
         (body : option jsstring) (w w' : World) (e : string),
    postChatMessage generateEmbedding toLowerCase body w = (Throw e, w') ->
    (body = None /\ w' = w)
    \/ exists content,
         body = Some content
         /\ chatMessages (store w')
            = (if (length (documents (store w)) =? 0)%nat then []
               else mapSet (uuids w) (userMessageOf content w) (chatMessages (store w))).
Proof.
  intros generateEmbedding toLowerCase body w w' e H.
  unfold postChatMessage in H. destruct body as [content|].
  - right. exists content. split; [reflexivity|].
    assert (Er : ret content w = (OK content, w)) by reflexivity.
    rewrite (@bind_ok _ _ _ _ w w _ Er) in H.
    destruct (createChatMessage_run
                {| newMessageContent := content; newRole := user; newSources := None |} w)
      as [w1 [E1 [C1 D1]]].
    rewrite (@bind_ok _ _ _ _ w w1 _ E1) in H.
    destruct (getAllChatMessages_run w1) as [r [w2 [E2 C2]]].
    rewrite (@bind_ok _ _ _ _ w1 w2 _ E2) in H.
    cbv zeta in H.
    apply failsClean_bind in H.
    + rewrite H, C2, D1, C1. reflexivity.
    + apply calm_await.
    + intros queryEmbedding. apply failsClean_bind; [apply quiet_calm, quiet_getAllEmbeddings|].
      intros allEmbeddings. apply failsClean_bind; [apply calm_await|].
      intros similarChunks. apply failsClean_bind; [apply quiet_calm, quiet_sourcesOf|].
      intros sourceDocuments. apply failsClean_total.
      apply total_bind; [apply total_createChatMessage|].
      intros a w0. eexists; eexists. reflexivity.
  - left. inversion H. split; reflexivity.
Qed.

(** C3, as the specification states it, fails: the handler stores the
    user message first and has no rollback.  With a stored vector of another
    length than the query's, the ranking throws after the user message is
    stored: the request fails and the store holds the user message without
    an assistant message.  The same happens when the vectorizer rejects the
    query. *)
Lemma postChatMessage_half_written_pair :
  (exists w',
      postChatMessage vectorize (fun s => s) (Some (str "hi")) shortVector
      = (Throw "Vector dimensionality mismatch", w')
      /\ messagesSince shortVector w' = [userMessageOf (str "hi") shortVector])
  /\ (exists w',
         postChatMessage (fun _ => Throw "Failed to generate neural embedding") (fun s => s)
                         (Some (str "hi")) shortVector
         = (Throw "Failed to generate neural embedding", w')
         /\ messagesSince shortVector w' = [userMessageOf (str "hi") shortVector])
  /\ ~ (forall generateEmbedding toLowerCase body w w' e,
          postChatMessage generateEmbedding toLowerCase body w = (Throw e, w') ->
          pairOrNothing w w').
Proof.
  assert (H2 : exists w',
             postChatMessage (fun _ => Throw "Failed to generate neural embedding") (fun s => s)
                             (Some (str "hi")) shortVector
             = (Throw "Failed to generate neural embedding", w')
             /\ messagesSince shortVector w' = [userMessageOf (str "hi") shortVector]).
  { eexists. split; [vm_compute; reflexivity|]. vm_compute. reflexivity. }
  split; [|split; [exact H2|]].
  - eexists. split; [vm_compute; reflexivity|]. vm_compute. reflexivity.
  - intros H. destruct H2 as [w' [E M]].
    specialize (H _ _ _ _ _ _ E). unfold pairOrNothing in H. rewrite M in H.
    destruct H as [H|[u [a [H _]]]]; discriminate.
Qed.

Lemma postChatMessage_failure_leaves_user_message_witness :
  exists w',
    postChatMessage (fun _ => Throw "Failed to generate neural embedding") (fun s => s)
                    (Some (str "hi")) shortVector
    = (Throw "Failed to generate neural embedding", w')
    /\ ((Some (str "hi") = None /\ w' = shortVector)
        \/ exists content,
             Some (str "hi") = Some content
             /\ chatMessages (store w')
                = (if (length (documents (store shortVector)) =? 0)%nat then []
                   else mapSet (uuids shortVector) (userMessageOf content shortVector)
                               (chatMessages (store shortVector)))).
Proof.
  eexists. split; [vm_compute; reflexivity|].
  eapply (postChatMessage_failure_leaves_user_message
            (fun _ => Throw "Failed to generate neural embedding") (fun s => s)).
  vm_compute. reflexivity.
Defined.

(* ================================================================== *)
(** * Further properties of the similarity and of the ranking           *)
(* ================================================================== *)

Lemma SFmul_comm (prec emax : Z) (x y : SpecFloat.spec_float) :
  SpecFloat.SFmul prec emax x y = SpecFloat.SFmul prec emax y x.
Proof.
  destruct x as [sx|sx| |sx mx ex], y as [sy|sy| |sy my ey]; simpl;
    rewrite ?(xorb_comm sx sy), ?(Pos.mul_comm mx my), ?(Z.add_comm ex ey); reflexivity.
Qed.

Lemma binary64_mul_comm (x y : float) : PrimFloat.mul x y = PrimFloat.mul y x.
Proof. apply Prim2SF_inj. rewrite !FloatAxioms.mul_spec. apply SFmul_comm. Qed.

Lemma ltb_leb (x y : float) : PrimFloat.ltb x y = true -> PrimFloat.leb x y = true.
Proof.
  rewrite FloatAxioms.ltb_spec, FloatAxioms.leb_spec.
  unfold SpecFloat.SFltb, SpecFloat.SFleb.
  destruct (SpecFloat.SFcompare _ _) as [[]|]; auto; discriminate.
Qed.

Section Symmetry.
Context {num : Type} (A : Arith num).
Hypothesis mul_comm : forall x y, mul A x y = mul A y x.

Lemma accumulate_swap (a b : list num) (d ma mb : num) :
  fold_left (accumulate A) (combine b a) (d, mb, ma)
  = (let '(d', ma', mb') := fold_left (accumulate A) (combine a b) (d, ma, mb) in
     (d', mb', ma')).
Proof.
  revert b d ma mb. induction a as [|x a IH]; intros [|y b] d ma mb; simpl;
    try reflexivity.
  rewrite (mul_comm y x). apply IH.
Qed.

Lemma cosineSimilarity_swap (a b : list num) :
  cosineSimilarity A a b = cosineSimilarity A b a.
Proof.
  unfold cosineSimilarity. rewrite (Nat.eqb_sym (length b) (length a)).
  destruct (length a =? length b)%nat; [|reflexivity]. simpl negb. cbv iota.
  rewrite (accumulate_swap a b).
  destruct (fold_left (accumulate A) (combine a b) (zero A, zero A, zero A))
    as [[d ma] mb].
  rewrite (orb_comm (isZero A (sqrt A mb))), (mul_comm (sqrt A mb)). reflexivity.
Qed.
End Symmetry.

(** X1: in the arithmetic the code runs on, the similarity is symmetric
    for all vectors: similarity(a, b) and similarity(b, a) are the same
    number, or both throw. *)
Theorem cosineSimilarity_symmetric :
  forall a b : list float,
    cosineSimilarity binary64 a b = cosineSimilarity binary64 b a.
Proof.
  intros a b. apply cosineSimilarity_swap. exact binary64_mul_comm.
Qed.

Lemma clamp_binary64_range (s : float) : unitOrNaN (clamp binary64 s).
Proof.
  unfold clamp. cbn [max min zero one binary64].
  unfold mathMin.
  change (PrimFloat.is_nan 1%float) with false. cbn [orb].
  destruct (PrimFloat.is_nan s) eqn:Hn.
  - left. reflexivity.
  - assert (Hm : forall m, PrimFloat.is_nan m = false ->
                           PrimFloat.leb m 1%float = true ->
                           unitOrNaN (mathMax 0%float m)).
    { intros m Hnm Hle. unfold mathMax, unitOrNaN.
      change (PrimFloat.is_nan 0%float) with false. rewrite Hnm. cbn [orb].
      destruct (PrimFloat.ltb 0%float m) eqn:H0.
      - right. split; [apply ltb_leb; exact H0 | exact Hle].
      - destruct (PrimFloat.ltb m 0%float); right; split; reflexivity. }
    destruct (PrimFloat.ltb 1%float s).
    + apply Hm; reflexivity.
    + destruct (PrimFloat.ltb s 1%float) eqn:Hs.
      * apply Hm; [exact Hn | apply ltb_leb; exact Hs].
      * apply Hm; reflexivity.
Qed.

(** X2: whatever the vectors hold, a similarity that is returned is a
    number of [0, 1] or NaN; it is never negative, above 1 or infinite. *)
Theorem cosineSimilarity_unit_or_nan :
  forall (a b : list float) (r : float),
    cosineSimilarity binary64 a b = OK r -> unitOrNaN r.
Proof.
  intros a b r H. unfold cosineSimilarity in H.
  destruct (negb (length a =? length b)%nat); [discriminate|].
  destruct (fold_left (accumulate binary64) (combine a b) _) as [[d ma] mb].
  destruct (isZero binary64 _ || isZero binary64 _).
  - inversion H. right. split; reflexivity.
  - inversion H. apply clamp_binary64_range.
Qed.

Lemma cosineSimilarity_unit_or_nan_witness :
  unitOrNaN (PrimFloat.div 4%float 5%float).
Proof.
  apply (cosineSimilarity_unit_or_nan [1; 0]%float [4; 3]%float).
  vm_compute. reflexivity.
Defined.

(** The sort keeps the length; the ranking is made of the candidates. *)
Lemma slice0_length {X} (l : list X) (k : Z) :
  length (slice0 l k) = sliceCount (length l) k.
Proof.
  unfold slice0, sliceCount. destruct (k <? 0)%Z; rewrite length_firstn; lia.
Qed.

Lemma slice0_In {X} (l : list X) (k : Z) (x : X) : In x (slice0 l k) -> In x l.
Proof.
  unfold slice0. intros H.
  destruct (k <? 0)%Z;
    match type of H with
    | In _ (firstn ?n _) => rewrite <- (firstn_skipn n l); apply in_or_app; left; exact H
    end.
Qed.

(** X3: when every candidate has the query's length, the ranking holds
    exactly as many results as [slice(0, k)] keeps of the candidates (min(k, n)
    for k >= 0; n - |k|, down to none, for a negative k), and every result is
    a candidate, without its vector, with the similarity of that candidate. *)
Theorem findSimilarChunks_count_and_origin :
  forall (num : Type) (A : Arith num) (query : list num) (chunks : list (Chunk num)) (k : Z),
    Forall (fun c => length (embedding c) = length query) chunks ->
    exists results,
      findSimilarChunks A query chunks k = OK results
      /\ length results = sliceCount (length chunks) k
      /\ forall m, In m results -> exists c, In c chunks /\ m = matchOf A query c.
Proof.
  intros num A query chunks k Hlen.
  eexists. split; [apply findSimilarChunks_matching; exact Hlen|]. split.
  - rewrite length_map, slice0_length, sort_length, length_map. reflexivity.
  - intros m Hm. apply in_map_iff in Hm. destruct Hm as [s [<- Hs]].
    apply slice0_In in Hs. apply sort_In in Hs. apply in_map_iff in Hs.
    destruct Hs as [c [<- Hc]]. exists c. split; [exact Hc | reflexivity].
Qed.

Lemma findSimilarChunks_count_and_origin_witness :
  exists results,
    findSimilarChunks binary64 [1; 0]%float
      [candidate 0 [0; 1]%float; candidate 1 [1; 0]%float; candidate 2 [1; 0]%float] (-1)
    = OK results
    /\ length results = 2
    /\ forall m, In m results ->
         exists c,
           In c [candidate 0 [0; 1]%float; candidate 1 [1; 0]%float; candidate 2 [1; 0]%float]
           /\ m = matchOf binary64 [1; 0]%float c.
Proof.
  apply (findSimilarChunks_count_and_origin float binary64 [1; 0]%float
           [candidate 0 [0; 1]%float; candidate 1 [1; 0]%float; candidate 2 [1; 0]%float] (-1)).
  repeat constructor.
Defined.

(** The vector is a function of the hash of the text. *)
Lemma hashOf_app (s t : jsstring) : hashOf (s ++ t) = fold_left hashStep t (hashOf s).
Proof. unfold hashOf. apply fold_left_app. Qed.

(** X4: two texts with the same 32-bit hash get the same vector, component
    by component; so do "Aa" and "BB". *)
Theorem generateEmbedding_hash_collision :
  forall text text' : jsstring,
    hashOf text = hashOf text' -> generateEmbedding text = generateEmbedding text'.
Proof.
  intros text text' H. unfold generateEmbedding. apply map_ext. intros i.
  unfold component. rewrite !hashOf_app, H. reflexivity.
Qed.

Lemma generateEmbedding_hash_collision_witness :
  str "Aa" <> str "BB" /\ generateEmbedding (str "Aa") = generateEmbedding (str "BB").
Proof.
  split; [discriminate|].
  apply (generateEmbedding_hash_collision (str "Aa") (str "BB")). reflexivity.
Defined.

(* ================================================================== *)
(** * Further properties of the chunker                                 *)
(* ================================================================== *)

Lemma withStop_has_stop (group : list jsstring) :
  group <> [] -> In 46%Z (concat (map withStop group)).
Proof.
  destruct group as [|s group]; [congruence|]. intros _. simpl.
  apply in_or_app. left. unfold withStop. apply in_or_app. right. left. reflexivity.
Qed.

Lemma chunkOf_nonblank (group : list jsstring) :
  group <> [] -> (len (chunkOf group) >? 0)%Z = true.
Proof.
  intros H. pose proof (trim_In 46%Z _ eq_refl (withStop_has_stop group H)) as Hin.
  unfold chunkOf. destruct (trim _); [destruct Hin|].
  rewrite Z.gtb_ltb. apply Z.ltb_lt. unfold len. simpl. lia.
Qed.

(** The loop of the chunker keeps the sentences in groups. *)
Lemma loop_groups (maxSize : Z) (l : list jsstring) :
  forall (groups : list (list jsstring)) (group : list jsstring),
    Forall (fun g => g <> []) groups ->
    exists groups' group',
      fold_left (step maxSize) l (map chunkOf groups, concat (map withStop group))
      = (map chunkOf groups', concat (map withStop group'))
      /\ concat groups' ++ group' = (concat groups ++ group) ++ l
      /\ Forall (fun g => g <> []) groups'.
Proof.
  induction l as [|s l IH]; intros groups group Hg; cbn [fold_left].
  - exists groups, group. rewrite app_nil_r. auto.
  - unfold step at 2.
    destruct ((len (concat (map withStop group) ++ s ++ str ". ") >? maxSize)%Z
              && (len (concat (map withStop group)) >? 0)%Z) eqn:E.
    + assert (Hne : group <> []).
      { intros ->. apply andb_true_iff in E. destruct E as [_ E]. discriminate. }
      destruct (IH (groups ++ [group]) [s]) as [gs' [g' [E' [C' F']]]].
      { apply Forall_app. split; [exact Hg | constructor; [exact Hne | constructor]]. }
      exists gs', g'. split; [|split; [|exact F']].
      * rewrite <- E'. rewrite map_app. cbn [map concat]. unfold chunkOf at 2, withStop at 3.
        rewrite app_nil_r. reflexivity.
      * rewrite C'. rewrite concat_app. cbn [concat]. rewrite app_nil_r, <- !app_assoc.
        reflexivity.
    + destruct (IH groups (group ++ [s])) as [gs' [g' [E' [C' F']]]]; [exact Hg|].
      exists gs', g'. split; [|split; [|exact F']].
      * rewrite <- E'. rewrite map_app, concat_app. cbn [map concat].
        unfold withStop at 3. rewrite app_nil_r. reflexivity.
      * rewrite C'. rewrite <- !app_assoc. reflexivity.
Qed.

Lemma collected_groups (sentences : list jsstring) (maxSize : Z) :
  exists groups,
    concat groups = sentences
    /\ Forall (fun g => g <> []) groups
    /\ collected sentences maxSize = map chunkOf groups.
Proof.
  destruct (loop_groups maxSize sentences [] [] (Forall_nil _)) as [gs [g [E [C F]]]].
  unfold collected. cbn [map concat] in E. rewrite E. cbn [app] in C.
  destruct g as [|s g].
  - exists gs. rewrite app_nil_r in C. split; [exact C|]. split; [exact F|]. reflexivity.
  - exists (gs ++ [s :: g]). split; [|split].
    + rewrite concat_app. cbn [concat]. rewrite app_nil_r. exact C.
    + apply Forall_app. split; [exact F | constructor; [discriminate | constructor]].
    + change (trim (concat (map withStop (s :: g)))) with (chunkOf (s :: g)).
      rewrite chunkOf_nonblank by discriminate. rewrite map_app. reflexivity.
Qed.

Lemma concat_nonempty_length {X} (groups : list (list X)) :
  Forall (fun g => g <> []) groups -> length groups <= length (concat groups).
Proof.
  induction 1 as [|g groups Hg _ IH]; simpl; [lia|].
  rewrite length_app. destruct g; [congruence|]. simpl. lia.
Qed.

(** X5: the chunker loses no sentence and keeps their order: the chunks
    are made of consecutive groups of the sentences, one non-empty group
    per chunk, each chunk being its sentences, each followed by [". "],
    put together and trimmed; so there are no more chunks than sentences. *)
Theorem chunkText_groups_sentences :
  forall (text : jsstring) (maxSize : Z),
    sentencesOf text <> [] ->
    exists groups,
      concat groups = sentencesOf text
      /\ Forall (fun g => g <> []) groups
      /\ chunkText text maxSize = map chunkOf groups
      /\ length (chunkText text maxSize) <= length (sentencesOf text).
Proof.
  intros text maxSize Hne.
  destruct (collected_groups (sentencesOf text) maxSize) as [groups [C [F E]]].
  assert (Hc : chunkText text maxSize = map chunkOf groups).
  { unfold chunkText. rewrite <- E.
    pose proof (@collected_nonempty (sentencesOf text) maxSize Hne) as Hn.
    destruct (collected (sentencesOf text) maxSize); [congruence | reflexivity]. }
  exists groups. repeat split; auto.
  rewrite Hc, length_map, <- C. apply concat_nonempty_length. exact F.
Qed.

Lemma chunkText_groups_sentences_witness :
  exists groups,
    concat groups = sentencesOf (str "Hi there. You! ok")
    /\ Forall (fun g => g <> []) groups
    /\ chunkText (str "Hi there. You! ok") 12 = map chunkOf groups
    /\ length (chunkText (str "Hi there. You! ok") 12)
       <= length (sentencesOf (str "Hi there. You! ok")).
Proof.
  apply (chunkText_groups_sentences (str "Hi there. You! ok") 12).
  vm_compute. discriminate.
Defined.

(** What [trim] returns was in the string, and a buffer of sentences
    ends, once trimmed, with the full stop. *)
Lemma trimStart_incl (s : jsstring) (c : Z) : In c (trimStart s) -> In c s.
Proof.
  induction s as [|x s IH]; simpl; [tauto|].
  destruct (isWhite x); [intros H; right; apply IH; exact H | tauto].
Qed.

Lemma trim_incl (s : jsstring) (c : Z) : In c (trim s) -> In c s.
Proof.
  unfold trim, trimEnd. intros H. apply in_rev in H. apply trimStart_incl in H.
  apply in_rev in H. apply trimStart_incl in H. exact H.
Qed.

Lemma trimStart_keeps_stop (x : jsstring) :
  exists y, trimStart (x ++ str ". ") = y ++ str ". ".
Proof.
  induction x as [|c x IH]; simpl.
  - exists []. reflexivity.
  - destruct (isWhite c); [exact IH|]. exists (c :: x). reflexivity.
Qed.

Lemma trim_ends_with_stop (x : jsstring) :
  exists y, trim (x ++ str ". ") = y ++ [46%Z].
Proof.
  destruct (trimStart_keeps_stop x) as [y Hy]. exists y.
  unfold trim, trimEnd. rewrite Hy. rewrite rev_app_distr. simpl.
  rewrite rev_involutive. reflexivity.
Qed.

Lemma chunkOf_ends_with_stop (group : list jsstring) :
  group <> [] -> exists y, chunkOf group = y ++ [46%Z].
Proof.
  intros Hne. destruct (exists_last Hne) as [g [s ->]].
  unfold chunkOf. rewrite map_app, concat_app. cbn [map concat].
  rewrite app_nil_r. unfold withStop at 2. rewrite app_assoc.
  apply trim_ends_with_stop.
Qed.

(** The pieces of [split] hold no terminator. *)
Lemma splitFrom_no_terminator (text : jsstring) :
  forall (inRun : bool) (piece : jsstring),
    (forall c, In c piece -> isTerminator c = false) ->
    forall p c, In p (splitFrom inRun piece text) -> In c p -> isTerminator c = false.
Proof.
  induction text as [|x text IH]; intros inRun piece Hp p c Hin Hc; simpl in Hin.
  - destruct Hin as [<-|[]]. apply Hp. apply in_rev. exact Hc.
  - destruct (isTerminator x) eqn:Ex.
    + destruct inRun.
      * apply (IH true [] ltac:(intros ? []) p c Hin Hc).
      * destruct Hin as [<-|Hin].
        -- apply Hp. apply in_rev. exact Hc.
        -- apply (IH true [] ltac:(intros ? []) p c Hin Hc).
    + apply (IH false (x :: piece)) with (p := p); [|exact Hin | exact Hc].
      intros c' [<-|H']; [exact Ex | apply Hp; exact H'].
Qed.

Lemma sentencesOf_no_terminator (text s : jsstring) (c : Z) :
  In s (sentencesOf text) -> In c s -> isTerminator c = false.
Proof.
  intros Hs Hc. unfold sentencesOf in Hs. apply filter_In in Hs. destruct Hs as [Hs _].
  apply (splitFrom_no_terminator text false [] ltac:(intros ? []) s c Hs Hc).
Qed.

Lemma chunkOf_chars (group : list jsstring) (c : Z) :
  In c (chunkOf group) -> (exists s, In s group /\ In c s) \/ c = 46%Z \/ c = 32%Z.
Proof.
  intros H. apply trim_incl in H. apply in_concat in H. destruct H as [t [Ht Hc]].
  apply in_map_iff in Ht. destruct Ht as [s [<- Hs]]. unfold withStop in Hc.
  apply in_app_or in Hc. destruct Hc as [Hc|[Hc|[Hc|[]]]]; auto.
  left. exists s. auto.
Qed.

(** X6: when the text has a sentence, every chunk ends with a full stop
    and holds no exclamation mark and no question mark: whatever ended a
    sentence in the text, the chunk ends it with ".". *)
Theorem chunkText_normalizes_terminators :
  forall (text : jsstring) (maxSize : Z) (chunk : jsstring),
    sentencesOf text <> [] ->
    In chunk (chunkText text maxSize) ->
    (exists body, chunk = body ++ [46%Z])
    /\ ~ In 33%Z chunk /\ ~ In 63%Z chunk.
Proof.
  intros text maxSize chunk Hne Hin.
  destruct (collected_groups (sentencesOf text) maxSize) as [groups [C [F E]]].
  assert (Hc : chunkText text maxSize = map chunkOf groups).
  { unfold chunkText. rewrite <- E.
    pose proof (@collected_nonempty (sentencesOf text) maxSize Hne) as Hn.
    destruct (collected (sentencesOf text) maxSize); [congruence | reflexivity]. }
  rewrite Hc in Hin. apply in_map_iff in Hin. destruct Hin as [g [<- Hg]].
  rewrite Forall_forall in F.
  assert (Hno : forall c, isTerminator c = true -> c <> 46%Z -> ~ In c (chunkOf g)).
  { intros c Hc1 Hc2 Hin. apply chunkOf_chars in Hin.
    destruct Hin as [[s [Hs Hcs]]|[H46|H32]]; [|congruence|subst c; discriminate].
    assert (Hst : In s (sentencesOf text)).
    { rewrite <- C. apply in_concat. exists g. auto. }
    rewrite (sentencesOf_no_terminator text s c Hst Hcs) in Hc1. discriminate. }
  split; [apply chunkOf_ends_with_stop; apply F; exact Hg|].
  split; apply Hno; try reflexivity; discriminate.
Qed.

Lemma chunkText_normalizes_terminators_witness :
  (exists body, str "Hi.  Ok." = body ++ [46%Z])
  /\ ~ In 33%Z (str "Hi.  Ok.") /\ ~ In 63%Z (str "Hi.  Ok.").
Proof.
  apply (chunkText_normalizes_terminators (str "Hi! Ok?") 100 (str "Hi.  Ok.")).
  - vm_compute. discriminate.
  - vm_compute. left. reflexivity.
Defined.

(* ================================================================== *)
(** * Further properties of the routes' helpers                         *)
(* ================================================================== *)

Lemma startsWith_prefix (needle haystack : jsstring) :
  startsWith needle haystack = true <-> exists rest, haystack = needle ++ rest.
Proof.
  revert haystack. induction needle as [|x needle IH]; intros haystack; simpl.
  - split; [intros _; exists haystack; reflexivity | reflexivity].
  - destruct haystack as [|y haystack].
    + split; [discriminate | intros [rest H]; discriminate].
    + rewrite andb_true_iff, Z.eqb_eq, IH. split.
      * intros [-> [rest ->]]. exists rest. reflexivity.
      * intros [rest H]. inversion H. split; [reflexivity | exists rest; reflexivity].
Qed.

(** X7: [includes] is the substring test: it answers true exactly when
    the haystack is some text, the needle, and some text. *)
Theorem includes_substring :
  forall haystack needle : jsstring,
    includes haystack needle = true
    <-> exists before after, haystack = before ++ needle ++ after.
Proof.
  induction haystack as [|c haystack IH]; intros needle.
  - simpl. rewrite orb_false_r, startsWith_prefix. split.
    + intros [rest H]. exists [], rest. exact H.
    + intros [before [after H]]. destruct before; [|discriminate].
      exists after. exact H.
  - cbn [includes]. rewrite orb_true_iff, startsWith_prefix, IH. split.
    + intros [[rest H]|[before [after H]]].
      * exists [], rest. exact H.
      * exists (c :: before), after. rewrite H. reflexivity.
    + intros [before [after H]]. destruct before as [|b before].
      * left. exists after. exact H.
      * right. inversion H. exists before, after. reflexivity.
Qed.

(* ================================================================== *)
(** * Further properties of the store                                   *)
(* ================================================================== *)

Lemma mapGet_mapSet_other {V} (k k' : nat) (v : V) (m : list (nat * V)) :
  k' <> k -> mapGet k' (mapSet k v m) = mapGet k' m.
Proof.
  intros Hk. induction m as [|[k0 v0] m IH]; simpl.
  - replace (k' =? k)%nat with false by (symmetry; apply Nat.eqb_neq; exact Hk). reflexivity.
  - destruct (k =? k0)%nat eqn:E; simpl.
    + apply Nat.eqb_eq in E. subst k0.
      replace (k' =? k)%nat with false by (symmetry; apply Nat.eqb_neq; exact Hk). reflexivity.
    + rewrite IH. reflexivity.
Qed.

Lemma mapGet_mapDelete_same {V} (k : nat) (m : list (nat * V)) :
  mapGet k (mapDelete k m) = None.
Proof.
  induction m as [|[k0 v0] m IH]; simpl; [reflexivity|].
  destruct (k =? k0)%nat eqn:E; simpl; [exact IH|]. rewrite E. exact IH.
Qed.

Lemma mapGet_mapDelete_other {V} (k k' : nat) (m : list (nat * V)) :
  k' <> k -> mapGet k' (mapDelete k m) = mapGet k' m.
Proof.
  intros Hk. induction m as [|[k0 v0] m IH]; simpl; [reflexivity|].
  destruct (k =? k0)%nat eqn:E; simpl.
  - apply Nat.eqb_eq in E. subst k0.
    replace (k' =? k)%nat with false by (symmetry; apply Nat.eqb_neq; exact Hk). exact IH.
  - rewrite IH. reflexivity.
Qed.

(** X8: a created document is stored under a new UUID with the status
    [processing], no content and no processing date, and is what a lookup
    of that UUID then returns; the lookups of the other ids, the embeddings
    and the chat messages are as before. *)
Theorem createDocument_then_getDocument :
  forall (insertDocument : InsertDocument) (w : World),
    exists d w',
      createDocument insertDocument w = (OK d, w')
      /\ docId d = uuids w
      /\ status d = processing /\ docContent d = None /\ processedAt d = None
      /\ originalName d = newOriginalName insertDocument
      /\ getDocument (docId d) w' = (OK (Some d), w')
      /\ (forall id, id <> docId d -> documentAt id w' = documentAt id w)
      /\ embeddings (store w') = embeddings (store w)
      /\ chatMessages (store w') = chatMessages (store w).
Proof.
  intros ins w. run_store. eexists; eexists. split; [reflexivity|]. cbn.
  repeat split.
  - rewrite mapGet_mapSet. reflexivity.
  - intros id Hid. unfold documentAt. cbn. apply mapGet_mapSet_other. exact Hid.
Qed.

Lemma filter_filter {X} (p q : X -> bool) (l : list X) :
  filter p (filter q l) = filter (fun x => q x && p x) l.
Proof.
  induction l as [|x l IH]; simpl; [reflexivity|].
  destruct (q x); simpl; [destruct (p x)|]; rewrite IH; reflexivity.
Qed.

Lemma fold_mapDelete {V} (ks : list nat) (m : list (nat * V)) :
  fold_left (fun m id => mapDelete id m) ks m
  = filter (fun kv => negb (existsb (Nat.eqb (fst kv)) ks)) m.
Proof.
  revert m. induction ks as [|k ks IH]; intros m; simpl.
  - symmetry. apply forallb_filter_id. apply forallb_forall. reflexivity.
  - rewrite IH. unfold mapDelete. rewrite filter_filter. apply filter_ext.
    intros kv. rewrite negb_orb, (Nat.eqb_sym k). reflexivity.
Qed.

Lemma distinctKeys_same_value {V} (m : list (nat * V)) (k : nat) (v v' : V) :
  distinctKeys m -> In (k, v) m -> In (k, v') m -> v = v'.
Proof.
  unfold distinctKeys. induction m as [|[k0 v0] m IH]; simpl; intros Hn H1 H2; [tauto|].
  inversion Hn as [|? ? Hnot Hn']; subst.
  destruct H1 as [H1|H1], H2 as [H2|H2].
  - congruence.
  - inversion H1; subst. exfalso. apply Hnot. apply (in_map fst _ _ H2).
  - inversion H2; subst. exfalso. apply Hnot. apply (in_map fst _ _ H1).
  - apply IH; assumption.
Qed.

(** With distinct keys, deleting the embeddings of a document by their
    UUIDs leaves exactly the embeddings of the other documents. *)
Lemma deleteEmbeddingsByDocument_run (id : nat) (w : World) :
  distinctKeys (embeddings (store w)) ->
  exists w',
    deleteEmbeddingsByDocument id w = (OK tt, w')
    /\ embeddings (store w')
       = filter (fun kv => negb (embDocumentId (snd kv) =? id)%nat) (embeddings (store w))
    /\ documents (store w') = documents (store w)
    /\ chatMessages (store w') = chatMessages (store w).
Proof.
  intros Hd. unfold deleteEmbeddingsByDocument. run_store. eexists. split; [reflexivity|].
  cbn. repeat split. rewrite fold_mapDelete. apply filter_ext_in. intros [k e] Hin. cbn.
  f_equal. destruct (embDocumentId e =? id)%nat eqn:E.
  - apply existsb_exists. exists k. split; [|apply Nat.eqb_refl].
    apply in_map_iff. exists (k, e). split; [reflexivity|].
    apply filter_In. split; [exact Hin | exact E].
  - destruct (existsb (Nat.eqb k) _) eqn:Ex; [|reflexivity].
    apply existsb_exists in Ex. destruct Ex as [k' [Hk' Heq]].
    apply Nat.eqb_eq in Heq. subst k'. apply in_map_iff in Hk'.
    destruct Hk' as [[k1 e1] [Hk1 Hin1]]. cbn in Hk1. subst k1.
    apply filter_In in Hin1. destruct Hin1 as [Hin1 E1]. cbn in E1.
    rewrite (distinctKeys_same_value _ k e e1 Hd Hin Hin1) in E. congruence.
Qed.

Lemma persistedFor_after_delete (id id' : nat) (m : list (nat * Embedding)) :
  filter (fun e => (embDocumentId e =? id')%nat)
         (mapValues (filter (fun kv => negb (embDocumentId (snd kv) =? id)%nat) m))
  = if (id' =? id)%nat then []
    else filter (fun e => (embDocumentId e =? id')%nat) (mapValues m).
Proof.
  unfold mapValues. induction m as [|[k e] m IH]; simpl.
  - destruct (id' =? id)%nat; reflexivity.
  - destruct (embDocumentId e =? id)%nat eqn:E; simpl.
    + rewrite IH. destruct (id' =? id)%nat eqn:E'; [reflexivity|].
      apply Nat.eqb_eq in E. rewrite E, (Nat.eqb_sym id id'), E'. reflexivity.
    + rewrite IH. destruct (id' =? id)%nat eqn:E'.
      * apply Nat.eqb_eq in E'. subst id'. rewrite E. reflexivity.
      * reflexivity.
Qed.

(** X9: deleting a document that is stored removes it and every embedding
    that bears its id, and nothing else: the other documents, their
    embeddings and the chat messages stay.  Deleting an id that is not
    stored changes nothing, so embeddings that bear such an id are not
    removed. *)
Theorem deleteDocument_cascades :
  forall (id : nat) (w : World),
    distinctKeys (embeddings (store w)) ->
    (documentAt id w = None -> deleteDocument id w = (OK tt, w))
    /\ (documentAt id w <> None ->
        exists w',
          deleteDocument id w = (OK tt, w')
          /\ documentAt id w' = None
          /\ persistedFor id w' = []
          /\ (forall id', id' <> id ->
                documentAt id' w' = documentAt id' w
                /\ persistedFor id' w' = persistedFor id' w)
          /\ chatMessages (store w') = chatMessages (store w)).
Proof.
  intros id w Hd. unfold documentAt. split.
  - intros H. unfold deleteDocument, bind, getStore. cbn. rewrite H. reflexivity.
  - intros H. destruct (mapGet id (documents (store w))) as [d|] eqn:E; [|congruence].
    set (w1 := {| store := {| documents := mapDelete id (documents (store w));
                              embeddings := embeddings (store w);
                              chatMessages := chatMessages (store w) |};
                  uuids := uuids w; dates := dates w; wallClock := wallClock w;
                  journal := journal w |}).
    destruct (deleteEmbeddingsByDocument_run id w1 Hd) as [w' [E' [M [D C]]]].
    exists w'. split; [|split; [|split; [|split]]].
    + unfold deleteDocument.
      assert (Eg : getStore w = (OK (store w), w)) by reflexivity.
      rewrite (@bind_ok _ _ _ _ w w _ Eg). rewrite E.
      assert (Es : setDocuments (mapDelete id (documents (store w))) w = (OK tt, w1))
        by reflexivity.
      rewrite (@bind_ok _ _ _ _ w w1 _ Es). exact E'.
    + rewrite D. cbn. apply mapGet_mapDelete_same.
    + unfold persistedFor. rewrite M.
      change (embeddings (store w1)) with (embeddings (store w)).
      rewrite persistedFor_after_delete, Nat.eqb_refl. reflexivity.
    + intros id' Hid. split.
      * rewrite D. cbn. apply mapGet_mapDelete_other. exact Hid.
      * unfold persistedFor. rewrite M.
        change (embeddings (store w1)) with (embeddings (store w)).
        rewrite persistedFor_after_delete.
        replace (id' =? id)%nat with false by (symmetry; apply Nat.eqb_neq; exact Hid).
        reflexivity.
    + rewrite C. reflexivity.
Qed.

Lemma deleteDocument_cascades_witness :
  (exists w',
      deleteDocument 0 twoDocuments = (OK tt, w')
      /\ documentAt 0 w' = None
      /\ persistedFor 0 w' = []
      /\ (forall id', id' <> 0 ->
            documentAt id' w' = documentAt id' twoDocuments
            /\ persistedFor id' w' = persistedFor id' twoDocuments)
      /\ chatMessages (store w') = chatMessages (store twoDocuments))
  /\ deleteDocument 7 twoDocuments = (OK tt, twoDocuments).
Proof.
  assert (Hd : distinctKeys (embeddings (store twoDocuments))).
  { unfold distinctKeys. cbn. repeat constructor; cbn; intuition discriminate. }
  split.
  - apply (proj2 (deleteDocument_cascades 0 twoDocuments Hd)). discriminate.
  - apply (proj1 (deleteDocument_cascades 7 twoDocuments Hd)). reflexivity.
Defined.

(** Sorting by a date. *)
Section SortByKey.
Context {X : Type} (key : X -> Z).

Lemma consistent_ascending (l : list X) :
  consistentAfter (fun a b => (key a - key b >? 0)%Z) l.
Proof.
  intros x y z _ _ _. rewrite !Z.gtb_ltb, !Z.ltb_lt. split.
  - intros H. apply Z.ltb_ge. lia.
  - intros H. lia.
Qed.

Lemma consistent_descending (l : list X) :
  consistentAfter (fun a b => (key b - key a >? 0)%Z) l.
Proof.
  intros x y z _ _ _. rewrite !Z.gtb_ltb, !Z.ltb_lt. split.
  - intros H. apply Z.ltb_ge. lia.
  - intros H. lia.
Qed.
End SortByKey.

Lemma insert_permutation {X} (after : X -> X -> bool) (a : X) (l : list X) :
  Permutation (insert after a l) (a :: l).
Proof.
  induction l as [|y l IH]; simpl; [reflexivity|].
  destruct (after a y); [|reflexivity].
  rewrite IH. apply perm_swap.
Qed.

Lemma sort_permutation {X} (after : X -> X -> bool) (l : list X) :
  Permutation (sort after l) l.
Proof.
  induction l as [|a l IH]; simpl; [reflexivity|].
  rewrite insert_permutation. constructor. exact IH.
Qed.

Lemma StronglySorted_weaken {X} (R R' : X -> X -> Prop) (l : list X) :
  (forall x y, R x y -> R' x y) -> StronglySorted R l -> StronglySorted R' l.
Proof.
  intros H. induction 1 as [|x l Hs IH Hx]; constructor; [exact IH|].
  rewrite Forall_forall in *. intros y Hy. apply H, Hx, Hy.
Qed.

(** X10: when a document exists, listing the chat messages changes nothing
    and returns the last twelve of the stored messages put in the order of
    their dates, oldest first: at most twelve messages, all of them stored,
    none older than a stored message that is left out. *)
Theorem getAllChatMessages_window :
  forall w : World,
    documents (store w) <> [] ->
    exists older msgs,
      getAllChatMessages w = (OK msgs, w)
      /\ length msgs = Nat.min 12 (length (chatMessages (store w)))
      /\ Permutation (older ++ msgs) (mapValues (chatMessages (store w)))
      /\ StronglySorted (fun a b => (msgCreatedAt a <= msgCreatedAt b)%Z) (older ++ msgs).
Proof.
  intros w Hd.
  set (after := fun a b : ChatMessage => (msgCreatedAt a - msgCreatedAt b >? 0)%Z).
  set (sorted := sort after (mapValues (chatMessages (store w)))).
  exists (firstn (length sorted - 12) sorted), (sliceLast sorted 12).
  split; [|split; [|split]].
  - unfold getAllChatMessages, bind, getStore, ret. cbn.
    destruct (documents (store w)); [congruence | reflexivity].
  - unfold sliceLast. rewrite length_skipn. unfold sorted.
    rewrite sort_length. unfold mapValues. rewrite length_map. lia.
  - unfold sliceLast. rewrite firstn_skipn. apply sort_permutation.
  - unfold sliceLast. rewrite firstn_skipn.
    apply (StronglySorted_weaken (keeps after)).
    + unfold keeps, after. intros x y H. rewrite Z.gtb_ltb in H. apply Z.ltb_ge in H. lia.
    + apply sort_sorted. apply (consistent_ascending msgCreatedAt).
Qed.

Lemma getAllChatMessages_window_witness :
  exists older msgs,
    getAllChatMessages conversation = (OK msgs, conversation)
    /\ length msgs = Nat.min 12 (length (chatMessages (store conversation)))
    /\ Permutation (older ++ msgs) (mapValues (chatMessages (store conversation)))
    /\ StronglySorted (fun a b => (msgCreatedAt a <= msgCreatedAt b)%Z) (older ++ msgs).
Proof.
  apply (getAllChatMessages_window conversation). discriminate.
Defined.

(** X11: listing the documents changes nothing and returns every stored
    document once, the latest upload first. *)
Theorem getAllDocuments_newest_first :
  forall w : World,
    exists docs,
      getAllDocuments w = (OK docs, w)
      /\ Permutation docs (mapValues (documents (store w)))
      /\ StronglySorted (fun a b => (uploadedAt b <= uploadedAt a)%Z) docs.
Proof.
  intros w. eexists. split; [reflexivity|]. split.
  - apply sort_permutation.
  - apply (StronglySorted_weaken
             (keeps (fun a b : Document => (uploadedAt b - uploadedAt a >? 0)%Z))).
    + unfold keeps. intros x y H. rewrite Z.gtb_ltb in H. apply Z.ltb_ge in H. lia.
    + apply sort_sorted. apply (consistent_descending uploadedAt).
Qed.

(** One insertion, and a batch of insertions, with UUIDs that do not
    repeat. *)
Lemma createEmbedding_payload (ins : InsertEmbedding) (w : World) :
  uuidsFresh w ->
  exists e w',
    createEmbedding ins w = (OK e, w')
    /\ payload e = payloadOf ins
    /\ embId e = uuids w
    /\ embeddings (store w') = embeddings (store w) ++ [(uuids w, e)]
    /\ uuids w' = S (uuids w)
    /\ uuidsFresh w'
    /\ documents (store w') = documents (store w)
    /\ chatMessages (store w') = chatMessages (store w)
    /\ journal w' = journal w.
Proof.
  intros Hf. run_store. eexists; eexists. split; [reflexivity|]. cbn.
  rewrite (mapSet_fresh _ _ _ Hf). repeat split.
  intros k e Hin. cbn in *. apply in_app_or in Hin. destruct Hin as [Hin|[Hin|[]]].
  - apply Hf in Hin. lia.
  - inversion Hin. lia.
Qed.

Lemma createEmbeddingsBatch_payload (inserts : list InsertEmbedding) (w : World) :
  uuidsFresh w ->
  exists es w',
    createEmbeddingsBatch inserts w = (OK es, w')
    /\ map payload es = map payloadOf inserts
    /\ map embId es = seq (uuids w) (length inserts)
    /\ mapValues (embeddings (store w')) = mapValues (embeddings (store w)) ++ es
    /\ uuids w' = uuids w + length inserts
    /\ uuidsFresh w'
    /\ documents (store w') = documents (store w)
    /\ chatMessages (store w') = chatMessages (store w)
    /\ journal w' = journal w.
Proof.
  revert w. induction inserts as [|ins inserts IH]; intros w Hf.
  - exists [], w. cbn. rewrite app_nil_r, Nat.add_0_r. repeat split. exact Hf.
  - destruct (createEmbedding_payload ins w Hf)
      as [e [w1 [E1 [P1 [I1 [M1 [U1 [F1 [D1 [C1 J1]]]]]]]]]].
    destruct (IH w1 F1) as [es [w2 [E2 [P2 [I2 [M2 [U2 [F2 [D2 [C2 J2]]]]]]]]]].
    exists (e :: es), w2. split; [|repeat split].
    + cbn [createEmbeddingsBatch].
      rewrite (@bind_ok _ _ _ _ w w1 _ E1). rewrite (@bind_ok _ _ _ _ w1 w2 _ E2).
      reflexivity.
    + cbn. rewrite P1, P2. reflexivity.
    + cbn. rewrite I1, I2, U1. reflexivity.
    + rewrite M2, M1. unfold mapValues. rewrite map_app, <- app_assoc. reflexivity.
    + rewrite U2, U1. cbn. lia.
    + exact F2.
    + congruence.
    + congruence.
    + congruence.
Qed.

(** X12: with UUIDs that do not repeat, a batch insertion stores the
    records it is given, in their order, after the embeddings already stored,
    under consecutive new UUIDs, and returns them; the documents, the chat
    messages and the statuses are untouched. *)
Theorem createEmbeddingsBatch_appends :
  forall (inserts : list InsertEmbedding) (w : World),
    uuidsFresh w ->
    exists es w',
      createEmbeddingsBatch inserts w = (OK es, w')
      /\ map payload es = map payloadOf inserts
      /\ map embId es = seq (uuids w) (length inserts)
      /\ getAllEmbeddings w' = (OK (mapValues (embeddings (store w)) ++ es), w')
      /\ documents (store w') = documents (store w)
      /\ chatMessages (store w') = chatMessages (store w)
      /\ journal w' = journal w.
Proof.
  intros inserts w Hf.
  destruct (createEmbeddingsBatch_payload inserts w Hf)
    as [es [w' [E [P [I [M [_ [_ [D [C J]]]]]]]]]].
  exists es, w'. repeat split; auto.
  unfold getAllEmbeddings, bind, getStore, ret. rewrite M. reflexivity.
Qed.

Lemma createEmbeddingsBatch_appends_witness :
  exists es w',
    createEmbeddingsBatch
      [ {| newDocumentId := 1; newContent := str "A."; newEmbedding := [0.5%float];
           newMetadata := None; newOriginalIndex := Some 0 |};
        {| newDocumentId := 1; newContent := str "B."; newEmbedding := [0.25%float];
           newMetadata := None; newOriginalIndex := Some 1 |} ] twoDocuments
    = (OK es, w')
    /\ map payload es
       = [ (1, str "A.", [0.5%float], None, Some 0); (1, str "B.", [0.25%float], None, Some 1) ]
    /\ map embId es = [5; 6]
    /\ getAllEmbeddings w' = (OK (mapValues (embeddings (store twoDocuments)) ++ es), w')
    /\ documents (store w') = documents (store twoDocuments)
    /\ chatMessages (store w') = chatMessages (store twoDocuments)
    /\ journal w' = journal twoDocuments.
Proof.
  assert (Hf : uuidsFresh twoDocuments).
  { intros k e Hin. cbn in Hin.
    destruct Hin as [H|[H|[H|[]]]]; inversion H; cbn; lia. }
  exact (createEmbeddingsBatch_appends
           [ {| newDocumentId := 1; newContent := str "A."; newEmbedding := [0.5%float];
                newMetadata := None; newOriginalIndex := Some 0 |};
             {| newDocumentId := 1; newContent := str "B."; newEmbedding := [0.25%float];
                newMetadata := None; newOriginalIndex := Some 1 |} ] twoDocuments Hf).
Defined.

(** X13: a status update of a stored document writes the status; it
    replaces the content only when a content is given, sets the processing
    date only when the status is [completed], and leaves the name, the type,
    the size and the upload date, the other documents, the embeddings and
    the chat messages as they are.  On an id that is not stored it does
    nothing. *)
Theorem updateDocumentStatus_writes_one_document :
  forall (id : nat) (newStatus : Status) (content : option jsstring) (w : World),
    (documentAt id w = None -> updateDocumentStatus id newStatus content w = (OK tt, w))
    /\ (forall d, documentAt id w = Some d ->
          exists d' w',
            updateDocumentStatus id newStatus content w = (OK tt, w')
            /\ documentAt id w' = Some d'
            /\ status d' = newStatus
            /\ docContent d' = match content with Some c => Some c | None => docContent d end
            /\ processedAt d' = (if statusEqb newStatus completed
                                 then Some (wallClock w (dates w)) else processedAt d)
            /\ (docId d', filename d', originalName d', mimeType d', size d', uploadedAt d')
               = (docId d, filename d, originalName d, mimeType d, size d, uploadedAt d)
            /\ (forall id', id' <> id -> documentAt id' w' = documentAt id' w)
            /\ embeddings (store w') = embeddings (store w)
            /\ chatMessages (store w') = chatMessages (store w)).
Proof.
  intros id st content w. unfold documentAt. split.
  - intros H. unfold updateDocumentStatus, bind, getStore, ret. cbn. rewrite H. reflexivity.
  - intros d H. unfold updateDocumentStatus, bind, getStore. cbn. rewrite H.
    unfold record, setDocuments, bind, getStore, putStore, newDate, ret. cbn.
    destruct (statusEqb st completed); cbn;
      (eexists; eexists; split; [reflexivity|]; cbn;
       split; [apply mapGet_mapSet|]; repeat split;
       intros id' Hid; apply mapGet_mapSet_other; exact Hid).
Qed.

Lemma updateDocumentStatus_writes_one_document_witness :
  exists d' w',
    updateDocumentStatus 0 failed None twoDocuments = (OK tt, w')
    /\ documentAt 0 w' = Some d'
    /\ status d' = failed
    /\ docContent d' = Some (str "Hi")
    /\ updateDocumentStatus 9 failed None twoDocuments = (OK tt, twoDocuments).
Proof.
  destruct (updateDocumentStatus_writes_one_document 0 failed None twoDocuments) as [_ H].
  destruct (H _ eq_refl) as [d' [w' [E [G [S [C _]]]]]].
  exists d', w'. split; [exact E|]. split; [exact G|]. split; [exact S|]. split; [exact C|].
  apply (proj1 (updateDocumentStatus_writes_one_document 9 failed None twoDocuments)).
  reflexivity.
Defined.

(* ================================================================== *)
(** * Further properties of the ingestion pipeline                      *)
(* ================================================================== *)

(** ** The batches cover the chunks *)

Lemma firstn_plus {X} (n m : nat) (l : list X) :
  firstn (n + m) l = firstn n l ++ firstn m (skipn n l).
Proof.
  revert l. induction n as [|n IH]; intros [|x l]; cbn; try reflexivity.
  - rewrite firstn_nil. reflexivity.
  - rewrite IH. reflexivity.
Qed.

Lemma indexed_app (start : nat) (l1 l2 : list jsstring) :
  indexed start (l1 ++ l2) = indexed start l1 ++ indexed (start + length l1) l2.
Proof.
  unfold indexed. revert start.
  induction l1 as [|a l1 IH]; intros start; cbn [app length seq combine].
  - rewrite Nat.add_0_r. reflexivity.
  - rewrite IH. replace (S start + length l1) with (start + S (length l1)) by lia.
    reflexivity.
Qed.

Lemma batchOf_indexed (chunks : list jsstring) (batchSize batchIndex : nat) :
  batchOf chunks batchSize batchIndex
  = indexed (batchIndex * batchSize)
            (firstn batchSize (skipn (batchIndex * batchSize) chunks)).
Proof.
  unfold batchOf, indexed. cbv zeta.
  set (start := batchIndex * batchSize).
  assert (H : firstn (Nat.min (start + batchSize) (length chunks) - start) (skipn start chunks)
              = firstn batchSize (skipn start chunks)).
  { pose proof (length_skipn start chunks) as Hl.
    destruct (Nat.le_gt_cases batchSize (length (skipn start chunks))) as [Hle|Hgt].
    - replace (Nat.min (start + batchSize) (length chunks) - start) with batchSize by lia.
      reflexivity.
    - rewrite (firstn_all2 (n := batchSize)) by lia. apply firstn_all2. lia. }
  rewrite H. reflexivity.
Qed.

Lemma batches_prefix (chunks : list jsstring) (batchSize count : nat) :
  concat (map (batchOf chunks batchSize) (seq 0 count))
  = indexed 0 (firstn (count * batchSize) chunks).
Proof.
  induction count as [|count IH]; [reflexivity|].
  rewrite seq_S, map_app, concat_app, IH. cbn [map concat Nat.add]. rewrite app_nil_r.
  rewrite batchOf_indexed.
  replace (S count * batchSize) with (count * batchSize + batchSize) by lia.
  rewrite firstn_plus, indexed_app. f_equal. cbn [Nat.add].
  destruct (Nat.le_gt_cases (count * batchSize) (length chunks)) as [Hle|Hgt].
  - rewrite length_firstn.
    replace (Nat.min (count * batchSize) (length chunks)) with (count * batchSize) by lia.
    reflexivity.
  - rewrite (skipn_all2 chunks) by lia. rewrite firstn_nil. reflexivity.
Qed.

Lemma batches_cover (chunks : list jsstring) (batchSize : nat) :
  (batchSize = 0 -> chunks = []) ->
  concat (map (batchOf chunks batchSize)
              (seq 0 (totalBatchesOf (length chunks) batchSize)))
  = indexed 0 chunks.
Proof.
  intros H0. unfold totalBatchesOf.
  destruct (batchSize =? 0)%nat eqn:Hb.
  - apply Nat.eqb_eq in Hb. rewrite (H0 Hb). reflexivity.
  - apply Nat.eqb_neq in Hb. rewrite batches_prefix. rewrite firstn_all2; [reflexivity|].
    pose proof (Nat.div_mod_eq (length chunks + batchSize - 1) batchSize) as Hd.
    pose proof (Nat.mod_upper_bound (length chunks + batchSize - 1) batchSize Hb) as Hm.
    nia.
Qed.

Lemma nonNull_app {A} (l1 l2 : list (option A)) :
  nonNull (l1 ++ l2) = nonNull l1 ++ nonNull l2.
Proof.
  induction l1 as [|[a|] l1 IH]; cbn; [reflexivity| |exact IH].
  rewrite IH. reflexivity.
Qed.

Lemma nonNull_concat {A B} (g : A -> option B) (ls : list (list A)) :
  concat (map (fun l => nonNull (map g l)) ls) = nonNull (map g (concat ls)).
Proof.
  induction ls as [|l ls IH]; cbn; [reflexivity|].
  rewrite map_app, nonNull_app, IH. reflexivity.
Qed.

Lemma forEach_app {A} (l1 l2 : list A) (body : A -> M unit) (w : World) :
  forEach (l1 ++ l2) body w = bind (forEach l1 body) (fun _ => forEach l2 body) w.
Proof.
  revert w. induction l1 as [|x l1 IH]; intros w; [reflexivity|].
  cbn [app forEach]. unfold bind in *.
  destruct (body x w) as [[[]|e] w1]; [apply IH | reflexivity].
Qed.

Lemma forEach_concat {A B} (f : A -> list B) (xs : list A) (body : B -> M unit) (w : World) :
  forEach xs (fun x => forEach (f x) body) w = forEach (concat (map f xs)) body w.
Proof.
  revert w. induction xs as [|x xs IH]; intros w; [reflexivity|].
  cbn [map concat forEach]. rewrite forEach_app. unfold bind.
  destruct (forEach (f x) body w) as [[[]|e] w1]; [apply IH | reflexivity].
Qed.

(** ** What the two pipelines store *)

Lemma updateDocumentStatus_run (id : nat) (st : Status) (content : option jsstring)
  (w : World) (d : Document) :
  mapGet id (documents (store w)) = Some d ->
  exists w' d',
    updateDocumentStatus id st content w = (OK tt, w')
    /\ mapGet id (documents (store w')) = Some d'
    /\ status d' = st
    /\ docContent d' = match content with Some c => Some c | None => docContent d end
    /\ embeddings (store w') = embeddings (store w)
    /\ chatMessages (store w') = chatMessages (store w)
    /\ uuids w' = uuids w.
Proof.
  intros H. unfold updateDocumentStatus, bind, getStore. cbn. rewrite H.
  unfold record, setDocuments, bind, getStore, putStore, newDate, ret. cbn.
  destruct (statusEqb st completed); cbn;
    (eexists; eexists; split; [reflexivity|]; cbn;
     split; [apply mapGet_mapSet|]; repeat split).
Qed.

Lemma uuidsFresh_same (w w' : World) :
  embeddings (store w') = embeddings (store w) -> uuids w' = uuids w ->
  uuidsFresh w -> uuidsFresh w'.
Proof.
  intros He Hu Hf k e Hin. rewrite He in Hin. rewrite Hu. apply (Hf k e Hin).
Qed.

Lemma storeLoop_appends (f : nat -> list InsertEmbedding) (xs : list nat) (w : World) :
  uuidsFresh w ->
  exists es w',
    forEach xs (fun i => if (0 <? length (f i))%nat
                         then bind (createEmbeddingsBatch (f i)) (fun _ => ret tt)
                         else ret tt) w = (OK tt, w')
    /\ map payload es = map payloadOf (concat (map f xs))
    /\ mapValues (embeddings (store w')) = mapValues (embeddings (store w)) ++ es
    /\ uuidsFresh w'.
Proof.
  revert w. induction xs as [|x xs IH]; intros w Hf.
  - exists [], w. cbn. rewrite app_nil_r. repeat split. exact Hf.
  - cbn [forEach map concat].
    destruct (0 <? length (f x))%nat eqn:Hx.
    + destruct (createEmbeddingsBatch_payload (f x) w Hf)
        as [es1 [w1 [E1 [P1 [_ [M1 [_ [F1 _]]]]]]]].
      destruct (IH w1 F1) as [es2 [w2 [E2 [P2 [M2 F2]]]]].
      exists (es1 ++ es2), w2. split; [|split; [|split]].
      * rewrite (@bind_ok _ _ _ _ w w1 tt
                   (@bind_ok _ _ _ (fun _ => ret tt) w w1 _ E1)). exact E2.
      * rewrite !map_app, P1, P2. reflexivity.
      * rewrite M2, M1, app_assoc. reflexivity.
      * exact F2.
    + apply Nat.ltb_ge in Hx. assert (Hn : f x = []) by (destruct (f x); [reflexivity | cbn in Hx; lia]).
      destruct (IH w Hf) as [es2 [w2 [E2 [P2 [M2 F2]]]]].
      exists es2, w2. rewrite Hn. cbn [app]. repeat split; assumption.
Qed.

Section Stored.

Variable extractText : jsstring -> jsstring -> jsstring -> result jsstring.
Variable extractFromDomain : jsstring -> result jsstring.
Variable generateEmbedding : jsstring -> result (list float).

Lemma storeBatches_run (id : nat) (chunks : list jsstring) (w : World) :
  uuidsFresh w ->
  exists es w',
    storeBatches generateEmbedding id chunks w = (OK tt, w')
    /\ map payload es = map payloadOf (acceptedRecords generateEmbedding id chunks)
    /\ mapValues (embeddings (store w')) = mapValues (embeddings (store w)) ++ es.
Proof.
  intros Hf.
  set (batchSize := Nat.min 100 (length chunks)).
  destruct (storeLoop_appends
              (fun i => nonNull (map (embedChunk generateEmbedding id (length chunks))
                                     (batchOf chunks batchSize i)))
              (seq 0 (totalBatchesOf (length chunks) batchSize)) w Hf)
    as [es [w' [E [P [Hm _]]]]].
  exists es, w'. split; [exact E|]. split; [|exact Hm].
  rewrite P. unfold acceptedRecords.
  rewrite <- (batches_cover chunks batchSize).
  - rewrite <- nonNull_concat, map_map. reflexivity.
  - unfold batchSize. intros H0. destruct chunks; [reflexivity | cbn in H0; lia].
Qed.

Lemma embedUrlChunks_run (id total : nat) (url : jsstring) (batch : list (nat * jsstring))
  (w : World) :
  uuidsFresh w ->
  exists es w',
    forEach batch (embedUrlChunk generateEmbedding id total url) w = (OK tt, w')
    /\ map payload es = map payloadOf (urlRecords generateEmbedding id total url batch)
    /\ mapValues (embeddings (store w')) = mapValues (embeddings (store w)) ++ es
    /\ documents (store w') = documents (store w)
    /\ chatMessages (store w') = chatMessages (store w).
Proof.
  revert w. induction batch as [|[i c] batch IH]; intros w Hf.
  - exists [], w. cbn. rewrite app_nil_r. repeat split.
  - cbn [forEach urlRecords flat_map snd fst].
    unfold embedUrlChunk at 1. unfold tryCatch, bind at 1.
    destruct (generateEmbedding c) as [v|e] eqn:Hv.
    + set (ins := {| newDocumentId := id; newContent := c; newEmbedding := v;
                     newMetadata := Some {| chunkIndex := i; totalChunks := total;
                                            source := Some (str "url");
                                            originalUrl := Some url |};
                     newOriginalIndex := None |}).
      destruct (createEmbedding_payload ins w Hf)
        as [e1 [w1 [E1 [P1 [_ [M1 [_ [F1 [D1 [C1 _]]]]]]]]]].
      destruct (IH w1 F1) as [es [w2 [E2 [P2 [M2 [D2 C2]]]]]].
      exists (e1 :: es), w2. split; [|split; [|split; [|split]]].
      * unfold await, bind at 1. unfold bind at 1. fold ins. rewrite E1. cbn [ret]. exact E2.
      * cbn [map app]. rewrite P1. f_equal. exact P2.
      * unfold mapValues in *. rewrite M2, M1, map_app, <- app_assoc. reflexivity.
      * congruence.
      * congruence.
    + destruct (IH w Hf) as [es [w2 [E2 [P2 [M2 [D2 C2]]]]]].
      exists es, w2. split; [|repeat split; assumption].
      unfold await. cbn [ret]. exact E2.
Qed.

Lemma storeUrlBatches_run (id : nat) (url : jsstring) (chunks : list jsstring) (w : World) :
  uuidsFresh w ->
  exists es w',
    storeUrlBatches generateEmbedding id url chunks w = (OK tt, w')
    /\ map payload es
       = map payloadOf (urlRecords generateEmbedding id (length chunks) url (indexed 0 chunks))
    /\ mapValues (embeddings (store w')) = mapValues (embeddings (store w)) ++ es
    /\ documents (store w') = documents (store w)
    /\ chatMessages (store w') = chatMessages (store w).
Proof.
  intros Hf. unfold storeUrlBatches. cbv zeta.
  rewrite (forEach_concat (batchOf chunks (Nat.min 50 (length chunks)))).
  rewrite batches_cover.
  - apply embedUrlChunks_run. exact Hf.
  - intros H0. destruct chunks; [reflexivity | cbn in H0; lia].
Qed.

Lemma processDocumentBody_run (id : nat) (filePath : jsstring) (w : World)
  (d : Document) (text : jsstring) :
  mapGet id (documents (store w)) = Some d ->
  extractText filePath (mimeType d) (originalName d) = OK text ->
  exists w1 w2 w' d',
    embeddings (store w1) = embeddings (store w)
    /\ uuids w1 = uuids w
    /\ storeBatches generateEmbedding id (chunkText text defaultMaxChunkSize) w1 = (OK tt, w2)
    /\ processDocumentBody extractText generateEmbedding id filePath w = (OK tt, w')
    /\ embeddings (store w') = embeddings (store w2)
    /\ mapGet id (documents (store w')) = Some d'
    /\ status d' = completed
    /\ docContent d' = Some text
    /\ chatMessages (store w') = chatMessages (store w).
Proof.
  intros Hd Hx. unfold processDocumentBody.
  rewrite (@bind_ok _ _ _ _ w w _ (getDocument_run id w)). rewrite Hd. rewrite Hx.
  assert (Ea : await (OK text) w = (OK text, w)) by reflexivity.
  rewrite (@bind_ok _ _ _ _ w w _ Ea).
  destruct (updateDocumentStatus_run id processing (Some text) w _ Hd)
    as [w1 [d1 [E1 [G1 [S1 [T1 [M1 [C1 U1]]]]]]]].
  rewrite (@bind_ok _ _ _ _ w w1 _ E1).
  destruct (quiet_storeBatches generateEmbedding id (chunkText text defaultMaxChunkSize) w1)
    as [[] [w2 [E2 [D2 [J2 C2]]]]].
  rewrite (@bind_ok _ _ _ _ w1 w2 _ E2).
  destruct (quiet_readLastChunk text defaultMaxChunkSize w2) as [[] [w3 [E3 _]]].
  assert (w3 = w2) as ->.
  { unfold readLastChunk in E3. destruct (last _ _); inversion E3; reflexivity. }
  rewrite (@bind_ok _ _ _ _ w2 w2 _ E3).
  assert (E4 : getEmbeddingsByDocument id w2
               = (OK (filter (fun e => (embDocumentId e =? id)%nat)
                             (mapValues (embeddings (store w2)))), w2)) by reflexivity.
  rewrite (@bind_ok _ _ _ _ w2 w2 _ E4).
  assert (G2 : mapGet id (documents (store w2)) = Some d1) by (rewrite D2; exact G1).
  destruct (updateDocumentStatus_run id completed None w2 _ G2)
    as [w5 [d5 [E5 [G5 [S5 [T5 [M5 [C5 U5]]]]]]]].
  rewrite (@bind_ok _ _ _ _ w2 w5 _ E5).
  exists w1, w2, w5, d5. repeat split; auto; congruence.
Qed.

End Stored.

(** X14: when the text of a stored document is extracted, and the UUIDs
    do not repeat, the file pipeline ends without error for any number of
    chunks: the document is [completed] and holds the extracted text, and
    what is stored after the embeddings already there is, in the order of the
    chunks, one record for each chunk the vectorizer accepts, with the chunk,
    its vector, its index and the number of chunks; the chat messages are
    untouched. *)
Theorem processDocumentAsync_stores_accepted_chunks :
  forall (extractText : jsstring -> jsstring -> jsstring -> result jsstring)
         (generateEmbedding : jsstring -> result (list float))
         (w : World) (documentId : nat) (filePath : jsstring)
         (document : Document) (text : jsstring),
    uuidsFresh w ->
    documentAt documentId w = Some document ->
    extractText filePath (mimeType document) (originalName document) = OK text ->
    exists es w' document',
      processDocumentAsync extractText generateEmbedding documentId filePath w = (OK tt, w')
      /\ mapValues (embeddings (store w')) = mapValues (embeddings (store w)) ++ es
      /\ map payload es
         = map payloadOf (acceptedRecords generateEmbedding documentId
                                          (chunkText text defaultMaxChunkSize))
      /\ documentAt documentId w' = Some document'
      /\ status document' = completed
      /\ docContent document' = Some text
      /\ chatMessages (store w') = chatMessages (store w).
Proof.
  intros extractText generateEmbedding w id filePath d text Hf Hd Hx.
  destruct (processDocumentBody_run extractText generateEmbedding id filePath w d text Hd Hx)
    as [w1 [w2 [w' [d' [M1 [U1 [E2 [E [M' [G [S [T C]]]]]]]]]]]].
  destruct (storeBatches_run generateEmbedding id (chunkText text defaultMaxChunkSize) w1
              (uuidsFresh_same w w1 M1 U1 Hf)) as [es [w2' [E2' [P Hm]]]].
  rewrite E2 in E2'. inversion E2'; subst w2'.
  exists es, w', d'. split; [|split; [|split; [|split; [|split; [|split]]]]].
  - unfold processDocumentAsync, tryCatch. rewrite E. reflexivity.
  - rewrite M', Hm, M1. reflexivity.
  - exact P.
  - exact G.
  - exact S.
  - exact T.
  - exact C.
Qed.

Lemma processDocumentAsync_stores_accepted_chunks_witness :
  exists es w' document',
    processDocumentAsync (fun _ _ _ => OK tenSentences) rejectsB 0 (str "uploads/f") uploaded
    = (OK tt, w')
    /\ mapValues (embeddings (store w')) = mapValues (embeddings (store uploaded)) ++ es
    /\ map payload es
       = map payloadOf (acceptedRecords rejectsB 0 (chunkText tenSentences defaultMaxChunkSize))
    /\ documentAt 0 w' = Some document'
    /\ status document' = completed
    /\ docContent document' = Some tenSentences
    /\ chatMessages (store w') = chatMessages (store uploaded).
Proof.
  refine (processDocumentAsync_stores_accepted_chunks
            (fun _ _ _ => OK tenSentences) rejectsB uploaded 0 (str "uploads/f")
            _ tenSentences _ eq_refl eq_refl).
  intros k e [].
Defined.

(** X15: the file pipeline never rejects, whatever the extractor and the
    vectorizer do, and never touches the chat messages.  On an id that is
    not stored it changes nothing; when the extractor rejects, the document
    is [failed], keeps the content it had, and no embedding is stored or
    removed. *)
Theorem processDocumentAsync_never_rejects :
  forall (extractText : jsstring -> jsstring -> jsstring -> result jsstring)
         (generateEmbedding : jsstring -> result (list float))
         (documentId : nat) (filePath : jsstring) (w : World),
    exists w',
      processDocumentAsync extractText generateEmbedding documentId filePath w = (OK tt, w')
      /\ chatMessages (store w') = chatMessages (store w)
      /\ (documentAt documentId w = None -> w' = w)
      /\ (forall document e,
             documentAt documentId w = Some document ->
             extractText filePath (mimeType document) (originalName document) = Throw e ->
             exists document',
               documentAt documentId w' = Some document'
               /\ status document' = failed
               /\ docContent document' = docContent document
               /\ embeddings (store w') = embeddings (store w)).
Proof.
  intros extractText generateEmbedding id filePath w. unfold documentAt.
  destruct (mapGet id (documents (store w))) as [d|] eqn:Hd.
  - destruct (extractText filePath (mimeType d) (originalName d)) as [text|e] eqn:Hx.
    + destruct (processDocumentBody_run extractText generateEmbedding id filePath w d text Hd Hx)
        as [w1 [w2 [w' [d' [_ [_ [_ [E [_ [_ [_ [_ C]]]]]]]]]]]].
      exists w'. split; [|split; [exact C|split]].
      * unfold processDocumentAsync, tryCatch. rewrite E. reflexivity.
      * discriminate.
      * intros d0 e0 H0 Hx0. inversion H0; subst d0. congruence.
    + destruct (updateDocumentStatus_run id failed None w _ Hd)
        as [w1 [d1 [E1 [G1 [S1 [T1 [M1 [C1 _]]]]]]]].
      exists w1. split; [|split; [exact C1|split]].
      * unfold processDocumentAsync, tryCatch.
        rewrite (processDocumentBody_failure extractText generateEmbedding id filePath w d e Hd Hx).
        unfold unlink. rewrite (@bind_ok _ _ _ _ w w1 _ E1). reflexivity.
      * discriminate.
      * intros d0 e0 H0 _. inversion H0; subst d0. exists d1. repeat split; assumption.
  - exists w. split; [|split; [reflexivity|split]].
    + unfold processDocumentAsync, tryCatch, processDocumentBody.
      rewrite (@bind_ok _ _ _ _ w w _ (getDocument_run id w)). rewrite Hd. reflexivity.
    + reflexivity.
    + intros d0 e0 H0. discriminate.
Qed.

Lemma processDocumentAsync_never_rejects_witness :
  exists w' document',
    processDocumentAsync unreadable rejectsB 0 (str "uploads/f") uploaded = (OK tt, w')
    /\ documentAt 0 w' = Some document'
    /\ status document' = failed
    /\ docContent document' = None
    /\ embeddings (store w') = embeddings (store uploaded).
Proof.
  destruct (processDocumentAsync_never_rejects unreadable rejectsB 0 (str "uploads/f") uploaded)
    as [w' [E [_ [_ F]]]].
  destruct (F _ "Failed to extract text"%string eq_refl eq_refl) as [d' [G [S [T Hm]]]].
  exists w', d'. split; [exact E|]. split; [exact G|]. split; [exact S|].
  split; [exact T|exact Hm].
Defined.

Lemma createDocument_full (ins : InsertDocument) (w : World) :
  exists w' d,
    createDocument ins w = (OK d, w')
    /\ docId d = uuids w
    /\ status d = processing
    /\ docContent d = None
    /\ mapGet (uuids w) (documents (store w')) = Some d
    /\ embeddings (store w') = embeddings (store w)
    /\ chatMessages (store w') = chatMessages (store w)
    /\ uuids w' = S (uuids w).
Proof.
  unfold createDocument, bind, randomUUID, newDate, getStore, setDocuments, bind, getStore,
    putStore, ret. cbn.
  eexists; eexists. split; [reflexivity|]. cbn.
  repeat split. apply mapGet_mapSet.
Qed.

(** X16: an upload whose MIME type is not one of the supported types is
    answered with the new document, [processing], and then only marked
    [failed]: neither the extractor nor the vectorizer has a say, the
    document gets no content, and no embedding and no chat message is
    written. *)
Theorem upload_unsupported_type :
  forall (extractText : jsstring -> jsstring -> jsstring -> result jsstring)
         (generateEmbedding : jsstring -> result (list float))
         (file : InsertDocument) (filePath : jsstring) (w : World),
    existsb (streq (newMimeType file)) supportedTypes = false ->
    exists document w' stored,
      upload extractText generateEmbedding file filePath w = (OK document, w')
      /\ status document = processing
      /\ documentAt (docId document) w' = Some stored
      /\ status stored = failed
      /\ docContent stored = None
      /\ embeddings (store w') = embeddings (store w)
      /\ chatMessages (store w') = chatMessages (store w).
Proof.
  intros extractText generateEmbedding file filePath w Hs. unfold upload. rewrite Hs.
  destruct (createDocument_full file w) as [w1 [d [E [Hid [Hst [Hc [Hg [Hm [Hch _]]]]]]]]].
  rewrite (@bind_ok _ _ _ _ w w1 _ E). cbn [negb]. rewrite Hid.
  destruct (updateDocumentStatus_run (uuids w) failed None w1 _ Hg)
    as [w2 [d2 [E2 [G2 [S2 [T2 [M2 [C2 _]]]]]]]].
  exists d, w2, d2. unfold unlink. split; [|split; [|split; [|split; [|split; [|split]]]]].
  - rewrite (@bind_ok _ _ _ _ w1 w2 tt
               (@bind_ok _ _ _ (fun _ => ret tt) w1 w2 _ E2)). reflexivity.
  - exact Hst.
  - rewrite Hid. exact G2.
  - exact S2.
  - rewrite T2. exact Hc.
  - congruence.
  - congruence.
Qed.

Lemma upload_unsupported_type_witness :
  exists document w' stored,
    upload unreadable rejectsB
           {| newFilename := str "m"; newOriginalName := str "m.mp4";
              newMimeType := str "video/mp4"; newSize := 9 |} (str "uploads/m") twoDocuments
    = (OK document, w')
    /\ status document = processing
    /\ documentAt (docId document) w' = Some stored
    /\ status stored = failed
    /\ docContent stored = None
    /\ embeddings (store w') = embeddings (store twoDocuments)
    /\ chatMessages (store w') = chatMessages (store twoDocuments).
Proof.
  apply (upload_unsupported_type unreadable rejectsB
           {| newFilename := str "m"; newOriginalName := str "m.mp4";
              newMimeType := str "video/mp4"; newSize := 9 |} (str "uploads/m") twoDocuments).
  vm_compute. reflexivity.
Defined.

(** X17: when the page of a stored document is fetched, and the UUIDs do
    not repeat, the URL pipeline ends without error: the document is
    [completed] and holds the fetched text, and what is stored after the
    embeddings already there is, in the order of the chunks (the promises of
    a batch store in the order they were started), one record for each chunk
    the vectorizer accepts, marked as coming from the URL and without an
    original index; the chat messages are untouched. *)
Theorem processUrlAsync_stores_accepted_chunks :
  forall (extractFromDomain : jsstring -> result jsstring)
         (generateEmbedding : jsstring -> result (list float))
         (w : World) (documentId : nat) (url : jsstring)
         (document : Document) (text : jsstring),
    uuidsFresh w ->
    documentAt documentId w = Some document ->
    extractFromDomain url = OK text ->
    exists es w' document',
      processUrlAsync extractFromDomain generateEmbedding documentId url w = (OK tt, w')
      /\ mapValues (embeddings (store w')) = mapValues (embeddings (store w)) ++ es
      /\ map payload es
         = map payloadOf
             (urlRecords generateEmbedding documentId
                         (length (chunkText text defaultMaxChunkSize)) url
                         (indexed 0 (chunkText text defaultMaxChunkSize)))
      /\ documentAt documentId w' = Some document'
      /\ status document' = completed
      /\ docContent document' = Some text
      /\ chatMessages (store w') = chatMessages (store w).
Proof.
  intros extractFromDomain generateEmbedding w id url d text Hf Hd Hx.
  unfold documentAt in *.
  destruct (updateDocumentStatus_run id completed (Some text) w _ Hd)
    as [w1 [d1 [E1 [G1 [S1 [T1 [M1 [C1 U1]]]]]]]].
  destruct (storeUrlBatches_run generateEmbedding id url (chunkText text defaultMaxChunkSize) w1
              (uuidsFresh_same w w1 M1 U1 Hf)) as [es [w2 [E2 [P [Hm [D2 C2]]]]]].
  exists es, w2, d1. split; [|split; [|split; [|split; [|split; [|split]]]]].
  - unfold processUrlAsync, tryCatch, processUrlBody.
    rewrite (@bind_ok _ _ _ _ w w _ (getDocument_run id w)). rewrite Hd, Hx.
    assert (Ea : await (OK text) w = (OK text, w)) by reflexivity.
    rewrite (@bind_ok _ _ _ _ w w _ Ea).
    rewrite (@bind_ok _ _ _ _ w w1 _ E1). rewrite E2. reflexivity.
  - rewrite Hm, M1. reflexivity.
  - exact P.
  - rewrite D2. exact G1.
  - exact S1.
  - exact T1.
  - congruence.
Qed.

Lemma processUrlAsync_stores_accepted_chunks_witness :
  exists es w' document',
    processUrlAsync (fun _ => OK tenSentences) rejectsB 0 (str "https://a.example/") uploaded
    = (OK tt, w')
    /\ mapValues (embeddings (store w')) = mapValues (embeddings (store uploaded)) ++ es
    /\ map payload es
       = map payloadOf
           (urlRecords rejectsB 0 (length (chunkText tenSentences defaultMaxChunkSize))
                       (str "https://a.example/")
                       (indexed 0 (chunkText tenSentences defaultMaxChunkSize)))
    /\ documentAt 0 w' = Some document'
    /\ status document' = completed
    /\ docContent document' = Some tenSentences
    /\ chatMessages (store w') = chatMessages (store uploaded).
Proof.
  refine (processUrlAsync_stores_accepted_chunks
            (fun _ => OK tenSentences) rejectsB uploaded 0 (str "https://a.example/")
            _ tenSentences _ eq_refl eq_refl).
  intros k e [].
Defined.

(** X18: the URL pipeline never rejects, whatever the fetcher and the
    vectorizer do, and never touches the chat messages.  On an id that is
    not stored it changes nothing; when the fetcher rejects, the document is
    in [error], keeps the content it had, and no embedding is stored or
    removed. *)
Theorem processUrlAsync_never_rejects :
  forall (extractFromDomain : jsstring -> result jsstring)
         (generateEmbedding : jsstring -> result (list float))
         (documentId : nat) (url : jsstring) (w : World),
    exists w',
      processUrlAsync extractFromDomain generateEmbedding documentId url w = (OK tt, w')
      /\ chatMessages (store w') = chatMessages (store w)
      /\ (documentAt documentId w = None -> w' = w)
      /\ (forall document e,
             documentAt documentId w = Some document ->
             extractFromDomain url = Throw e ->
             exists document',
               documentAt documentId w' = Some document'
               /\ status document' = error
               /\ docContent document' = docContent document
               /\ embeddings (store w') = embeddings (store w)).
Proof.
  intros extractFromDomain generateEmbedding id url w. unfold documentAt.
  unfold processUrlAsync, tryCatch, processUrlBody.
  rewrite (@bind_ok _ _ _ _ w w _ (getDocument_run id w)).
  destruct (mapGet id (documents (store w))) as [d|] eqn:Hd.
  - destruct (extractFromDomain url) as [text|e] eqn:Hx.
    + assert (Ea : await (OK text) w = (OK text, w)) by reflexivity.
      rewrite (@bind_ok _ _ _ _ w w _ Ea).
      destruct (updateDocumentStatus_run id completed (Some text) w _ Hd)
        as [w1 [d1 [E1 [_ [_ [_ [_ [C1 _]]]]]]]].
      rewrite (@bind_ok _ _ _ _ w w1 _ E1).
      destruct (quiet_storeUrlBatches generateEmbedding id url
                  (chunkText text defaultMaxChunkSize) w1) as [[] [w2 [E2 [_ [_ C2]]]]].
      rewrite E2. exists w2. split; [reflexivity|]. split; [congruence|]. split.
      * discriminate.
      * intros d0 e0 _ H0. discriminate.
    + assert (Ea : await (@Throw jsstring e) w = (Throw e, w)) by reflexivity.
      rewrite (@bind_throw _ _ _ _ w w _ Ea).
      destruct (updateDocumentStatus_run id error None w _ Hd)
        as [w1 [d1 [E1 [G1 [S1 [T1 [M1 [C1 _]]]]]]]].
      rewrite E1. exists w1. split; [reflexivity|]. split; [exact C1|]. split.
      * discriminate.
      * intros d0 e0 H0 _. inversion H0; subst d0. exists d1. repeat split; assumption.
  - exists w. split; [reflexivity|]. split; [reflexivity|]. split; [reflexivity|].
    intros d0 e0 H0. discriminate.
Qed.

Lemma processUrlAsync_never_rejects_witness :
  exists w' document',
    processUrlAsync unreachable rejectsB 0 (str "https://a.example/") uploaded = (OK tt, w')
    /\ documentAt 0 w' = Some document'
    /\ status document' = error
    /\ docContent document' = None
    /\ embeddings (store w') = embeddings (store uploaded).
Proof.
  destruct (processUrlAsync_never_rejects unreachable rejectsB 0 (str "https://a.example/")
              uploaded) as [w' [E [_ [_ F]]]].
  destruct (F _ "Failed to fetch"%string eq_refl eq_refl) as [d' [G [S [T Hm]]]].
  exists w', d'. split; [exact E|]. split; [exact G|]. split; [exact S|].
  split; [exact T|exact Hm].
Defined.

(* ================================================================== *)
(** * Further properties of the chat handler                            *)
(* ================================================================== *)

(** X19: the answer is made of the first three entries of the context
    only. *)
Theorem generateChatResponse_first_three :
  forall context : list jsstring,
    generateChatResponse context = generateChatResponse (firstn 3 context).
Proof.
  intros context. unfold generateChatResponse.
  destruct context as [|a [|b [|c rest]]]; reflexivity.
Qed.

Lemma existsb_eqb_false (n : nat) (l : list nat) :
  existsb (Nat.eqb n) l = false -> ~ In n l.
Proof.
  intros H Hin. assert (Ht : existsb (Nat.eqb n) l = true).
  { apply existsb_exists. exists n. split; [exact Hin | apply Nat.eqb_refl]. }
  congruence.
Qed.

Lemma In_firstn {X} (n : nat) (l : list X) (x : X) : In x (firstn n l) -> In x l.
Proof. intros H. rewrite <- (firstn_skipn n l). apply in_or_app. left. exact H. Qed.

(** X20: the keyword branch of the chat handler keeps the ranked chunks,
    at most eight, in their places and adds after them at most three chunks
    of the store, each with the similarity 0.5 and none with the id of a
    ranked chunk, to at most eight chunks in all. *)
Theorem withKeywordMatches_adds_unranked_chunks :
  forall (toLowerCase : jsstring -> jsstring) (queryLower : jsstring)
         (data : list (Chunk float)) (similarChunks : list (Match float)),
    length similarChunks <= 8 ->
    exists added,
      withKeywordMatches toLowerCase queryLower data similarChunks = similarChunks ++ added
      /\ length (similarChunks ++ added) <= 8
      /\ length added <= 3
      /\ Forall (fun m => matchSimilarity m = 0.5%float
                          /\ ~ In (matchId m) (map (@matchId float) similarChunks)
                          /\ exists c, In c data /\ m = keywordMatch c) added.
Proof.
  intros toLowerCase queryLower data similarChunks Hn. unfold withKeywordMatches.
  destruct (find _ allKeywords) as [relevantKeyword|].
  - cbv zeta.
    set (keywordMatches := filter _ data).
    set (fresh := filter _ keywordMatches).
    exists (firstn (8 - length similarChunks) (map keywordMatch (firstn 3 fresh))).
    split; [|split; [|split]].
    + rewrite firstn_app, (firstn_all2 (n := 8)) by exact Hn. reflexivity.
    + rewrite length_app, length_firstn. lia.
    + rewrite length_firstn, length_map, length_firstn. lia.
    + apply Forall_forall. intros m Hm.
      apply In_firstn in Hm. apply in_map_iff in Hm. destruct Hm as [c [<- Hc]].
      apply In_firstn in Hc. unfold fresh in Hc. apply filter_In in Hc.
      destruct Hc as [Hc Hid]. unfold keywordMatches in Hc. apply filter_In in Hc.
      split; [reflexivity|]. split.
      * cbn [keywordMatch matchId]. apply existsb_eqb_false.
        destruct (existsb _ _); [discriminate | reflexivity].
      * exists c. split; [exact (proj1 Hc) | reflexivity].
  - exists []. rewrite app_nil_r. split; [reflexivity|]. split; [exact Hn|].
    split; [cbn; lia | constructor].
Qed.

Lemma withKeywordMatches_adds_unranked_chunks_witness :
  exists added,
    withKeywordMatches (fun s => s) (str "who is helen")
      [ {| id := 1; embedding := [0.5%float]; content := str "helen rodin";
           documentId := 0; metadata := None |} ] []
    = [] ++ added
    /\ length ([] ++ added) <= 8
    /\ length added <= 3
    /\ Forall (fun m => matchSimilarity m = 0.5%float
                        /\ ~ In (matchId m) (map (@matchId float) [])
                        /\ exists c,
                             In c [ {| id := 1; embedding := [0.5%float];
                                       content := str "helen rodin";
                                       documentId := 0; metadata := None |} ]
                             /\ m = keywordMatch c) added.
Proof.
  apply (withKeywordMatches_adds_unranked_chunks (fun s => s) (str "who is helen")
           [ {| id := 1; embedding := [0.5%float]; content := str "helen rodin";
                documentId := 0; metadata := None |} ] []).
  cbn. lia.
Defined.

Lemma createChatMessage_full (ins : InsertChatMessage) (w : World) :
  exists w',
    createChatMessage ins w
    = (OK {| msgId := uuids w; msgContent := newMessageContent ins; role := newRole ins;
             sources := newSources ins; msgCreatedAt := wallClock w (dates w) |}, w')
    /\ chatMessages (store w')
       = mapSet (uuids w)
           {| msgId := uuids w; msgContent := newMessageContent ins; role := newRole ins;
              sources := newSources ins; msgCreatedAt := wallClock w (dates w) |}
           (chatMessages (store w))
    /\ documents (store w') = documents (store w)
    /\ embeddings (store w') = embeddings (store w)
    /\ uuids w' = S (uuids w)
    /\ dates w' = S (dates w)
    /\ wallClock w' = wallClock w.
Proof. run_store. eexists. split; [reflexivity|]. repeat split. Qed.

Lemma getAllChatMessages_full (w : World) :
  exists r w',
    getAllChatMessages w = (OK r, w')
    /\ chatMessages (store w')
       = (if (length (documents (store w)) =? 0)%nat then [] else chatMessages (store w))
    /\ documents (store w') = documents (store w)
    /\ embeddings (store w') = embeddings (store w)
    /\ uuids w' = uuids w
    /\ dates w' = dates w
    /\ wallClock w' = wallClock w.
Proof.
  unfold getAllChatMessages, bind, getStore, setChatMessages, putStore, bind, getStore, ret.
  cbn. destruct (length (documents (store w)) =? 0)%nat;
    eexists; eexists; split; try reflexivity; repeat split.
Qed.

Lemma sourcesOf_run (top : list (Match float)) (w : World) :
  exists srcs,
    sourcesOf top w = (OK srcs, w)
    /\ length srcs <= length top
    /\ Forall (namesDocument w) srcs.
Proof.
  induction top as [|c top IH].
  - exists []. cbn. repeat split; constructor.
  - destruct IH as [srcs [E [Hl Hf]]]. cbn [sourcesOf].
    rewrite (@bind_ok _ _ _ _ w w _ (getDocument_run (matchDocumentId c) w)).
    rewrite (@bind_ok _ _ _ _ w w _ E).
    destruct (mapGet (matchDocumentId c) (documents (store w))) as [d|] eqn:Hd.
    + eexists. split; [reflexivity|]. split; [cbn; lia|].
      constructor; [|exact Hf]. exists (matchDocumentId c), d. repeat split. exact Hd.
    + exists srcs. split; [reflexivity|]. split; [cbn; lia | exact Hf].
Qed.

Lemma namesDocument_same (w w' : World) (s : Source) :
  documents (store w') = documents (store w) -> namesDocument w' s -> namesDocument w s.
Proof.
  intros Hd [id [d [H1 H2]]]. exists id, d. split; [|exact H2].
  unfold documentAt in *. rewrite <- Hd. exact H1.
Qed.

Section Chat.

Variable generateEmbedding : jsstring -> result (list float).
Variable toLowerCase : jsstring -> jsstring.

(** The chat request when the query is vectorized and the ranking does
    not throw. *)
Lemma postChatMessage_run (content : jsstring) (v : list float) (ranked : list (Match float))
  (w : World) :
  generateEmbedding content = OK v ->
  findSimilarChunks binary64 v (map embeddingData (mapValues (embeddings (store w)))) 5
  = OK ranked ->
  exists srcs w',
    postChatMessage generateEmbedding toLowerCase (Some content) w
    = (OK (userMessageOf content w,
           answerOf (chosenChunks toLowerCase content
                       (map embeddingData (mapValues (embeddings (store w)))) ranked)
                    srcs w), w')
    /\ length srcs
       <= length (firstn 3 (chosenChunks toLowerCase content
                              (map embeddingData (mapValues (embeddings (store w)))) ranked))
    /\ Forall (namesDocument w) srcs
    /\ chatMessages (store w')
       = mapSet (S (uuids w))
           (answerOf (chosenChunks toLowerCase content
                        (map embeddingData (mapValues (embeddings (store w)))) ranked)
                     srcs w)
           (if (length (documents (store w)) =? 0)%nat then []
            else mapSet (uuids w) (userMessageOf content w) (chatMessages (store w)))
    /\ documents (store w') = documents (store w)
    /\ embeddings (store w') = embeddings (store w).
Proof.
  intros Hv Hr. unfold postChatMessage.
  assert (Er : ret content w = (OK content, w)) by reflexivity.
  rewrite (@bind_ok _ _ _ _ w w _ Er).
  destruct (createChatMessage_full
              {| newMessageContent := content; newRole := user; newSources := None |} w)
    as [w1 [E1 [C1 [D1 [M1 [U1 [T1 W1]]]]]]].
  rewrite (@bind_ok _ _ _ _ w w1 _ E1).
  destruct (getAllChatMessages_full w1) as [r [w2 [E2 [C2 [D2 [M2 [U2 [T2 W2]]]]]]]].
  rewrite (@bind_ok _ _ _ _ w1 w2 _ E2).
  rewrite Hv.
  assert (Ea : await (OK v) w2 = (OK v, w2)) by reflexivity.
  rewrite (@bind_ok _ _ _ _ w2 w2 _ Ea).
  assert (Eg : getAllEmbeddings w2 = (OK (mapValues (embeddings (store w))), w2)).
  { unfold getAllEmbeddings, bind, getStore, ret. rewrite M2, M1. reflexivity. }
  rewrite (@bind_ok _ _ _ _ w2 w2 _ Eg).
  cbv zeta. rewrite Hr.
  assert (Eb : await (OK ranked) w2 = (OK ranked, w2)) by reflexivity.
  rewrite (@bind_ok _ _ _ _ w2 w2 _ Eb).
  set (chosen := chosenChunks toLowerCase content
                   (map embeddingData (mapValues (embeddings (store w)))) ranked).
  destruct (sourcesOf_run (firstn 3 chosen) w2) as [srcs [Es [Hl Hf]]].
  assert (Es' : sourcesOf (firstn 3 chosen) w2 = (OK srcs, w2)) by exact Es.
  unfold chosen, chosenChunks in Es'. cbv zeta in Es'.
  rewrite (@bind_ok _ _ _ _ w2 w2 _ Es').
  match goal with
  | |- context [createChatMessage ?ins] =>
      destruct (createChatMessage_full ins w2) as [w3 [E3 [C3 [D3 [M3 _]]]]]
  end.
  rewrite (@bind_ok _ _ _ _ w2 w3 _ E3).
  exists srcs, w3. split; [|split; [|split; [|split; [|split]]]].
  - unfold ret, userMessageOf, answerOf. cbn [newMessageContent newRole newSources].
    rewrite U2, U1, T2, T1, W2, W1. reflexivity.
  - exact Hl.
  - apply Forall_forall. intros s Hs. rewrite Forall_forall in Hf.
    apply (namesDocument_same w w2); [congruence | apply Hf, Hs].
  - rewrite C3, C2, C1, D1, U2, U1, T2, T1, W2, W1. reflexivity.
  - congruence.
  - congruence.
Qed.

Lemma chosenChunks_nil (content : jsstring) : chosenChunks toLowerCase content [] [] = [].
Proof.
  unfold chosenChunks. cbv zeta.
  destruct (existsb _ contextKeywords || _); cbn [firstn];
    (destruct (_ && _); [|reflexivity]);
    unfold withKeywordMatches; destruct (find _ allKeywords); reflexivity.
Qed.

End Chat.

(** X21: while no embedding is stored, a chat request whose query is
    vectorized is answered with the fixed text that asks for documents, and
    names no source.  When moreover no document is stored, the answer is the
    only chat message the store holds afterwards: the user's message, stored
    first, is emptied with the history. *)
Theorem postChatMessage_without_embeddings :
  forall (generateEmbedding : jsstring -> result (list float))
         (toLowerCase : jsstring -> jsstring)
         (content : jsstring) (v : list float) (w : World),
    generateEmbedding content = OK v ->
    embeddings (store w) = [] ->
    exists a w',
      postChatMessage generateEmbedding toLowerCase (Some content) w
      = (OK (userMessageOf content w, a), w')
      /\ role a = assistant
      /\ msgContent a = generateChatResponse []
      /\ sources a = None
      /\ (documents (store w) = [] -> chatMessages (store w') = [(S (uuids w), a)]).
Proof.
  intros generateEmbedding toLowerCase content v w Hv He.
  assert (Hr : findSimilarChunks binary64 v
                 (map embeddingData (mapValues (embeddings (store w)))) 5 = OK []).
  { rewrite He. reflexivity. }
  destruct (postChatMessage_run generateEmbedding toLowerCase content v [] w Hv Hr)
    as [srcs [w' [E [Hl [_ [C _]]]]]].
  rewrite He in *. cbn [mapValues map] in *. rewrite chosenChunks_nil in *.
  assert (Hs : srcs = []) by (destruct srcs; [reflexivity | cbn in Hl; lia]).
  subst srcs.
  exists (answerOf [] [] w), w'. split; [exact E|]. repeat split.
  intros Hd. rewrite C, Hd. reflexivity.
Qed.

Lemma postChatMessage_without_embeddings_witness :
  exists a w',
    postChatMessage vectorize (fun s => s) (Some (str "hello")) lonelyMessage
    = (OK (userMessageOf (str "hello") lonelyMessage, a), w')
    /\ role a = assistant
    /\ msgContent a = generateChatResponse []
    /\ sources a = None
    /\ chatMessages (store w') = [(S (uuids lonelyMessage), a)].
Proof.
  destruct (postChatMessage_without_embeddings vectorize (fun s => s) (str "hello")
              (Vectorizer.generateEmbedding (str "hello")) lonelyMessage eq_refl eq_refl)
    as [a [w' [E [R [T [S C]]]]]].
  exists a, w'. split; [exact E|]. split; [exact R|]. split; [exact T|].
  split; [exact S | exact (C eq_refl)].
Defined.

(** X22: when the query is vectorized and every stored vector has the
    length of the query's, the chat request is answered: the user message
    and an assistant message are returned, the sources of the answer are
    absent or between one and three, each naming a stored document, and the
    documents and the embeddings are untouched. *)
Theorem postChatMessage_answers :
  forall (generateEmbedding : jsstring -> result (list float))
         (toLowerCase : jsstring -> jsstring)
         (content : jsstring) (v : list float) (w : World),
    generateEmbedding content = OK v ->
    Forall (fun e => length (embVector e) = length v) (mapValues (embeddings (store w))) ->
    exists a w',
      postChatMessage generateEmbedding toLowerCase (Some content) w
      = (OK (userMessageOf content w, a), w')
      /\ role a = assistant
      /\ msgId a = S (uuids w)
      /\ match sources a with
         | None => True
         | Some srcs => 1 <= length srcs <= 3 /\ Forall (namesDocument w) srcs
         end
      /\ documents (store w') = documents (store w)
      /\ embeddings (store w') = embeddings (store w).
Proof.
  intros generateEmbedding toLowerCase content v w Hv Hlen.
  assert (Hdata : Forall (fun c => length (embedding c) = length v)
                         (map embeddingData (mapValues (embeddings (store w))))).
  { induction Hlen as [|e l He _ IH]; cbn [map]; constructor; [exact He | exact IH]. }
  pose proof (@findSimilarChunks_matching _ binary64 v _ 5 Hdata) as Hr.
  destruct (postChatMessage_run generateEmbedding toLowerCase content v _ w Hv Hr)
    as [srcs [w' [E [Hl [Hf [_ [D M]]]]]]].
  eexists; exists w'. split; [exact E|]. split; [reflexivity|]. split; [reflexivity|].
  split; [|split; [exact D | exact M]].
  cbn [answerOf sources].
  destruct (0 <? length srcs)%nat eqn:Hpos; [|exact I].
  apply Nat.ltb_lt in Hpos. split; [|exact Hf].
  rewrite length_firstn in Hl. lia.
Qed.

Lemma postChatMessage_answers_witness :
  exists a w',
    postChatMessage (fun _ => OK [1%float]) (fun s => s) (Some (str "hi")) shortVector
    = (OK (userMessageOf (str "hi") shortVector, a), w')
    /\ role a = assistant
    /\ msgId a = S (uuids shortVector)
    /\ match sources a with
       | None => True
       | Some srcs => 1 <= length srcs <= 3 /\ Forall (namesDocument shortVector) srcs
       end
    /\ documents (store w') = documents (store shortVector)
    /\ embeddings (store w') = embeddings (store shortVector).
Proof.
  apply (postChatMessage_answers (fun _ => OK [1%float]) (fun s => s) (str "hi")
           [1%float] shortVector eq_refl).
  repeat constructor.
Defined.

(* ================================================================== *)
(** * Further properties of the two upload routes                       *)
(* ================================================================== *)

Lemma createDocument_fields (ins : InsertDocument) (w : World) :
  exists w' d,
    createDocument ins w = (OK d, w')
    /\ docId d = uuids w
    /\ status d = processing
    /\ docContent d = None
    /\ (filename d, originalName d, mimeType d, size d)
       = (newFilename ins, newOriginalName ins, newMimeType ins, newSize ins)
    /\ mapGet (uuids w) (documents (store w')) = Some d
    /\ chatMessages (store w') = chatMessages (store w).
Proof.
  unfold createDocument, bind, randomUUID, newDate, getStore, setDocuments, bind, getStore,
    putStore, ret. cbn.
  eexists; eexists. split; [reflexivity|]. cbn.
  repeat split. apply mapGet_mapSet.
Qed.

(** X23: an upload of a supported MIME type is answered with the new
    document, [processing], and never fails: the stored document ends
    [completed] with the extracted text as its content when the extractor
    returns, and [failed] without content when the extractor rejects; the
    chat messages are untouched. *)
Theorem upload_supported_type :
  forall (extractText : jsstring -> jsstring -> jsstring -> result jsstring)
         (generateEmbedding : jsstring -> result (list float))
         (file : InsertDocument) (filePath : jsstring) (w : World),
    existsb (streq (newMimeType file)) supportedTypes = true ->
    exists document w' stored,
      upload extractText generateEmbedding file filePath w = (OK document, w')
      /\ status document = processing
      /\ documentAt (docId document) w' = Some stored
      /\ status stored
         = match extractText filePath (newMimeType file) (newOriginalName file) with
           | OK _ => completed
           | Throw _ => failed
           end
      /\ docContent stored
         = match extractText filePath (newMimeType file) (newOriginalName file) with
           | OK text => Some text
           | Throw _ => None
           end
      /\ chatMessages (store w') = chatMessages (store w).
Proof.
  intros extractText generateEmbedding file filePath w Hs. unfold upload. rewrite Hs.
  destruct (createDocument_fields file w) as [w1 [d [E [Hid [Hst [Hc [Hn [Hg Hch]]]]]]]].
  injection Hn as _ Hname Hmime _.
  rewrite (@bind_ok _ _ _ _ w w1 _ E). cbn [negb]. rewrite Hid.
  unfold processDocumentAsync, tryCatch, documentAt. rewrite <- Hmime, <- Hname.
  destruct (extractText filePath (mimeType d) (originalName d)) as [text|e] eqn:Hx.
  - destruct (processDocumentBody_run extractText generateEmbedding (uuids w) filePath w1 d text
                Hg Hx) as [w2 [w3 [w' [d' [_ [_ [_ [Eb [_ [G [S [T C]]]]]]]]]]]].
    exists d, w', d'. unfold bind at 1. rewrite Eb.
    split; [reflexivity|]. split; [exact Hst|]. split; [rewrite Hid; exact G|].
    split; [exact S|]. split; [exact T | congruence].
  - destruct (updateDocumentStatus_run (uuids w) failed None w1 _ Hg)
      as [w2 [d2 [E2 [G2 [S2 [T2 [_ [C2 _]]]]]]]].
    exists d, w2, d2. unfold bind at 1.
    rewrite (processDocumentBody_failure extractText generateEmbedding (uuids w) filePath w1 d e
               Hg Hx).
    unfold unlink. rewrite (@bind_ok _ _ _ _ w1 w2 _ E2).
    split; [reflexivity|]. split; [exact Hst|]. split; [rewrite Hid; exact G2|].
    split; [exact S2|]. split; [rewrite T2; exact Hc | congruence].
Qed.

Lemma upload_supported_type_witness :
  exists document w' stored,
    upload unreadable rejectsB
           {| newFilename := str "t"; newOriginalName := str "t.txt";
              newMimeType := str "text/plain"; newSize := 9 |} (str "uploads/t") twoDocuments
    = (OK document, w')
    /\ status document = processing
    /\ documentAt (docId document) w' = Some stored
    /\ status stored = failed
    /\ docContent stored = None
    /\ chatMessages (store w') = chatMessages (store twoDocuments).
Proof.
  apply (upload_supported_type unreadable rejectsB
           {| newFilename := str "t"; newOriginalName := str "t.txt";
              newMimeType := str "text/plain"; newSize := 9 |} (str "uploads/t") twoDocuments).
  vm_compute. reflexivity.
Defined.

Lemma processUrlAsync_outcome (extractFromDomain : jsstring -> result jsstring)
  (generateEmbedding : jsstring -> result (list float))
  (id : nat) (url : jsstring) (w : World) (d : Document) :
  mapGet id (documents (store w)) = Some d ->
  exists w' d',
    processUrlAsync extractFromDomain generateEmbedding id url w = (OK tt, w')
    /\ mapGet id (documents (store w')) = Some d'
    /\ status d' = match extractFromDomain url with
                   | OK _ => completed
                   | Throw _ => error
                   end
    /\ docContent d' = match extractFromDomain url with
                       | OK text => Some text
                       | Throw _ => docContent d
                       end
    /\ chatMessages (store w') = chatMessages (store w).
Proof.
  intros Hd. unfold processUrlAsync, tryCatch, processUrlBody.
  rewrite (@bind_ok _ _ _ _ w w _ (getDocument_run id w)). rewrite Hd.
  destruct (extractFromDomain url) as [text|e] eqn:Hx.
  - assert (Ea : await (OK text) w = (OK text, w)) by reflexivity.
    rewrite (@bind_ok _ _ _ _ w w _ Ea).
    destruct (updateDocumentStatus_run id completed (Some text) w _ Hd)
      as [w1 [d1 [E1 [G1 [S1 [T1 [_ [C1 _]]]]]]]].
    rewrite (@bind_ok _ _ _ _ w w1 _ E1).
    destruct (quiet_storeUrlBatches generateEmbedding id url
                (chunkText text defaultMaxChunkSize) w1) as [[] [w2 [E2 [D2 [_ C2]]]]].
    rewrite E2. exists w2, d1. split; [reflexivity|]. split; [rewrite D2; exact G1|].
    split; [exact S1|]. split; [exact T1 | congruence].
  - assert (Ea : await (@Throw jsstring e) w = (Throw e, w)) by reflexivity.
    rewrite (@bind_throw _ _ _ _ w w _ Ea).
    destruct (updateDocumentStatus_run id error None w _ Hd)
      as [w1 [d1 [E1 [G1 [S1 [T1 [_ [C1 _]]]]]]]].
    rewrite E1. exists w1, d1. split; [reflexivity|]. split; [exact G1|].
    split; [exact S1|]. split; [exact T1 | exact C1].
Qed.

(** The handler past its validation. *)
Lemma extractUrl_run :
  forall (extractFromDomain : jsstring -> result jsstring)
         (generateEmbedding : jsstring -> result (list float))
         (url hostname : jsstring) (stamp : nat) (w : World),
    exists document w' stored,
      extractUrl extractFromDomain generateEmbedding url hostname stamp w = (OK document, w')
      /\ status document = processing
      /\ (filename document, originalName document, mimeType document, size document)
         = (hostname ++ str "_" ++ toString stamp, url, str "text/html", 0%Z)
      /\ documentAt (docId document) w' = Some stored
      /\ status stored = match extractFromDomain url with
                         | OK _ => completed
                         | Throw _ => error
                         end
      /\ docContent stored = match extractFromDomain url with
                             | OK text => Some text
                             | Throw _ => None
                             end
      /\ chatMessages (store w') = chatMessages (store w).
Proof.
  intros extractFromDomain generateEmbedding url hostname stamp w. unfold extractUrl.
  destruct (createDocument_fields
              {| newFilename := hostname ++ str "_" ++ toString stamp;
                 newOriginalName := url; newMimeType := str "text/html"; newSize := 0 |} w)
    as [w1 [d [E [Hid [Hst [Hc [Hn [Hg Hch]]]]]]]].
  rewrite (@bind_ok _ _ _ _ w w1 _ E). rewrite Hid.
  destruct (processUrlAsync_outcome extractFromDomain generateEmbedding (uuids w) url w1 d Hg)
    as [w2 [d2 [E2 [G2 [S2 [T2 C2]]]]]].
  rewrite (@bind_ok _ _ _ _ w1 w2 _ E2).
  exists d, w2, d2. split; [reflexivity|]. split; [exact Hst|]. split; [exact Hn|].
  split; [rewrite Hid; exact G2|]. split; [exact S2|]. split; [|congruence].
  rewrite T2, Hc. destruct (extractFromDomain url); reflexivity.
Qed.

(** X24: the URL route answers 400 "URL is required" when the body has no
    url, a url that is not a string or the empty string, and 400 "Invalid URL
    format" when the url does not parse; in both cases nothing is created or
    changed.  For a url that parses it answers a new document that is
    [processing], named after the parsed host and the time, of type
    text/html, and then never fails: the stored document ends [completed]
    with the fetched text as its content when the fetcher returns, and in
    [error] without content when the fetcher rejects; the chat messages are
    untouched. *)
Theorem postExtractUrl_outcome :
  forall (extractFromDomain : jsstring -> result jsstring)
         (generateEmbedding : jsstring -> result (list float))
         (parseUrl : jsstring -> option jsstring)
         (stamp : nat) (w : World),
    postExtractUrl extractFromDomain generateEmbedding parseUrl None stamp w
    = (OK (Refusal 400 "URL is required"), w)
    /\ postExtractUrl extractFromDomain generateEmbedding parseUrl (Some []) stamp w
       = (OK (Refusal 400 "URL is required"), w)
    /\ (forall url,
           url <> [] ->
           parseUrl url = None ->
           postExtractUrl extractFromDomain generateEmbedding parseUrl (Some url) stamp w
           = (OK (Refusal 400 "Invalid URL format"), w))
    /\ (forall url hostname,
           url <> [] ->
           parseUrl url = Some hostname ->
           exists document w' stored,
             postExtractUrl extractFromDomain generateEmbedding parseUrl (Some url) stamp w
             = (OK (Json document), w')
             /\ status document = processing
             /\ (filename document, originalName document, mimeType document, size document)
                = (hostname ++ str "_" ++ toString stamp, url, str "text/html", 0%Z)
             /\ documentAt (docId document) w' = Some stored
             /\ status stored = match extractFromDomain url with
                                | OK _ => completed
                                | Throw _ => error
                                end
             /\ docContent stored = match extractFromDomain url with
                                    | OK text => Some text
                                    | Throw _ => None
                                    end
             /\ chatMessages (store w') = chatMessages (store w)).
Proof.
  intros extractFromDomain generateEmbedding parseUrl stamp w.
  split; [reflexivity|]. split; [reflexivity|]. split.
  - intros url Hne Hp. unfold postExtractUrl.
    destruct url as [|c url]; [congruence|]. cbn [length Nat.eqb]. rewrite Hp. reflexivity.
  - intros url hostname Hne Hp. unfold postExtractUrl.
    destruct url as [|c url]; [congruence|]. cbn [length Nat.eqb]. rewrite Hp.
    destruct (extractUrl_run extractFromDomain generateEmbedding (c :: url) hostname stamp w)
      as [d [w' [stored [E H]]]].
    exists d, w', stored. split; [|exact H].
    rewrite (@bind_ok _ _ _ _ w w' _ E). reflexivity.
Qed.

Lemma postExtractUrl_outcome_witness :
  postExtractUrl unreachable rejectsB httpsOnly (Some (str "a.example")) 7 twoDocuments
  = (OK (Refusal 400 "Invalid URL format"), twoDocuments)
  /\ exists document w' stored,
       postExtractUrl unreachable rejectsB httpsOnly (Some (str "https://a.example/")) 7
                      twoDocuments
       = (OK (Json document), w')
       /\ status document = processing
       /\ filename document = str "a.example_7"
       /\ documentAt (docId document) w' = Some stored
       /\ status stored = error
       /\ docContent stored = None.
Proof.
  destruct (postExtractUrl_outcome unreachable rejectsB httpsOnly 7 twoDocuments)
    as [_ [_ [H400 Hok]]].
  split.
  - apply H400; [discriminate | reflexivity].
  - destruct (Hok (str "https://a.example/") (str "a.example")
                  ltac:(discriminate) eq_refl)
      as [d [w' [stored [E [S [N [G [T [C _]]]]]]]]].
    exists d, w', stored. split; [exact E|]. split; [exact S|].
    split; [injection N as N _ _ _; exact N|]. split; [exact G|].
    split; [exact T | exact C].
Defined.

(* ================================================================== *)
(** * The chunker on a text without a sentence                          *)
(* ================================================================== *)

Lemma trimStart_white (s : jsstring) :
  Forall (fun c => isWhite c = true) s -> trimStart s = [].
Proof.
  induction 1 as [|c s Hc _ IH]; [reflexivity|]. cbn [trimStart]. rewrite Hc. exact IH.
Qed.

Lemma trim_white (s : jsstring) :
  Forall (fun c => isWhite c = true) s -> trim s = [].
Proof. intros H. unfold trim, trimEnd. rewrite (trimStart_white s H). reflexivity. Qed.

Lemma splitFrom_blank (text : jsstring) :
  Forall (fun c => isTerminator c || isWhite c = true) text ->
  forall (inRun : bool) (piece : jsstring),
    Forall (fun c => isWhite c = true) piece ->
    Forall (fun s => trim s = []) (splitFrom inRun piece text).
Proof.
  induction 1 as [|c text Hc _ IH]; intros inRun piece Hp; cbn [splitFrom].
  - constructor; [|constructor]. apply trim_white. apply Forall_rev. exact Hp.
  - destruct (isTerminator c) eqn:Ht.
    + destruct inRun.
      * apply IH. constructor.
      * constructor; [apply trim_white, Forall_rev, Hp | apply IH; constructor].
    + apply IH. constructor; [exact Hc | exact Hp].
Qed.

Lemma sentencesOf_blank (text : jsstring) :
  Forall (fun c => isTerminator c || isWhite c = true) text -> sentencesOf text = [].
Proof.
  intros H. unfold sentencesOf, split.
  pose proof (splitFrom_blank text H false [] (Forall_nil _)) as Hs.
  induction Hs as [|s l Hs _ IH]; [reflexivity|].
  cbn [filter]. rewrite Hs. exact IH.
Qed.

(** X25: a text without a sentence, made of full stops, exclamation
    marks, question marks and white space only, is not chunked: the result
    is the one chunk that is the text itself, cut at the bound, whether it
    is blank or empty. *)
Theorem chunkText_without_sentence :
  forall (text : jsstring) (maxChunkSize : Z),
    Forall (fun c => isTerminator c || isWhite c = true) text ->
    chunkText text maxChunkSize = [substring0 text maxChunkSize].
Proof.
  intros text maxChunkSize H. unfold chunkText. rewrite (sentencesOf_blank text H).
  reflexivity.
Qed.

Lemma chunkText_without_sentence_witness :
  chunkText (str " ?!.. ") 3 = [substring0 (str " ?!.. ") 3].
Proof.
  apply (chunkText_without_sentence (str " ?!.. ") 3).
  repeat constructor.
Defined.
